(** * Recorder: the synchronized animation-recording controller

    A shallow embedding of the [Recorder] class of the gaussian-vrm viewer
    (constructor, popup helpers, startRecording / stopRecording /
    toggleRecording, the MediaRecorder handlers and the per-frame state
    machine of recordAnimation), together with the properties of its
    specification.

    Conventions of the embedding.
    - The browser is a parameter: the capability probe is a record
      [Browser]; everything the class does to its collaborators
      (MediaRecorder, DOM, console, timers, requestAnimationFrame) is
      returned as a chronological list of [effect]s.
    - Fields that the early [return] of the constructor leaves [undefined]
      are represented by their falsy value ([false], [None]); the class only
      ever tests them for truthiness.
    - JavaScript arrays are objects: the constructor's local
      [recordedChunks] and the property [this.recordedChunks] are two
      references into a store of arrays.
    - [action.time] and the clip duration are JavaScript numbers; they are
      represented by exact rationals.  The frame state machine only uses the
      truth value of the look-ahead test on each frame. *)

From Stdlib Require Import Bool Arith ZArith Lia List String Ascii QArith.
From Stdlib Require Import Qminmax Qround Lqa DecimalString.
Import ListNotations.

Local Open Scope nat_scope.
Local Open Scope string_scope.
Local Open Scope list_scope.

(* ------------------------------------------------------------------ *)
(** ** JavaScript string helpers used by the class *)

Module JsString.

(** [s.split(sep)] for a one-character separator: the segments between the
    separators, always at least one. *)
Fixpoint split (sep : ascii) (s : string) : list string :=
  match s with
  | EmptyString => [EmptyString]
  | String c rest =>
      if Ascii.eqb c sep then EmptyString :: split sep rest
      else match split sep rest with
           | [] => [String c EmptyString]
           | seg :: segs => String c seg :: segs
           end
  end.

(** [arr.pop()] and [arr.shift()] read as values: last and first element
    ([undefined] on an empty array). *)
Definition pop (l : list string) : option string :=
  match rev l with
  | [] => None
  | x :: _ => Some x
  end.

Definition shift (l : list string) : option string :=
  match l with
  | [] => None
  | x :: _ => Some x
  end.

(** [s.includes(sub)] *)
Definition includes (sub s : string) : bool :=
  match String.index 0 sub s with
  | Some _ => true
  | None => false
  end.

(** Truthiness of a string-valued property that may be [undefined]. *)
Definition truthy (o : option string) : bool :=
  match o with
  | Some (String _ _) => true
  | _ => false
  end.

End JsString.

(* ------------------------------------------------------------------ *)
(** ** Data model *)

(** A recorded chunk ([e.data], a Blob); its [size] is its length. *)
Definition chunk := string.

Definition chunk_size (c : chunk) : nat := String.length c.

(** The two closures handed to [requestAnimationFrame] by recordAnimation. *)
Inductive raf_cb : Type :=
| FrameCallback   (* frameCallback *)
| StopCallback.   (* () => { this.stopRecording(); recordingFinished = true; } *)

(** Identity of a promise created by recordAnimation. *)
Definition promise := nat.

(** What the class does to its collaborators. *)
Inductive effect : Type :=
| ConsoleWarn (msg : string)
| ConsoleLog (msg : string)
| CaptureStream (fps : nat)
| NewMediaRecorder (mimeType : string)
| AddKeydownListener
| MediaRecorderStart
| MediaRecorderStop
| PopupAppend (message : string) (recordingStyle : bool)
| PopupRemove
| SetTimeoutHide (ms : nat)
| Download (filename : string) (parts : list chunk) (blobType : string)
| ResolvePromise (p : promise)
| ReturnResolved                  (* return Promise.resolve() *)
| AwaitAvatar (url : string)      (* await gvrm.promise; await gvrm.changeFBX(url, true) *)
| RejectTypeError                 (* recordAnimation throws: its promise rejects *)
| Invoke (method : string)        (* a call made from the frame loop *)
| RequestAnimationFrame (run : nat) (cb : raf_cb).

(** The capability probe: [window.MediaRecorder] and
    [MediaRecorder.isTypeSupported]. *)
Record Browser : Type := mkBrowser {
  hasMediaRecorder : bool;
  isTypeSupported : string -> bool
}.

(** The avatar / animation identity provider, as far as the class reads it. *)
Record Character : Type := mkCharacter {
  animationUrl : option string
}.

Record GVRM : Type := mkGVRM {
  fileName : option string;
  character : option Character
}.

(** The popup element ([this.popup]); it is attached to the document for as
    long as the property holds it. *)
Record PopupElt : Type := mkPopup {
  textContent : string;
  recordingStyle : bool
}.

(** Reference to an array in the store. *)
Definition loc := nat.

Record Recorder : Type := mkRecorder {
  isSupported : bool;
  isRecording : bool;
  popup : option PopupElt;
  options : option string;               (* options.mimeType *)
  closureChunks : loc;                   (* the constructor's [let recordedChunks] *)
  thisChunks : loc;                      (* this.recordedChunks *)
  arrays : list (list chunk);            (* the store of arrays *)
  currentRecordingResolve : option promise;
  gvrm : option GVRM
}.

(** Store operations. *)
Definition readArray (st : list (list chunk)) (l : loc) : list chunk :=
  nth l st [].

Fixpoint writeArray (st : list (list chunk)) (l : loc) (a : list chunk)
  : list (list chunk) :=
  match st, l with
  | [], _ => []
  | _ :: rest, O => a :: rest
  | x :: rest, S l' => x :: writeArray rest l' a
  end.

(** [[]]: a fresh empty array; returns its reference and the new store. *)
Definition newArray (st : list (list chunk)) : loc * list (list chunk) :=
  (List.length st, st ++ [[]]).

(* ------------------------------------------------------------------ *)
(** ** The constructor: capability check and codec negotiation *)

Definition mime_webm : string := "video/webm".
Definition mime_mp4 : string := "video/mp4".
Definition mime_webm_h264 : string := "video/webm;codecs=h264".

(** The object left by the early [return]: only [isSupported] is set. *)
Definition unsupportedRecorder : Recorder :=
  {| isSupported := false; isRecording := false; popup := None;
     options := None; closureChunks := 0; thisChunks := 0; arrays := [];
     currentRecordingResolve := None; gvrm := None |}.

(** The if / else-if chain choosing [options.mimeType]. *)
Definition negotiate (env : Browser) : option string :=
  if isTypeSupported env mime_mp4 then Some mime_mp4
  else if isTypeSupported env mime_webm_h264 then Some mime_webm_h264
  else if isTypeSupported env mime_webm then Some mime_webm
  else None.

Definition constructor (env : Browser) : Recorder * list effect :=
  if negb (hasMediaRecorder env) || negb (isTypeSupported env mime_webm) then
    (unsupportedRecorder,
     [ConsoleWarn "MediaRecorder or video/webm is not supported on this browser."])
  else
    match negotiate env with
    | None =>
        (unsupportedRecorder,
         [CaptureStream 60; ConsoleWarn "No suitable codec found"])
    | Some m =>
        let (l, st) := newArray [] in
        ({| isSupported := true; isRecording := false; popup := None;
            options := Some m; closureChunks := l; thisChunks := l;
            arrays := st; currentRecordingResolve := None; gvrm := None |},
         [CaptureStream 60; ConsoleLog ("Using codec: " ++ m);
          NewMediaRecorder m; AddKeydownListener])
    end.

(** The two preference orders compared by the codec claim. *)

(** The order of the if-chain in the constructor. *)
Definition code_preference : list string :=
  [mime_mp4; mime_webm_h264; mime_webm].

(** The order as the specification words it: format A with codec variant 1,
    then format A plain, then format B plain.  Format A is the baseline
    container (the only one probed with a codec variant), format B the
    MP4-family container. *)
Definition spec_preference : list string :=
  [mime_webm_h264; mime_webm; mime_mp4].

Definition first_supported (env : Browser) (order : list string)
  : option string :=
  find (isTypeSupported env) order.

Definition allSupported : Browser :=
  {| hasMediaRecorder := true; isTypeSupported := fun _ => true |}.

(** A browser that encodes the MP4-family container but not the baseline
    one. *)
Definition mp4Only : Browser :=
  {| hasMediaRecorder := true;
     isTypeSupported := fun m => String.eqb m mime_mp4 |}.

(** A browser that only encodes the plain baseline container. *)
Definition webmOnly : Browser :=
  {| hasMediaRecorder := true;
     isTypeSupported := fun m => String.eqb m mime_webm |}.

(* ------------------------------------------------------------------ *)
(** ** Methods

    A method is a function from the object to the updated object and the
    effects it issued, in order. *)

Definition method : Type := Recorder -> Recorder * list effect.

Definition skip : method := fun r => (r, []).

Definition emit (e : effect) : method := fun r => (r, [e]).

Definition assign (f : Recorder -> Recorder) : method := fun r => (f r, []).

Definition andThen (a b : method) : method :=
  fun r =>
    let p := a r in
    let q := b (fst p) in
    (fst q, snd p ++ snd q).

Notation "a ;; b" := (andThen a b) (at level 61, right associativity).

(** Field assignments. *)
Definition set_isRecording (b : bool) (r : Recorder) : Recorder :=
  {| isSupported := isSupported r; isRecording := b; popup := popup r;
     options := options r; closureChunks := closureChunks r;
     thisChunks := thisChunks r; arrays := arrays r;
     currentRecordingResolve := currentRecordingResolve r; gvrm := gvrm r |}.

Definition set_popup (p : option PopupElt) (r : Recorder) : Recorder :=
  {| isSupported := isSupported r; isRecording := isRecording r; popup := p;
     options := options r; closureChunks := closureChunks r;
     thisChunks := thisChunks r; arrays := arrays r;
     currentRecordingResolve := currentRecordingResolve r; gvrm := gvrm r |}.

Definition set_currentRecordingResolve (p : option promise) (r : Recorder)
  : Recorder :=
  {| isSupported := isSupported r; isRecording := isRecording r;
     popup := popup r; options := options r;
     closureChunks := closureChunks r; thisChunks := thisChunks r;
     arrays := arrays r; currentRecordingResolve := p; gvrm := gvrm r |}.

Definition set_gvrm (g : option GVRM) (r : Recorder) : Recorder :=
  {| isSupported := isSupported r; isRecording := isRecording r;
     popup := popup r; options := options r;
     closureChunks := closureChunks r; thisChunks := thisChunks r;
     arrays := arrays r;
     currentRecordingResolve := currentRecordingResolve r; gvrm := g |}.

(** [this.recordedChunks = []]: the property is bound to a fresh array. *)
Definition reset_thisChunks (r : Recorder) : Recorder :=
  let (l, st) := newArray (arrays r) in
  {| isSupported := isSupported r; isRecording := isRecording r;
     popup := popup r; options := options r;
     closureChunks := closureChunks r; thisChunks := l; arrays := st;
     currentRecordingResolve := currentRecordingResolve r; gvrm := gvrm r |}.

(** [recordedChunks = []] inside the handlers: the constructor's local
    variable is bound to a fresh array. *)
Definition reset_closureChunks (r : Recorder) : Recorder :=
  let (l, st) := newArray (arrays r) in
  {| isSupported := isSupported r; isRecording := isRecording r;
     popup := popup r; options := options r; closureChunks := l;
     thisChunks := thisChunks r; arrays := st;
     currentRecordingResolve := currentRecordingResolve r; gvrm := gvrm r |}.

(** [recordedChunks.push(e.data)] inside [ondataavailable]. *)
Definition push_closureChunks (c : chunk) (r : Recorder) : Recorder :=
  {| isSupported := isSupported r; isRecording := isRecording r;
     popup := popup r; options := options r;
     closureChunks := closureChunks r; thisChunks := thisChunks r;
     arrays := writeArray (arrays r) (closureChunks r)
                 (readArray (arrays r) (closureChunks r) ++ [c]);
     currentRecordingResolve := currentRecordingResolve r; gvrm := gvrm r |}.

Definition hidePopup : method :=
  fun r =>
    match popup r with
    | Some _ => (emit PopupRemove ;; assign (set_popup None)) r
    | None => skip r
    end.

Definition showPopup (message : string) (isRec : bool) : method :=
  hidePopup ;;
  assign (set_popup (Some {| textContent := message; recordingStyle := isRec |})) ;;
  emit (PopupAppend message isRec) ;;
  (if negb isRec then emit (SetTimeoutHide 2000) else skip).

Definition recordingMessage : string := "● Recording...".

Definition startRecording : method :=
  fun r =>
    if negb (isSupported r) || isRecording r then skip r
    else (emit (ConsoleLog "start recording") ;;
          assign reset_thisChunks ;;
          emit MediaRecorderStart ;;
          assign (set_isRecording true) ;;
          showPopup recordingMessage true) r.

Definition stopRecording : method :=
  fun r =>
    if negb (isSupported r) || negb (isRecording r) then skip r
    else (emit (ConsoleLog "stop recording") ;;
          emit MediaRecorderStop ;;
          assign (set_isRecording false) ;;
          hidePopup ;;
          showPopup "Recording stopped" false) r.

Definition toggleRecording : method :=
  fun r =>
    if negb (isSupported r) then skip r
    else if isRecording r then stopRecording r
    else startRecording r.

Definition setGVRM (g : option GVRM) : method := assign (set_gvrm g).

(** The keydown listener registered by [setupKeyboardListener]. *)
Definition isKeyR (key : string) : bool :=
  String.eqb key "r" || String.eqb key "R".

Definition onKeydown (key : string) (ctrl alt meta : bool) : method :=
  fun r =>
    if isKeyR key && negb ctrl && negb alt && negb meta then toggleRecording r
    else skip r.

(** [mediaRecorder.ondataavailable] *)
Definition ondataavailable (c : chunk) : method :=
  fun r =>
    if Nat.ltb 0 (chunk_size c) then assign (push_closureChunks c) r
    else skip r.

(* ------------------------------------------------------------------ *)
(** ** The finalization callback [mediaRecorder.onstop] *)

(** [options.mimeType && options.mimeType.includes("mp4") ? "mp4" : "webm"] *)
Definition fileExt (mimeType : option string) : string :=
  match mimeType with
  | Some (String _ _ as m) => if JsString.includes "mp4" m then "mp4" else "webm"
  | _ => "webm"
  end.

(** [options.mimeType || "video/webm"] *)
Definition blobType (mimeType : option string) : string :=
  match mimeType with
  | Some (String _ _ as m) => m
  | _ => "video/webm"
  end.

(** A value spliced into a template literal. *)
Definition spliced (o : option string) : string :=
  match o with
  | Some s => s
  | None => "undefined"
  end.

(** [path.split('/').pop().split('.').shift()] *)
Definition stripPath (path : string) : option string :=
  match JsString.pop (JsString.split "/" path) with
  | Some last => JsString.shift (JsString.split "." last)
  | None => None
  end.

(** The block under [// Generate filename]. *)
Definition generateFilename (g : option GVRM) : string :=
  match g with
  | Some av =>
      match fileName av with
      | Some (String _ _ as path) =>
          let gvrmFileName := spliced (stripPath path) in
          match character av with
          | Some ch =>
              match animationUrl ch with
              | Some (String _ _ as url) =>
                  let animFileName := spliced (stripPath url) in
                  "recording_" ++ gvrmFileName ++ "_" ++ animFileName
              | _ => "recording_" ++ gvrmFileName
              end
          | None => "recording_" ++ gvrmFileName
          end
      | _ => "recording"
      end
  | None => "recording"
  end.

(** The resolve step at the end of [onstop]. *)
Definition resolvePending : method :=
  fun r =>
    match currentRecordingResolve r with
    | Some p => (emit (ResolvePromise p) ;;
                 assign (set_currentRecordingResolve None)) r
    | None => skip r
    end.

Definition onstop : method :=
  fun r =>
    (emit (Download (generateFilename (gvrm r) ++ "." ++ fileExt (options r))
                    (readArray (arrays r) (closureChunks r))
                    (blobType (options r))) ;;
     assign reset_closureChunks ;;
     resolvePending) r.

(* ------------------------------------------------------------------ *)
(** ** recordAnimation: the per-frame state machine *)

(** The local variables of one run, captured by its two callbacks. *)
Record RunVars : Type := mkRun {
  animationDuration : Q;
  recording1Started : bool;
  recording2Started : bool;
  recordingFinished : bool;
  frameCount2 : nat
}.

Definition newRun (D : Q) : RunVars :=
  {| animationDuration := D; recording1Started := false;
     recording2Started := false; recordingFinished := false;
     frameCount2 := 0 |}.

Definition set_recording1Started (b : bool) (v : RunVars) : RunVars :=
  {| animationDuration := animationDuration v; recording1Started := b;
     recording2Started := recording2Started v;
     recordingFinished := recordingFinished v;
     frameCount2 := frameCount2 v |}.

Definition set_recording2Started (b : bool) (v : RunVars) : RunVars :=
  {| animationDuration := animationDuration v;
     recording1Started := recording1Started v; recording2Started := b;
     recordingFinished := recordingFinished v;
     frameCount2 := frameCount2 v |}.

Definition set_recordingFinished (b : bool) (v : RunVars) : RunVars :=
  {| animationDuration := animationDuration v;
     recording1Started := recording1Started v;
     recording2Started := recording2Started v; recordingFinished := b;
     frameCount2 := frameCount2 v |}.

Definition incr_frameCount2 (v : RunVars) : RunVars :=
  {| animationDuration := animationDuration v;
     recording1Started := recording1Started v;
     recording2Started := recording2Started v;
     recordingFinished := recordingFinished v;
     frameCount2 := S (frameCount2 v) |}.

(** [this.gvrm.character.action.time + 1.0/60 >= animationDuration].  The
    clock and the duration are the rationals the source's doubles denote and
    the sum is exact, so within one rounding of the sum the test can differ
    from the source's; the frame loop depends on it through its truth value
    on each frame only. *)
Definition lookAhead (t D : Q) : bool := Qle_bool D (t + (1 # 60))%Q.

Definition settleThreshold : nat := 5.

(** The body of [frameCallback] before its last [if]; [t] is the animation
    time read on this frame. *)
Definition frameBody (run : nat) (t : Q) (r : Recorder) (v : RunVars)
  : Recorder * RunVars * list effect :=
  if negb (recording1Started v) then
    if lookAhead t (animationDuration v) then
      let p := startRecording r in
      (fst p, set_recording1Started true v, Invoke "startRecording" :: snd p)
    else (r, v, [])
  else if recording1Started v && negb (recording2Started v) then
    (r, set_recording2Started true v, [])
  else if recording2Started v then
    let v' := incr_frameCount2 v in
    if lookAhead t (animationDuration v) && Nat.ltb settleThreshold (frameCount2 v')
    then (r, v', [RequestAnimationFrame run StopCallback])
    else (r, v', [])
  else (r, v, []).

Definition frameCallback (run : nat) (t : Q) (r : Recorder) (v : RunVars)
  : Recorder * RunVars * list effect :=
  let '(r1, v1, e1) := frameBody run t r v in
  if negb (recordingFinished v1)
  then (r1, v1, e1 ++ [RequestAnimationFrame run FrameCallback])
  else (r1, v1, e1).

(** The closure scheduled by the stop branch. *)
Definition stopCallback (r : Recorder) (v : RunVars)
  : Recorder * RunVars * list effect :=
  let p := stopRecording r in
  (fst p, set_recordingFinished true v, Invoke "stopRecording" :: snd p).

(* ------------------------------------------------------------------ *)
(** ** The host: event loop, frame scheduler, timers *)

Record World : Type := mkWorld {
  rec : Recorder;
  runs : list RunVars;               (* the closures of the runs started so far *)
  rafQueue : list (nat * raf_cb);    (* callbacks registered for the next frame *)
  awaiting : list string;            (* recordAnimation calls suspended at an await *)
  timers : nat;                      (* pending hide timers *)
  nextPromise : promise
}.

Inductive event : Type :=
| Call_toggleRecording
| Call_startRecording
| Call_stopRecording
| Call_setGVRM (g : option GVRM)
| Call_recordAnimation (url : string)
| Keydown (key : string) (ctrl alt meta : bool)
| AvatarChanged (g : GVRM)      (* the owner of the attached avatar mutates it *)
| AvatarReady (D : Q)           (* the awaited futures settle; D is the clip duration *)
| DataAvailable (c : chunk)     (* the capture facility delivers a chunk *)
| Stopped                       (* the capture facility fires onstop *)
| TimerFired                    (* a hide timer elapses *)
| AnimationFrame (t : Q).       (* the host renders a frame; t is action.time *)

Fixpoint updateRun (l : list RunVars) (i : nat) (v : RunVars) : list RunVars :=
  match l, i with
  | [], _ => []
  | _ :: rest, O => v :: rest
  | x :: rest, S i' => x :: updateRun rest i' v
  end.

(** Run the callbacks registered for this frame, in registration order. *)
Fixpoint runCallbacks (t : Q) (q : list (nat * raf_cb)) (r : Recorder)
  (vs : list RunVars) : Recorder * list RunVars * list effect :=
  match q with
  | [] => (r, vs, [])
  | (i, cb) :: rest =>
      match nth_error vs i with
      | None => runCallbacks t rest r vs
      | Some v =>
          let '(r1, v1, e1) :=
            match cb with
            | FrameCallback => frameCallback i t r v
            | StopCallback => stopCallback r v
            end in
          let '(r2, vs2, e2) := runCallbacks t rest r1 (updateRun vs i v1) in
          (r2, vs2, e1 ++ e2)
      end
  end.

Definition rafRequests (effs : list effect) : list (nat * raf_cb) :=
  flat_map (fun e => match e with
                     | RequestAnimationFrame i cb => [(i, cb)]
                     | _ => []
                     end) effs.

Definition timerRequests (effs : list effect) : nat :=
  List.length (filter (fun e => match e with
                                | SetTimeoutHide _ => true
                                | _ => false
                                end) effs).

(** A method call or handler of the controller, seen from the host. *)
Definition perform (m : method) (w : World) : World * list effect :=
  let p := m (rec w) in
  ({| rec := fst p; runs := runs w;
      rafQueue := rafQueue w ++ rafRequests (snd p);
      awaiting := awaiting w; timers := timers w + timerRequests (snd p);
      nextPromise := nextPromise w |}, snd p).

Definition attached (g : option GVRM) : bool :=
  match g with
  | Some _ => true
  | None => false
  end.

(** [recordAnimation] up to its first [await]. *)
Definition recordAnimation (url : string) (w : World) : World * list effect :=
  if negb (isSupported (rec w)) || negb (attached (gvrm (rec w))) then
    (w, [ReturnResolved])
  else
    ({| rec := rec w; runs := runs w; rafQueue := rafQueue w;
        awaiting := awaiting w ++ [url]; timers := timers w;
        nextPromise := nextPromise w |}, [AwaitAvatar url]).

(** Whether [this.gvrm.character.action._clip.duration] can be read once
    the awaits have settled: the avatar is still attached and has a
    character (its action and clip are those the settled changeFBX
    installed).  Otherwise the property access throws a TypeError. *)
Definition durationReadable (g : option GVRM) : bool :=
  match g with
  | Some av => match character av with
               | Some _ => true
               | None => false
               end
  | None => false
  end.

(** [recordAnimation] after its awaits: the duration is read, the pose is
    updated, the promise is created and the frame loop is started.  When
    the duration cannot be read the call throws before the promise is
    created: the slot and the frame scheduler are left as they are. *)
Definition recordAnimation_resume (D : Q) (w : World) : World * list effect :=
  match awaiting w with
  | [] => (w, [])
  | _ :: rest =>
      if durationReadable (gvrm (rec w)) then
        let p := nextPromise w in
        let i := List.length (runs w) in
        ({| rec := set_currentRecordingResolve (Some p) (rec w);
            runs := runs w ++ [newRun D];
            rafQueue := rafQueue w ++ [(i, FrameCallback)];
            awaiting := rest; timers := timers w; nextPromise := S p |},
         [Invoke "character.update"; Invoke "updateByBones";
          RequestAnimationFrame i FrameCallback])
      else
        ({| rec := rec w; runs := runs w; rafQueue := rafQueue w;
            awaiting := rest; timers := timers w;
            nextPromise := nextPromise w |}, [RejectTypeError])
  end.

Definition animationFrame (t : Q) (w : World) : World * list effect :=
  let '(r1, vs1, e1) := runCallbacks t (rafQueue w) (rec w) (runs w) in
  ({| rec := r1; runs := vs1; rafQueue := rafRequests e1;
      awaiting := awaiting w; timers := timers w + timerRequests e1;
      nextPromise := nextPromise w |}, e1).

Definition timerFired (w : World) : World * list effect :=
  match timers w with
  | O => (w, [])
  | S n =>
      perform hidePopup
        {| rec := rec w; runs := runs w; rafQueue := rafQueue w;
           awaiting := awaiting w; timers := n; nextPromise := nextPromise w |}
  end.

(** The handlers exist only on a supported controller: the constructor
    returns before creating the MediaRecorder and the key listener
    otherwise. *)
Definition whenSupported (m : method) : method :=
  fun r => if isSupported r then m r else skip r.

Definition avatarChanged (g : GVRM) : method :=
  fun r =>
    match gvrm r with
    | Some _ => assign (set_gvrm (Some g)) r
    | None => skip r
    end.

Definition step (ev : event) (w : World) : World * list effect :=
  match ev with
  | Call_toggleRecording => perform toggleRecording w
  | Call_startRecording => perform startRecording w
  | Call_stopRecording => perform stopRecording w
  | Call_setGVRM g => perform (setGVRM g) w
  | Call_recordAnimation url => recordAnimation url w
  | Keydown key ctrl alt meta =>
      perform (whenSupported (onKeydown key ctrl alt meta)) w
  | AvatarChanged g => perform (avatarChanged g) w
  | AvatarReady D => recordAnimation_resume D w
  | DataAvailable c => perform (whenSupported (ondataavailable c)) w
  | Stopped => perform (whenSupported onstop) w
  | TimerFired => timerFired w
  | AnimationFrame t => animationFrame t w
  end.

(** The trace of an event sequence: each event with the effects it caused. *)
Fixpoint run (evs : list event) (w : World)
  : World * list (event * list effect) :=
  match evs with
  | [] => (w, [])
  | ev :: rest =>
      let p := step ev w in
      let q := run rest (fst p) in
      (fst q, (ev, snd p) :: snd q)
  end.

Definition boot (env : Browser) : World :=
  {| rec := fst (constructor env); runs := []; rafQueue := [];
     awaiting := []; timers := 0; nextPromise := 0 |}.

(** The frames of one run in isolation: the world before frame [n] and the
    effects of frame [n], when the animation time read on frame [k] is
    [times k]. *)
Fixpoint worldBefore (times : nat -> Q) (w0 : World) (n : nat) : World :=
  match n with
  | O => w0
  | S k => fst (animationFrame (times k) (worldBefore times w0 k))
  end.

Definition effectsAt (times : nat -> Q) (w0 : World) (n : nat) : list effect :=
  snd (animationFrame (times n) (worldBefore times w0 n)).

(* ------------------------------------------------------------------ *)
(** ** Statements and data used by the properties below *)

(** The codec claim with the order as the specification words it. *)
Definition negotiates_in_spec_order (env : Browser) : Prop :=
  isSupported (fst (constructor env)) = true /\
  options (fst (constructor env)) = first_supported env spec_preference.

(** A sequence of startRecording / stopRecording calls. *)
Inductive call : Type :=
| Start
| Stop.

Definition doCall (c : call) : method :=
  match c with
  | Start => startRecording
  | Stop => stopRecording
  end.

Fixpoint after (calls : list call) (r : Recorder) : Recorder :=
  match calls with
  | [] => r
  | c :: rest => after rest (fst (doCall c r))
  end.

(** The avatar of the filename examples. *)
Definition sampleAvatar (anim : option Character) : GVRM :=
  {| fileName := Some "a/sample1.gvrm"; character := anim |}.

Definition idleAnimation : Character :=
  {| animationUrl := Some "a/Idle.fbx" |}.

Definition noAnimation : Character :=
  {| animationUrl := None |}.

(** The look-ahead test holds on frame [s] and on no earlier frame. *)
Definition firstLookAhead (times : nat -> Q) (D : Q) (s : nat) : Prop :=
  lookAhead (times s) D = true /\
  forall m, m < s -> lookAhead (times m) D = false.

(** After frame [s] the animation loops (the test fails) and frame [r] is
    the first on which the test holds again. *)
Definition boundaryAgain (times : nat -> Q) (D : Q) (s r : nat) : Prop :=
  S s < r /\ lookAhead (times r) D = true /\
  forall k, s < k < r -> lookAhead (times k) D = false.

(** The animation clock advances by 1/60 per frame, wrapping at the clip
    duration. *)
Definition frameDelta60 (times : nat -> Q) (D : Q) : Prop :=
  forall n,
    (times (S n) == times n + (1 # 60))%Q \/
    (times (S n) == times n + (1 # 60) - D)%Q.

Definition stopScheduledAt (times : nat -> Q) (w0 : World) (q : nat) : Prop :=
  In (RequestAnimationFrame 0 StopCallback) (effectsAt times w0 q).

(** A world in which one run has just been set up and nothing else is
    pending on the frame scheduler. *)
Definition runStarted (D : Q) (w0 : World) : Prop :=
  runs w0 = [newRun D] /\ rafQueue w0 = [(0, FrameCallback)].

(** The stop margin as the specification words it: counted from the frame on
    which the look-ahead test holds again after the loop reset. *)
Definition stop_margin_from_second_boundary
  (times : nat -> Q) (D : Q) (w0 : World) : Prop :=
  forall s r q,
    firstLookAhead times D s -> boundaryAgain times D s r ->
    stopScheduledAt times w0 q ->
    r + (settleThreshold + 2) <= q.

(** A fifteen-frame clip sampled at 1/60: the clock reads 0.24 on frames
    0, 15, 30, ... and wraps in between. *)
Definition loopDuration : Q := (1 # 4)%Q.

Definition loopTimes (n : nat) : Q :=
  ((1 # 150) + inject_Z (Z.of_nat ((n + 14) mod 15)) * (1 # 60))%Q.

Definition loopWorld : World :=
  fst (run [Call_setGVRM (Some (sampleAvatar (Some idleAnimation)));
            Call_recordAnimation "a/Idle.fbx";
            AvatarReady loopDuration]
           (boot allSupported)).

(** A complete recording session on that clip, up to the finalization. *)
Definition loopSession : list event :=
  [Call_setGVRM (Some (sampleAvatar (Some idleAnimation)));
   Call_recordAnimation "a/Idle.fbx";
   AvatarReady loopDuration] ++
  map (fun n => AnimationFrame (loopTimes n)) (seq 0 17) ++
  [DataAvailable "frames"; Stopped].

(** The MediaRecorder is started without a timeslice and requestData is
    never called, so it delivers its data only when it stops: each
    dataavailable event is followed at once by the stop event. *)
Fixpoint deliveredOnStop (evs : list event) : bool :=
  match evs with
  | [] => true
  | DataAvailable _ :: rest =>
      match rest with
      | Stopped :: _ => deliveredOnStop rest
      | _ => false
      end
  | _ :: rest => deliveredOnStop rest
  end.

(** The non-empty chunks delivered by a sequence of events, in order. *)
Definition deliveredChunks (evs : list event) : list chunk :=
  flat_map (fun ev => match ev with
                      | DataAvailable c =>
                          if Nat.ltb 0 (chunk_size c) then [c] else []
                      | _ => []
                      end) evs.

(** No finalization among the events. *)
Definition noFinalization (evs : list event) : bool :=
  forallb (fun ev => match ev with
                     | Stopped => false
                     | _ => true
                     end) evs.

(** The R key is pressed three times (start, stop, start again), then the
    hide timer of the notification shown by the stop elapses. *)
Definition staleTimerSession : list event :=
  [Keydown "r" false false false; Keydown "r" false false false;
   Keydown "r" false false false; TimerFired].

(** An effect other than those of the finalization: neither the download of
    an artifact nor the resolution of a promise. *)
Definition quiet (e : effect) : Prop :=
  match e with
  | Download _ _ _ => False
  | ResolvePromise _ => False
  | _ => True
  end.

(** A world in which nothing is pending and the controller is unsupported. *)
Definition inert (w : World) : Prop :=
  isSupported (rec w) = false /\ popup (rec w) = None /\
  rafQueue w = [] /\ awaiting w = [] /\ timers w = 0.

(** An effect of the controller's own methods: neither a call marker of the
    frame loop nor a frame request. *)
Definition plain (e : effect) : Prop :=
  match e with
  | Invoke _ => False
  | RequestAnimationFrame _ _ => False
  | _ => True
  end.

(** The values taken by the variables of a run. *)
Definition armedRun (D : Q) : RunVars :=
  {| animationDuration := D; recording1Started := true;
     recording2Started := false; recordingFinished := false;
     frameCount2 := 0 |}.

Definition countingRun (D : Q) (k : nat) : RunVars :=
  {| animationDuration := D; recording1Started := true;
     recording2Started := true; recordingFinished := false;
     frameCount2 := k |}.

Definition doneRun (D : Q) (k : nat) : RunVars :=
  {| animationDuration := D; recording1Started := true;
     recording2Started := true; recordingFinished := true;
     frameCount2 := k |}.

(** The phases of a run whose look-ahead test first holds on frame [s], as
    seen in the world before frame [n]. *)
Inductive phaseAt (D : Q) (r0 : Recorder) (s n : nat) (w : World) : Prop :=
| AwaitingLoopStart :
    n <= s -> rec w = r0 -> runs w = [newRun D] ->
    rafQueue w = [(0, FrameCallback)] -> phaseAt D r0 s n w
| ArmedAfterStart :
    n = S s -> runs w = [armedRun D] ->
    rafQueue w = [(0, FrameCallback)] -> phaseAt D r0 s n w
| CountingSettleFrames (k : nat) :
    n = s + 2 + k -> runs w = [countingRun D k] ->
    rafQueue w = [(0, FrameCallback)] -> phaseAt D r0 s n w
| StopScheduled (k : nat) :
    n = s + 2 + k -> settleThreshold < k -> runs w = [countingRun D k] ->
    rafQueue w = [(0, StopCallback); (0, FrameCallback)] ->
    phaseAt D r0 s n w
| Done (k : nat) :
    s + 2 < n -> runs w = [doneRun D k] ->
    rafQueue w = [(0, StopCallback)] \/ rafQueue w = [] ->
    phaseAt D r0 s n w.

(* ------------------------------------------------------------------ *)
(** ** Invariants and monitors of the controller *)

(** A property of the controller that the user-facing methods and the
    plain field assignments keep. *)
Definition keptByControls (P : Recorder -> Prop) : Prop :=
  (forall r, P r -> P (fst (startRecording r))) /\
  (forall r, P r -> P (fst (stopRecording r))) /\
  (forall r, P r -> P (fst (hidePopup r))) /\
  (forall g r, P r -> P (set_gvrm g r)).

(** ... and that the two MediaRecorder handlers and the set-up of a run keep
    as well. *)
Definition keptByHandlers (P : Recorder -> Prop) : Prop :=
  (forall c r, P r -> P (push_closureChunks c r)) /\
  (forall r, P r -> P (fst (onstop r))) /\
  (forall p r, P r -> P (set_currentRecordingResolve (Some p) r)).

(** All effects of a trace, in order. *)
Definition allEffects (tr : list (event * list effect)) : list effect :=
  flat_map snd tr.

(** A monitor reads the effects one by one; [None] is a violation. *)
Fixpoint monitor {S : Type} (delta : S -> effect -> option S) (s : S)
  (effs : list effect) : option S :=
  match effs with
  | [] => Some s
  | e :: rest =>
      match delta s e with
      | Some s' => monitor delta s' rest
      | None => None
      end
  end.

(** The state of the MediaRecorder as its commands drive it: [start()] on a
    recording recorder and [stop()] on an inactive one throw
    InvalidStateError. *)
Definition captureMonitor (recording : bool) (e : effect) : option bool :=
  match e with
  | MediaRecorderStart => if recording then None else Some true
  | MediaRecorderStop => if recording then Some false else None
  | _ => Some recording
  end.

(** The popup element in the document: appending a second one, or removing
    one that is not there, is a violation. *)
Definition popupMonitor (shown : bool) (e : effect) : option bool :=
  match e with
  | PopupAppend _ _ => if shown then None else Some true
  | PopupRemove => if shown then Some false else None
  | _ => Some shown
  end.

Definition popupShown (r : Recorder) : bool :=
  match popup r with
  | Some _ => true
  | None => false
  end.

(** A method whose effects drive the monitor from the abstraction of the
    object before to the abstraction of the object after. *)
Definition tracks {S : Type} (delta : S -> effect -> option S)
  (alpha : Recorder -> S) (m : method) : Prop :=
  forall r, monitor delta (alpha r) (snd (m r)) = Some (alpha (fst (m r))).

(** The handlers' buffer and the property, read through the store. *)
Definition bufferedChunks (r : Recorder) : list chunk :=
  readArray (arrays r) (closureChunks r).

Definition propertyChunks (r : Recorder) : list chunk :=
  readArray (arrays r) (thisChunks r).

(** Both references point into the store. *)
Definition validStore (r : Recorder) : Prop :=
  closureChunks r < List.length (arrays r) /\
  thisChunks r < List.length (arrays r).

(** The parts of the artifacts downloaded along a trace, in order. *)
Definition downloads (tr : list (event * list effect)) : list (list chunk) :=
  flat_map (fun e => match e with
                     | Download _ parts _ => [parts]
                     | _ => []
                     end) (allEffects tr).

(** What the artifacts should hold, read off the events alone: the
    non-empty chunks delivered since the previous finalization. *)
Fixpoint assembled (buf : list chunk) (evs : list event) : list (list chunk) :=
  match evs with
  | [] => []
  | DataAvailable c :: rest =>
      assembled (if Nat.ltb 0 (chunk_size c) then buf ++ [c] else buf) rest
  | Stopped :: rest => buf :: assembled [] rest
  | _ :: rest => assembled buf rest
  end.

(** How often a promise is resolved along a trace. *)
Definition resolutions (p : promise) (tr : list (event * list effect)) : nat :=
  List.length (filter (fun e => match e with
                                | ResolvePromise p' => Nat.eqb p' p
                                | _ => false
                                end) (allEffects tr)).

(** How often a promise can still be resolved: once if it is in the slot or
    not yet created, never otherwise. *)
Definition pendingResolutions (p : promise) (w : World) : nat :=
  match currentRecordingResolve (rec w) with
  | Some p' => if Nat.eqb p' p then 1
               else if Nat.ltb p (nextPromise w) then 0 else 1
  | None => if Nat.ltb p (nextPromise w) then 0 else 1
  end.

(** The promise in the slot, if any, was created earlier. *)
Definition slotCreated (w : World) : Prop :=
  forall p, currentRecordingResolve (rec w) = Some p -> p < nextPromise w.

(* ------------------------------------------------------------------ *)
(** ** VirtualController: the touch joystick and buttons

    The state of the class, its touch handlers and its polling interface.
    Coordinates are numbers, represented by rationals; [Math.sqrt] is a
    parameter of the position update.  The visual styles of the action
    buttons are left out; the position of the knob is kept, as the number
    of pixels of its [left] and [top] styles. *)

Module VirtualController.

Record Joystick : Type := mkJoystick {
  x : Q;
  y : Q;
  magnitude : Q;
  active : bool
}.

Record Buttons : Type := mkButtons {
  cross : bool;
  circle : bool;
  triangle : bool;
  square : bool
}.

(** The names under which [_setupEventListeners] registers the buttons. *)
Inductive ButtonName : Type :=
| Cross
| Circle
| Triangle
| Square.

Record Touch : Type := mkTouch {
  identifier : Z;
  clientX : Q;
  clientY : Q
}.

(** [joystickArea.getBoundingClientRect()] *)
Record Rect : Type := mkRect {
  rectLeft : Q;
  rectTop : Q;
  rectWidth : Q;
  rectHeight : Q
}.

Record State : Type := mkState {
  enabled : bool;
  container : bool;                      (* this.container is not null *)
  mobileButtonDisplay : option string;   (* mobileButton.style.display, if set *)
  joystick : Joystick;
  buttons : Buttons;
  previousButtons : Buttons;
  joystickTouch : option Z;              (* null or a touch identifier *)
  joystickCenter : Q * Q;
  joystickRadius : Q;
  joystickKnob : option (Q * Q)          (* left and top of the knob, once created *)
}.

Definition released : Buttons :=
  {| cross := false; circle := false; triangle := false; square := false |}.

Definition neutral : Joystick :=
  {| x := 0; y := 0; magnitude := 0; active := false |}.

(** [new VirtualController()] *)
Definition constructor : State :=
  {| enabled := false; container := false; mobileButtonDisplay := None;
     joystick := neutral; buttons := released; previousButtons := released;
     joystickTouch := None; joystickCenter := (0, 0)%Q;
     joystickRadius := 100; joystickKnob := None |}.

Definition getButton (b : Buttons) (name : ButtonName) : bool :=
  match name with
  | Cross => cross b
  | Circle => circle b
  | Triangle => triangle b
  | Square => square b
  end.

Definition setButton (b : Buttons) (name : ButtonName) (val : bool) : Buttons :=
  match name with
  | Cross => {| cross := val; circle := circle b; triangle := triangle b;
                square := square b |}
  | Circle => {| cross := cross b; circle := val; triangle := triangle b;
                 square := square b |}
  | Triangle => {| cross := cross b; circle := circle b; triangle := val;
                   square := square b |}
  | Square => {| cross := cross b; circle := circle b; triangle := triangle b;
                 square := val |}
  end.

Definition with_joystick (j : Joystick) (v : State) : State :=
  {| enabled := enabled v; container := container v;
     mobileButtonDisplay := mobileButtonDisplay v; joystick := j;
     buttons := buttons v; previousButtons := previousButtons v;
     joystickTouch := joystickTouch v; joystickCenter := joystickCenter v;
     joystickRadius := joystickRadius v; joystickKnob := joystickKnob v |}.

Definition with_buttons (b : Buttons) (v : State) : State :=
  {| enabled := enabled v; container := container v;
     mobileButtonDisplay := mobileButtonDisplay v; joystick := joystick v;
     buttons := b; previousButtons := previousButtons v;
     joystickTouch := joystickTouch v; joystickCenter := joystickCenter v;
     joystickRadius := joystickRadius v; joystickKnob := joystickKnob v |}.

Definition with_knob (k : option (Q * Q)) (v : State) : State :=
  {| enabled := enabled v; container := container v;
     mobileButtonDisplay := mobileButtonDisplay v; joystick := joystick v;
     buttons := buttons v; previousButtons := previousButtons v;
     joystickTouch := joystickTouch v; joystickCenter := joystickCenter v;
     joystickRadius := joystickRadius v; joystickKnob := k |}.

(** [enable()]: [_createUI] builds a fresh container and a fresh knob at
    70px / 70px. *)
Definition enable (v : State) : State :=
  if enabled v then v
  else {| enabled := true; container := true;
          mobileButtonDisplay := Some "none"; joystick := joystick v;
          buttons := buttons v; previousButtons := previousButtons v;
          joystickTouch := joystickTouch v;
          joystickCenter := joystickCenter v;
          joystickRadius := joystickRadius v;
          joystickKnob := Some (70, 70)%Q |}.

(** [disable()]: [_removeUI] removes the container. *)
Definition disable (v : State) : State :=
  if negb (enabled v) then v
  else {| enabled := false; container := false;
          mobileButtonDisplay := Some "block"; joystick := joystick v;
          buttons := buttons v; previousButtons := previousButtons v;
          joystickTouch := joystickTouch v;
          joystickCenter := joystickCenter v;
          joystickRadius := joystickRadius v;
          joystickKnob := joystickKnob v |}.

(** [Math.max(-1, Math.min(1, n))] *)
Definition clamp (n : Q) : Q := Qmax (-1) (Qmin 1 n).

Section Position.

(** [Math.sqrt] *)
Variable sqrt : Q -> Q.

Definition updateJoystickPosition (touchX touchY : Q) (v : State) : State :=
  let dx := (touchX - fst (joystickCenter v))%Q in
  let dy := (touchY - snd (joystickCenter v))%Q in
  let distance := sqrt (dx * dx + dy * dy)%Q in
  let maxDistance := joystickRadius v in
  let far := negb (Qle_bool distance maxDistance) in
  let normX := if far then (dx / distance)%Q else (dx / maxDistance)%Q in
  let normY := if far then (dy / distance)%Q else (dy / maxDistance)%Q in
  let jx := clamp normX in
  let jy := clamp normY in
  with_knob (Some (70 + jx * 70, 70 + jy * 70)%Q)
    (with_joystick {| x := jx; y := jy;
                      magnitude := Qmin 1 (distance / maxDistance);
                      active := active (joystick v) |} v).

(** [_onJoystickStart]; an event without changed touches throws before
    anything is assigned. *)
Definition onJoystickStart (touches : list Touch) (rect : Rect) (v : State)
  : State :=
  match joystickTouch v with
  | Some _ => v
  | None =>
      match touches with
      | [] => v
      | touch :: _ =>
          let v1 :=
            {| enabled := enabled v; container := container v;
               mobileButtonDisplay := mobileButtonDisplay v;
               joystick := joystick v; buttons := buttons v;
               previousButtons := previousButtons v;
               joystickTouch := Some (identifier touch);
               joystickCenter := (rectLeft rect + rectWidth rect / 2,
                                  rectTop rect + rectHeight rect / 2)%Q;
               joystickRadius := joystickRadius v;
               joystickKnob := joystickKnob v |} in
          let v2 := updateJoystickPosition (clientX touch) (clientY touch) v1 in
          with_joystick {| x := x (joystick v2); y := y (joystick v2);
                           magnitude := magnitude (joystick v2);
                           active := true |} v2
      end
  end.

(** The loop of [_onJoystickMove] over the changed touches. *)
Fixpoint moveTracked (id : Z) (touches : list Touch) (v : State) : State :=
  match touches with
  | [] => v
  | touch :: rest =>
      if Z.eqb (identifier touch) id
      then updateJoystickPosition (clientX touch) (clientY touch) v
      else moveTracked id rest v
  end.

Definition onJoystickMove (touches : list Touch) (v : State) : State :=
  match joystickTouch v with
  | None => v
  | Some id => moveTracked id touches v
  end.

(** What [_onJoystickEnd] does when it finds the tracked touch. *)
Definition release (v : State) : State :=
  {| enabled := enabled v; container := container v;
     mobileButtonDisplay := mobileButtonDisplay v; joystick := neutral;
     buttons := buttons v; previousButtons := previousButtons v;
     joystickTouch := None; joystickCenter := joystickCenter v;
     joystickRadius := joystickRadius v;
     joystickKnob := Some (70, 70)%Q |}.

Fixpoint endTracked (id : Z) (touches : list Touch) (v : State) : State :=
  match touches with
  | [] => v
  | touch :: rest =>
      if Z.eqb (identifier touch) id then release v
      else endTracked id rest v
  end.

Definition onJoystickEnd (touches : list Touch) (v : State) : State :=
  match joystickTouch v with
  | None => v
  | Some id => endTracked id touches v
  end.

(** The touchstart and the touchend / touchcancel listeners of a button. *)
Definition onButtonStart (name : ButtonName) (v : State) : State :=
  with_buttons (setButton (buttons v) name true) v.

Definition onButtonEnd (name : ButtonName) (v : State) : State :=
  with_buttons (setButton (buttons v) name false) v.

Definition updatePreviousState (v : State) : State :=
  {| enabled := enabled v; container := container v;
     mobileButtonDisplay := mobileButtonDisplay v; joystick := joystick v;
     buttons := buttons v;
     previousButtons :=
       {| cross := cross (buttons v); circle := circle (buttons v);
          triangle := triangle (buttons v); square := square (buttons v) |};
     joystickTouch := joystickTouch v; joystickCenter := joystickCenter v;
     joystickRadius := joystickRadius v; joystickKnob := joystickKnob v |}.

Definition wasButtonJustPressed (name : ButtonName) (v : State) : bool :=
  getButton (buttons v) name && negb (getButton (previousButtons v) name).

(** The object returned by [getInput()]. *)
Record Input : Type := mkInput {
  inputX : Q;
  inputY : Q;
  inputMagnitude : Q;
  crossButton : bool;
  circleButton : bool;
  triangleButton : bool;
  squareButton : bool
}.

Definition getInput (v : State) : Input :=
  {| inputX := x (joystick v); inputY := y (joystick v);
     inputMagnitude := magnitude (joystick v);
     crossButton := cross (buttons v); circleButton := circle (buttons v);
     triangleButton := triangle (buttons v);
     squareButton := square (buttons v) |}.

Inductive event : Type :=
| Enable                                       (* click on the Mobile button *)
| Disable                                      (* click on the PC button *)
| JoystickStart (touches : list Touch) (rect : Rect)
| JoystickMove (touches : list Touch)
| JoystickEnd (touches : list Touch)           (* touchend or touchcancel *)
| ButtonStart (name : ButtonName)
| ButtonEnd (name : ButtonName)                (* touchend or touchcancel *)
| UpdatePreviousState.

(** The touch listeners exist once [_setupEventListeners] has run, that is
    once a knob exists. *)
Definition whenListening (h : State -> State) (v : State) : State :=
  match joystickKnob v with
  | Some _ => h v
  | None => v
  end.

Definition step (ev : event) (v : State) : State :=
  match ev with
  | Enable => enable v
  | Disable => disable v
  | JoystickStart touches rect => whenListening (onJoystickStart touches rect) v
  | JoystickMove touches => whenListening (onJoystickMove touches) v
  | JoystickEnd touches => whenListening (onJoystickEnd touches) v
  | ButtonStart name => whenListening (onButtonStart name) v
  | ButtonEnd name => whenListening (onButtonEnd name) v
  | UpdatePreviousState => updatePreviousState v
  end.

Fixpoint run (evs : list event) (v : State) : State :=
  match evs with
  | [] => v
  | ev :: rest => run rest (step ev v)
  end.

End Position.

Definition isUpdate (ev : event) : bool :=
  match ev with
  | UpdatePreviousState => true
  | _ => false
  end.

(** The ranges the joystick and its knob stay in. *)
Definition inRange (v : State) : Prop :=
  (-1 <= x (joystick v) <= 1)%Q /\
  (-1 <= y (joystick v) <= 1)%Q /\
  (magnitude (joystick v) <= 1)%Q /\
  match joystickKnob v with
  | Some (l, t) => (0 <= l <= 140)%Q /\ (0 <= t <= 140)%Q
  | None => True
  end.

(** No touch is tracked exactly when the joystick is inactive, and then it
    reads neutral and the knob, if any, is centred. *)
Definition restsWhenUntracked (v : State) : Prop :=
  (joystickTouch v = None <-> active (joystick v) = false) /\
  (joystickTouch v = None ->
   joystick v = neutral /\
   (joystickKnob v = None \/ joystickKnob v = Some (70, 70)%Q)).

(** A square root for examples: exact on the squares of integers. *)
Definition integerSqrt (q : Q) : Q := inject_Z (Z.sqrt (Qfloor q)).

(** An enabled controller whose joystick is held 30px right of and 40px
    below its centre by touch 7. *)
Definition deflected : State :=
  run integerSqrt
      [Enable; JoystickStart [mkTouch 7 210 200] (mkRect 60 40 240 240)]
      constructor.

End VirtualController.

Module VC := VirtualController.

(** What the joystick handlers leave alone. *)
Definition sameFrame (v v' : VC.State) : Prop :=
  VC.enabled v' = VC.enabled v /\ VC.container v' = VC.container v /\
  VC.mobileButtonDisplay v' = VC.mobileButtonDisplay v /\
  VC.buttons v' = VC.buttons v /\
  VC.previousButtons v' = VC.previousButtons v.


(* ------------------------------------------------------------------ *)
(** ** main.js and setupVR: start-up paths, switching avatars and animations

    The avatar object and its loader are external: the handlers see the
    avatar through [isReady] and [isLoading()], and what they ask of it
    ([remove], [load], [changeFBX]) is returned as effects.  An [await] ends
    a step; the rest of the handler is a continuation that a later [Settle]
    event resumes.  A number is an integer or NaN. *)

Module Viewer.

(** *** String and array methods *)

Fixpoint drop (n : nat) (s : string) : string :=
  match n, s with
  | O, _ => s
  | S _, EmptyString => EmptyString
  | S k, String _ rest => drop k rest
  end.

(** [s.replace(pat, rep)] for a string pattern: the first occurrence only.
    (The replacements used here contain no [$].) *)
Fixpoint replace (pat rep s : string) : string :=
  if String.prefix pat s then (rep ++ drop (String.length pat) s)%string
  else match s with
       | EmptyString => EmptyString
       | String c rest => String c (replace pat rep rest)
       end.

(** [s.endsWith(suffix)] *)
Definition endsWith (suffix s : string) : bool :=
  Nat.leb (String.length suffix) (String.length s) &&
  String.eqb (drop (String.length s - String.length suffix) s) suffix.

(** [path.split('/').pop()] *)
Definition basename (path : string) : string :=
  match JsString.pop (JsString.split "/" path) with
  | Some b => b
  | None => EmptyString
  end.

(** [arr.findIndex(p)] *)
Fixpoint findIndexFrom {A : Type} (p : A -> bool) (i : Z) (l : list A) : Z :=
  match l with
  | [] => (-1)%Z
  | a :: rest => if p a then i else findIndexFrom p (i + 1)%Z rest
  end.

Definition findIndex {A : Type} (p : A -> bool) (l : list A) : Z :=
  findIndexFrom p 0%Z l.

(** A JavaScript number that is an integer, or NaN. *)
Definition number : Type := option Z.

(** The double nearest to an integer, ties to the even significand.  Up to
    2^53 every integer is a double; from there on the doubles are the
    multiples of the unit in the last place of their binade. *)
Definition toDouble (z : Z) : Z :=
  let a := Z.abs z in
  if Z.ltb a (2 ^ 53) then z
  else
    let ulp := (2 ^ (Z.log2 a - 52))%Z in
    let q := (a / ulp)%Z in
    let r := (a mod ulp)%Z in
    let half := (ulp / 2)%Z in
    let m := if Z.ltb r half then q
             else if Z.ltb half r then (q + 1)%Z
             else if Z.even q then q else (q + 1)%Z in
    (Z.sgn z * (m * ulp))%Z.

(** [(index + 1) % files.length]: the sum is rounded to a double, the
    remainder is exact, has the sign of the dividend and is NaN for an
    empty array. *)
Definition nextIndex (index : number) (len : nat) : number :=
  match index with
  | Some i => if Nat.eqb len 0 then None
              else Some (Z.rem (toDouble (i + 1)) (Z.of_nat len))
  | None => None
  end.

(** [files[index]]: [undefined] outside the array. *)
Definition at_ (files : list string) (index : number) : option string :=
  match index with
  | Some i => if Z.leb 0 i then nth_error files (Z.to_nat i) else None
  | None => None
  end.

(** *** The constants of main.js *)

Definition gvrmFiles : list string :=
  ["./assets/sample1.gvrm"; "./assets/sample2.gvrm"; "./assets/sample3.gvrm";
   "./assets/sample4.gvrm"; "./assets/sample5.gvrm"; "./assets/sample6.gvrm";
   "./assets/sample7.gvrm"; "./assets/sample8.gvrm"; "./assets/sample9.gvrm"].

Definition fbxFiles : list string :=
  ["./assets/Idle.fbx"; "./assets/Around.fbx"; "./assets/Breathing.fbx";
   "./assets/Chicken Dance.fbx"; "./assets/Dizzy Idle.fbx";
   "./assets/Gangnam Style.fbx"; "./assets/Happy Idle.fbx";
   "./assets/Jab Cross.fbx"; "./assets/Listening.fbx";
   "./assets/Pointing.fbx"; "./assets/Shrugging.fbx";
   "./assets/Warrior.fbx"].

(** *** Start-up: file name and initial avatar index *)

Inductive Launch : Type :=
| LoadGVRM (path : string) (fileName : string)      (* GVRM.load(gvrmPath, ..., fileName) *)
| Preprocess (gsPath : string) (fileName : string)  (* preprocess(vrmPath, gsPath, ..., fileName, savePly) *)
| Nothing.

Record Startup : Type := mkStartup {
  fileName : option string;
  initialGvrmIndex : Z;
  launch : Launch
}.

(** The [if (gvrmPath) ... else if (gsPath) ...] block; [gsFileName] is set
    by the select dialog for an uploaded or sample .ply file. *)
Definition startup (gsPath gvrmPath gsFileName : option string) : Startup :=
  match gvrmPath with
  | Some (String _ _ as gvrmP) =>
      let gvrmIndex :=
        findIndex (fun file => JsString.includes (basename file) gvrmP)
                  gvrmFiles in
      {| fileName := Some gvrmP;
         initialGvrmIndex := if Z.eqb gvrmIndex (-1) then 0%Z else gvrmIndex;
         launch := LoadGVRM gvrmP gvrmP |}
  | _ =>
      match gsPath with
      | Some (String _ _ as gsP) =>
          let name :=
            match gsFileName with
            | Some (String _ _ as gsName) =>
                replace ".ply" ".gvrm" (basename gsName)
            | _ =>
                if endsWith ".ply" gsP
                then replace ".ply" ".gvrm" (basename gsP)
                else (basename gsP ++ ".gvrm")%string
            end in
          let gvrmFileName := replace ".ply" ".gvrm" (basename gsP) in
          let gvrmIndex :=
            findIndex (fun file => JsString.includes gvrmFileName file)
                      gvrmFiles in
          {| fileName := Some name;
             initialGvrmIndex := if Z.eqb gvrmIndex (-1) then 0%Z else gvrmIndex;
             launch := Preprocess gsP name |}
      | _ => {| fileName := None; initialGvrmIndex := 0%Z; launch := Nothing |}
      end
  end.

(** *** The status list *)

(** [`${index + 1}. ${name}`] *)
Definition itemText (index : nat) (name : string) : string :=
  (NilEmpty.string_of_uint (Nat.to_uint (S index)) ++ ". " ++ name)%string.

(** The items built by one [forEach] of [updateStatusList]: their text and
    whether they carry the class [active]. *)
Fixpoint statusItemsFrom (ext : string) (current : number) (index : nat)
  (files : list string) : list (string * bool) :=
  match files with
  | [] => []
  | file :: rest =>
      (itemText index (replace ext EmptyString (basename file)),
       match current with
       | Some c => Z.eqb (Z.of_nat index) c
       | None => false
       end)
      :: statusItemsFrom ext current (S index) rest
  end.

Definition statusItems (ext : string) (current : number) (files : list string)
  : list (string * bool) :=
  statusItemsFrom ext current 0 files.

(** *** Switching *)

Record Avatar : Type := mkAvatar {
  isReady : bool;       (* gvrm.isReady *)
  isLoading : bool      (* gvrm.character.isLoading() *)
}.

Inductive effect : Type :=
| UpdateStatusList (avatars animations : list (string * bool))
| Remove                               (* gvrm.remove(scene) *)
| Load (file : option string)          (* gvrm.load(file, ...) *)
| ChangeFBX (file : option string)     (* gvrm.changeFBX(file) *)
| TypeError.                           (* a property of undefined is read *)

(** The rest of a handler suspended at an [await]. *)
Inductive continuation : Type :=
| AfterRemove     (* await gvrm.load(...); await gvrm.changeFBX(...) *)
| AfterLoad.      (* await gvrm.changeFBX(...) *)

(** The module-level variables of main.js. *)
Record State : Type := mkState {
  currentGvrmIndex : number;
  currentFbxIndex : number;
  gvrm : option Avatar;
  pending : list continuation
}.

Definition drawStatus (g f : number) : effect :=
  UpdateStatusList (statusItems ".gvrm" g gvrmFiles)
                   (statusItems ".fbx" f fbxFiles).

(** The body shared by the KeyG branch and the mobile avatar button, after
    their guards. *)
Definition switchAvatar (st : State) : State * list effect :=
  let g := nextIndex (currentGvrmIndex st) (List.length gvrmFiles) in
  ({| currentGvrmIndex := g; currentFbxIndex := currentFbxIndex st;
      gvrm := gvrm st; pending := pending st ++ [AfterRemove] |},
   [drawStatus g (currentFbxIndex st); Remove]).

(** The body of the KeyA branch and of the mobile animation button, after
    the guard of the latter. *)
Definition switchAnimation (st : State) : State * list effect :=
  let f := nextIndex (currentFbxIndex st) (List.length fbxFiles) in
  ({| currentGvrmIndex := currentGvrmIndex st; currentFbxIndex := f;
      gvrm := gvrm st; pending := pending st |},
   [drawStatus (currentGvrmIndex st) f;
    match gvrm st with
    | Some _ => ChangeFBX (at_ fbxFiles f)
    | None => TypeError
    end]).

(** The keydown listener with the KeyG and KeyA branches. *)
Definition onKeyDown (code : string) (st : State) : State * list effect :=
  if String.eqb code "KeyG" then
    match gvrm st with
    | Some a => if negb (isReady a) || isLoading a then (st, [])
                else switchAvatar st
    | None => (st, [])
    end
  else if String.eqb code "KeyA" then switchAnimation st
  else (st, []).

(** The click listener of [mobile-switch-avatar]. *)
Definition onMobileSwitchAvatar (st : State) : State * list effect :=
  match gvrm st with
  | Some a => if negb (isReady a) then (st, []) else switchAvatar st
  | None => (st, [])
  end.

(** The click listener of [mobile-switch-animation]. *)
Definition onMobileSwitchAnimation (st : State) : State * list effect :=
  match gvrm st with
  | Some _ => switchAnimation st
  | None => (st, [])
  end.

Fixpoint removeNth {A : Type} (k : nat) (l : list A) : list A :=
  match k, l with
  | _, [] => []
  | O, _ :: rest => rest
  | S k', a :: rest => a :: removeNth k' rest
  end.

(** The awaited promise of the [k]-th suspended handler settles. *)
Definition settle (k : nat) (st : State) : State * list effect :=
  match nth_error (pending st) k with
  | None => (st, [])
  | Some AfterRemove =>
      ({| currentGvrmIndex := currentGvrmIndex st;
          currentFbxIndex := currentFbxIndex st; gvrm := gvrm st;
          pending := removeNth k (pending st) ++ [AfterLoad] |},
       [Load (at_ gvrmFiles (currentGvrmIndex st))])
  | Some AfterLoad =>
      ({| currentGvrmIndex := currentGvrmIndex st;
          currentFbxIndex := currentFbxIndex st; gvrm := gvrm st;
          pending := removeNth k (pending st) |},
       [ChangeFBX (at_ fbxFiles (currentFbxIndex st))])
  end.

Inductive event : Type :=
| KeyDown (code : string)
| MobileSwitchAvatar
| MobileSwitchAnimation
| Settle (k : nat)
| AvatarStatus (a : Avatar).     (* the avatar is assigned, or its flags change *)

Definition step (ev : event) (st : State) : State * list effect :=
  match ev with
  | KeyDown code => onKeyDown code st
  | MobileSwitchAvatar => onMobileSwitchAvatar st
  | MobileSwitchAnimation => onMobileSwitchAnimation st
  | Settle k => settle k st
  | AvatarStatus a =>
      ({| currentGvrmIndex := currentGvrmIndex st;
          currentFbxIndex := currentFbxIndex st; gvrm := Some a;
          pending := pending st |}, [])
  end.

Fixpoint run (evs : list event) (st : State) : State * list effect :=
  match evs with
  | [] => (st, [])
  | ev :: rest =>
      let p := step ev st in
      let q := run rest (fst p) in
      (fst q, snd p ++ snd q)
  end.

(** The variables once the start-up block has run. *)
Definition initial (s : Startup) : State :=
  {| currentGvrmIndex := Some (initialGvrmIndex s);
     currentFbxIndex := Some 0%Z; gvrm := None; pending := [] |}.

(** *** setupVR: the indices of the VR panels *)

Inductive Panel : Type :=
| LeftPanel      (* Switch Avatar *)
| RightPanel.    (* Switch Animation *)

(** The variables captured by the closures of [setupVR]. *)
Record VRState : Type := mkVRState {
  vrGvrmIndex : number;          (* currentGvrmIndex *)
  vrFbxIndex : number;           (* currentFbxIndex *)
  vrPending : list continuation
}.

Definition setupVR : VRState :=
  {| vrGvrmIndex := Some 0%Z; vrFbxIndex := Some 0%Z; vrPending := [] |}.

(** [onSelectStart]; [hit] is the panel of the first intersection, if the
    ray meets one. *)
Definition onSelectStart (avatar : option Avatar) (gvrmFs fbxFs : list string)
  (hit : option Panel) (st : VRState) : VRState * list effect :=
  match hit with
  | None => (st, [])
  | Some LeftPanel =>
      match avatar with
      | Some a =>
          if negb (isReady a) || isLoading a then (st, [])
          else ({| vrGvrmIndex := nextIndex (vrGvrmIndex st) (List.length gvrmFs);
                   vrFbxIndex := vrFbxIndex st;
                   vrPending := vrPending st ++ [AfterRemove] |}, [Remove])
      | None => (st, [])
      end
  | Some RightPanel =>
      match avatar with
      | Some _ =>
          let f := nextIndex (vrFbxIndex st) (List.length fbxFs) in
          ({| vrGvrmIndex := vrGvrmIndex st; vrFbxIndex := f;
              vrPending := vrPending st |}, [ChangeFBX (at_ fbxFs f)])
      | None => (st, [])
      end
  end.

Definition vrSettle (gvrmFs fbxFs : list string) (k : nat) (st : VRState)
  : VRState * list effect :=
  match nth_error (vrPending st) k with
  | None => (st, [])
  | Some AfterRemove =>
      ({| vrGvrmIndex := vrGvrmIndex st; vrFbxIndex := vrFbxIndex st;
          vrPending := removeNth k (vrPending st) ++ [AfterLoad] |},
       [Load (at_ gvrmFs (vrGvrmIndex st))])
  | Some AfterLoad =>
      ({| vrGvrmIndex := vrGvrmIndex st; vrFbxIndex := vrFbxIndex st;
          vrPending := removeNth k (vrPending st) |},
       [ChangeFBX (at_ fbxFs (vrFbxIndex st))])
  end.

Definition setCurrentGvrmIndex (index : number) (st : VRState) : VRState :=
  {| vrGvrmIndex := index; vrFbxIndex := vrFbxIndex st;
     vrPending := vrPending st |}.

Definition setCurrentFbxIndex (index : number) (st : VRState) : VRState :=
  {| vrGvrmIndex := vrGvrmIndex st; vrFbxIndex := index;
     vrPending := vrPending st |}.

Inductive vrEvent : Type :=
| SelectStart (avatar : option Avatar) (hit : option Panel)
| VRSettle (k : nat).

Definition vrStep (gvrmFs fbxFs : list string) (ev : vrEvent) (st : VRState)
  : VRState * list effect :=
  match ev with
  | SelectStart avatar hit => onSelectStart avatar gvrmFs fbxFs hit st
  | VRSettle k => vrSettle gvrmFs fbxFs k st
  end.

Fixpoint vrRun (gvrmFs fbxFs : list string) (evs : list vrEvent) (st : VRState)
  : VRState * list effect :=
  match evs with
  | [] => (st, [])
  | ev :: rest =>
      let p := vrStep gvrmFs fbxFs ev st in
      let q := vrRun gvrmFs fbxFs rest (fst p) in
      (fst q, snd p ++ snd q)
  end.

(** *** Statements *)

(** An index that points into an array of [len] elements. *)
Definition inBounds (index : number) (len : nat) : Prop :=
  exists i, index = Some i /\ (0 <= i < Z.of_nat len)%Z.

(** How many items of a status list are marked active. *)
Definition activeItems (items : list (string * bool)) : nat :=
  List.length (filter snd items).

(** An effect that passes a file passes one of the given ones, and a status
    list marks exactly one avatar and one animation. *)
Definition sound (gvrmFs fbxFs : list string) (e : effect) : Prop :=
  match e with
  | Load f => exists file, f = Some file /\ In file gvrmFs
  | ChangeFBX f => exists file, f = Some file /\ In file fbxFs
  | UpdateStatusList avatars animations =>
      activeItems avatars = 1 /\ activeItems animations = 1
  | _ => True
  end.

(** [k] presses of the KeyA key. *)
Definition pressKeyA (k : nat) : list event := repeat (KeyDown "KeyA") k.

(** *** The select dialog *)

(** The module-level [gsPath], [gvrmPath] and [gsFileName]. *)
Record Paths : Type := mkPaths {
  gsPath : option string;
  gvrmPath : option string;
  gsFileName : option string
}.

(** Click on the View Sample Avatars button. *)
Definition onViewSampleAvatars (selectedGvrm : option string) (p : Paths)
  : Paths :=
  match selectedGvrm with
  | Some (String _ _ as selected) =>
      {| gsPath := gsPath p;
         gvrmPath := Some ("./assets/" ++ selected ++ ".gvrm")%string;
         gsFileName := gsFileName p |}
  | _ => p
  end.

(** Click on the select-sample button. *)
Definition onSelectSample (selectedSample : option string) (p : Paths)
  : Paths :=
  match selectedSample with
  | Some (String _ _ as selected) =>
      {| gsPath := Some ("./assets/" ++ selected ++ ".ply")%string;
         gvrmPath := gvrmPath p;
         gsFileName := Some (selected ++ ".ply")%string |}
  | _ => p
  end.

Definition startupFrom (p : Paths) : Startup :=
  startup (gsPath p) (gvrmPath p) (gsFileName p).

(** A path segment without [.] and [/]. *)
Fixpoint plainName (s : string) : bool :=
  match s with
  | EmptyString => true
  | String c rest =>
      negb (Ascii.eqb c ".") && negb (Ascii.eqb c "/") && plainName rest
  end.

End Viewer.

(* ================================================================== *)
(** * Properties *)

(** ** Helper lemmas on strings and the store *)

Lemma split_nonempty sep s : JsString.split sep s <> [].
Proof.
  destruct s as [|c rest]; simpl; [discriminate|].
  destruct (Ascii.eqb c sep); [discriminate|].
  destruct (JsString.split sep rest); discriminate.
Qed.

Lemma pop_split_some sep s : exists x, JsString.pop (JsString.split sep s) = Some x.
Proof.
  unfold JsString.pop.
  destruct (rev (JsString.split sep s)) as [|x l] eqn:E.
  - apply (f_equal (@rev string)) in E. rewrite rev_involutive in E.
    simpl in E. now apply split_nonempty in E.
  - now exists x.
Qed.

(** [stripPath] never meets [undefined]. *)
Lemma stripPath_total path : exists s, stripPath path = Some s.
Proof.
  unfold stripPath.
  destruct (pop_split_some "/" path) as [x ->].
  unfold JsString.shift.
  destruct (JsString.split "." x) as [|h t] eqn:E.
  - now apply split_nonempty in E.
  - now exists h.
Qed.

Lemma readArray_newArray st l :
  readArray (snd (newArray st)) l = readArray st l.
Proof.
  unfold readArray, newArray; simpl.
  destruct (Nat.lt_ge_cases l (List.length st)) as [H|H].
  - now rewrite app_nth1.
  - rewrite (nth_overflow st) by assumption.
    rewrite app_nth2 by assumption.
    destruct (l - List.length st) as [|[|k]]; reflexivity.
Qed.

(* ------------------------------------------------------------------ *)
(** ** Construction: capability check, codec negotiation, file extension *)

Lemma negotiate_code_order env :
  negotiate env = first_supported env code_preference.
Proof.
  unfold negotiate, first_supported, code_preference; simpl.
  destruct (isTypeSupported env mime_mp4); [reflexivity|].
  destruct (isTypeSupported env mime_webm_h264); [reflexivity|].
  destruct (isTypeSupported env mime_webm); reflexivity.
Qed.

Lemma constructor_supported env :
  hasMediaRecorder env = true -> isTypeSupported env mime_webm = true ->
  exists m, negotiate env = Some m /\
            fst (constructor env) =
              {| isSupported := true; isRecording := false; popup := None;
                 options := Some m; closureChunks := 0; thisChunks := 0;
                 arrays := [[]]; currentRecordingResolve := None;
                 gvrm := None |}.
Proof.
  intros Hmr Hwebm. unfold constructor. rewrite Hmr, Hwebm. simpl.
  assert (exists m, negotiate env = Some m) as [m Hm].
  { unfold negotiate. rewrite Hwebm.
    destruct (isTypeSupported env mime_mp4); [eauto|].
    destruct (isTypeSupported env mime_webm_h264); eauto. }
  exists m. rewrite Hm. split; reflexivity.
Qed.

Lemma constructor_isSupported env :
  isSupported (fst (constructor env)) =
  hasMediaRecorder env && isTypeSupported env mime_webm.
Proof.
  destruct (hasMediaRecorder env) eqn:Hmr, (isTypeSupported env mime_webm) eqn:Hw;
    try (unfold constructor; rewrite Hmr, Hw; reflexivity).
  destruct (constructor_supported env Hmr Hw) as (m & _ & ->). reflexivity.
Qed.

(** C4, as stated, fails: with every probed codec supported the constructor
    negotiates video/mp4, the entry the specification lists last, whereas
    the first entry of the specification's order is the baseline container
    with the H.264 codec variant. *)
Lemma all_supported_negotiates_mp4 :
  options (fst (constructor allSupported)) = Some mime_mp4 /\
  first_supported allSupported spec_preference = Some mime_webm_h264 /\
  ~ negotiates_in_spec_order allSupported.
Proof.
  split; [reflexivity|]. split; [reflexivity|].
  intros [_ H]. vm_compute in H. discriminate H.
Qed.

(** C4, amended: when MediaRecorder exists and the baseline container is
    supported, the controller is supported and the negotiated codec is the
    first supported entry of the order video/mp4, then
    video/webm;codecs=h264, then video/webm; in particular it is video/mp4
    whenever that type is supported, hence when all are. *)
Theorem constructor_negotiates_first_of_code_order (env : Browser) :
  hasMediaRecorder env = true ->
  isTypeSupported env mime_webm = true ->
  let r := fst (constructor env) in
  isSupported r = true /\
  options r = first_supported env code_preference /\
  (exists m, options r = Some m /\ In m code_preference /\
             isTypeSupported env m = true) /\
  (isTypeSupported env mime_mp4 = true -> options r = Some mime_mp4).
Proof.
  intros Hmr Hwebm r.
  destruct (constructor_supported env Hmr Hwebm) as (m & Hneg & Hr).
  subst r. rewrite Hr. cbn [options isSupported].
  split; [reflexivity|].
  split; [now rewrite <- negotiate_code_order|].
  split.
  - exists m. split; [reflexivity|].
    rewrite negotiate_code_order in Hneg. unfold first_supported in Hneg.
    apply find_some in Hneg. exact Hneg.
  - intros Hmp4. unfold negotiate in Hneg. rewrite Hmp4 in Hneg. now symmetry.
Qed.

Lemma constructor_negotiates_first_of_code_order_witness :
  hasMediaRecorder allSupported = true /\
  isTypeSupported allSupported mime_webm = true /\
  isSupported (fst (constructor allSupported)) = true /\
  options (fst (constructor allSupported)) = Some mime_mp4.
Proof.
  split; [reflexivity|]. split; [reflexivity|].
  pose proof (constructor_negotiates_first_of_code_order allSupported
                eq_refl eq_refl) as (Hs & _ & _ & Hmp4).
  split; [exact Hs | exact (Hmp4 eq_refl)].
Defined.

(* ------------------------------------------------------------------ *)
(** ** startRecording and stopRecording *)

Ltac method_cases r :=
  destruct r as [sup recg pop opts cl th st slot av];
  destruct sup, recg, pop;
  cbv [startRecording stopRecording toggleRecording showPopup hidePopup
       andThen emit assign skip set_isRecording set_popup reset_thisChunks
       newArray fst snd negb orb andb isSupported isRecording popup options
       closureChunks thisChunks arrays currentRecordingResolve gvrm app].

(** What a call of startRecording on an idle, supported controller does. *)
Lemma startRecording_when_idle r :
  isSupported r = true -> isRecording r = false ->
  isRecording (fst (startRecording r)) = true /\
  thisChunks (fst (startRecording r)) = List.length (arrays r) /\
  closureChunks (fst (startRecording r)) = closureChunks r /\
  popup (fst (startRecording r)) =
    Some {| textContent := recordingMessage; recordingStyle := true |} /\
  snd (startRecording r) =
    ConsoleLog "start recording" :: MediaRecorderStart ::
    (match popup r with Some _ => [PopupRemove] | None => [] end) ++
    [PopupAppend recordingMessage true].
Proof.
  intros Hs Hr. method_cases r; simpl in Hs, Hr; try discriminate;
    repeat split; reflexivity.
Qed.

(** startRecording never touches the array the handlers push to and
    assemble from. *)
Lemma startRecording_keeps_closure_buffer r :
  readArray (arrays (fst (startRecording r)))
            (closureChunks (fst (startRecording r))) =
  readArray (arrays r) (closureChunks r).
Proof.
  unfold startRecording.
  destruct (negb (isSupported r) || isRecording r); [reflexivity|].
  cbv [andThen emit assign fst snd].
  change (readArray (arrays (fst (showPopup recordingMessage true
            (set_isRecording true (reset_thisChunks r)))))
          (closureChunks (fst (showPopup recordingMessage true
            (set_isRecording true (reset_thisChunks r)))))
          = readArray (arrays r) (closureChunks r)).
  assert (forall x, arrays (fst (showPopup recordingMessage true x)) = arrays x
                    /\ closureChunks (fst (showPopup recordingMessage true x))
                       = closureChunks x) as Hshow.
  { intros x. destruct x as [sup recg pop opts cl th st slot av].
    destruct pop; split; reflexivity. }
  destruct (Hshow (set_isRecording true (reset_thisChunks r))) as [-> ->].
  unfold set_isRecording, reset_thisChunks; simpl.
  apply (readArray_newArray (arrays r)).
Qed.

(** C5: after any sequence of startRecording / stopRecording calls, a second
    startRecording right after a startRecording, and a second stopRecording
    right after a stopRecording, changes nothing and issues no effect;
    isRecording changes on startRecording only from false (on a supported
    controller) and on stopRecording only from true; and stopRecording with
    isRecording false, like startRecording with isRecording true, returns
    the controller unchanged with no notification. *)
Theorem start_stop_idempotent (calls : list call) (r0 : Recorder) :
  let r := after calls r0 in
  startRecording (fst (startRecording r)) = (fst (startRecording r), []) /\
  stopRecording (fst (stopRecording r)) = (fst (stopRecording r), []) /\
  (isRecording (fst (startRecording r)) <> isRecording r ->
   isSupported r = true /\ isRecording r = false /\
   isRecording (fst (startRecording r)) = true) /\
  (isRecording (fst (stopRecording r)) <> isRecording r ->
   isSupported r = true /\ isRecording r = true /\
   isRecording (fst (stopRecording r)) = false) /\
  (isRecording r = false -> stopRecording r = (r, [])) /\
  (isRecording r = true -> startRecording r = (r, [])).
Proof.
  intros r. clearbody r.
  method_cases r; repeat split; try reflexivity; try congruence;
    try (intros H; exfalso; apply H; reflexivity).
Qed.

Lemma start_stop_idempotent_witness :
  isRecording (after [Start; Stop] (fst (constructor allSupported))) = false /\
  stopRecording (after [Start; Stop] (fst (constructor allSupported))) =
    (after [Start; Stop] (fst (constructor allSupported)), []).
Proof.
  split; [reflexivity|].
  pose proof (start_stop_idempotent [Start; Stop]
                (fst (constructor allSupported))) as (_ & _ & _ & _ & H & _).
  exact (H eq_refl).
Defined.

(* ------------------------------------------------------------------ *)
(** ** recordAnimation without support or avatar *)

(** C6: on an unsupported controller, or with no avatar attached,
    recordAnimation returns an already resolved promise; the world (the
    controller, its buffers, the frame scheduler, the pending runs) is
    unchanged and no other effect is issued, so nothing is started, stopped
    or captured. *)
Theorem recordAnimation_resolves_immediately (url : string) (w : World) :
  isSupported (rec w) = false \/ gvrm (rec w) = None ->
  step (Call_recordAnimation url) w = (w, [ReturnResolved]).
Proof.
  intros H. simpl. unfold recordAnimation.
  destruct H as [-> | ->]; [reflexivity|].
  now rewrite orb_true_r.
Qed.

Lemma recordAnimation_resolves_immediately_witness :
  gvrm (rec (boot allSupported)) = None /\
  step (Call_recordAnimation "a/Idle.fbx") (boot allSupported) =
    (boot allSupported, [ReturnResolved]).
Proof.
  split; [reflexivity|].
  apply (recordAnimation_resolves_immediately "a/Idle.fbx" (boot allSupported)).
  right. reflexivity.
Defined.

(* ------------------------------------------------------------------ *)
(** ** The finalization callback *)

(** C7: the filename base is recording_sample1_Idle for avatar path
    a/sample1.gvrm with animation path a/Idle.fbx, recording_sample1 for
    the avatar without an animation, recording without an avatar; and it is
    the base of the name under which the finalization callback downloads
    the artifact. *)
Theorem filename_derivation (r : Recorder) :
  generateFilename (Some (sampleAvatar (Some idleAnimation))) =
    "recording_sample1_Idle" /\
  generateFilename (Some (sampleAvatar (Some noAnimation))) =
    "recording_sample1" /\
  generateFilename (Some (sampleAvatar None)) = "recording_sample1" /\
  generateFilename None = "recording" /\
  forall g, exists parts ty rest,
    snd (onstop (set_gvrm g r)) =
      Download (generateFilename g ++ "." ++ fileExt (options r)) parts ty
      :: rest.
Proof.
  repeat (split; [reflexivity|]).
  intros g. unfold onstop, andThen, emit. simpl. eauto.
Qed.

(** C9: with an empty pending-completion slot the finalization callback
    still assembles and downloads the artifact and empties its buffer, it
    resolves nothing, and the slot stays empty. *)
Theorem onstop_tolerates_empty_slot (r : Recorder) :
  currentRecordingResolve r = None ->
  onstop r =
    (reset_closureChunks r,
     [Download (generateFilename (gvrm r) ++ "." ++ fileExt (options r))
               (readArray (arrays r) (closureChunks r))
               (blobType (options r))]) /\
  currentRecordingResolve (fst (onstop r)) = None /\
  readArray (arrays (fst (onstop r))) (closureChunks (fst (onstop r))) = [] /\
  forall p, ~ In (ResolvePromise p) (snd (onstop r)).
Proof.
  intros Hslot.
  assert (onstop r =
    (reset_closureChunks r,
     [Download (generateFilename (gvrm r) ++ "." ++ fileExt (options r))
               (readArray (arrays r) (closureChunks r))
               (blobType (options r))])) as E.
  { destruct r as [sup recg pop opts cl th st slot av].
    simpl in Hslot. subst slot. reflexivity. }
  rewrite E. simpl. split; [reflexivity|]. split; [exact Hslot|]. split.
  - unfold readArray. rewrite app_nth2 by apply Nat.le_refl.
    now rewrite Nat.sub_diag.
  - intros p [H|[]]. discriminate H.
Qed.

Lemma onstop_tolerates_empty_slot_witness :
  currentRecordingResolve (fst (constructor allSupported)) = None /\
  snd (onstop (fst (constructor allSupported))) =
    [Download "recording.mp4" [] "video/mp4"].
Proof.
  split; [reflexivity|].
  pose proof (onstop_tolerates_empty_slot (fst (constructor allSupported))
                eq_refl) as [E _].
  rewrite E. reflexivity.
Defined.

(* ------------------------------------------------------------------ *)
(** ** The unsupported controller *)

Lemma step_inert ev w :
  inert w ->
  inert (fst (step ev w)) /\
  (snd (step ev w) = [] \/ snd (step ev w) = [ReturnResolved]) /\
  rec (fst (step ev w)) = set_gvrm (gvrm (rec (fst (step ev w)))) (rec w).
Proof.
  unfold inert.
  destruct w as [r vs q aw tm np].
  destruct r as [sup recg pop opts cl th st slot av].
  simpl. intros (-> & -> & -> & -> & ->).
  destruct ev; try (simpl; auto 10).
  destruct av; simpl; auto 10.
Qed.

(** C10: when the probe reports video/webm unsupported, whatever it reports
    for video/mp4, the constructor returns before capturing a stream or
    negotiating a codec and leaves the controller unsupported;
    toggleRecording, startRecording and stopRecording then return the
    controller unchanged with no effect, recordAnimation returns an already
    resolved promise and changes nothing, and along every sequence of
    events the controller stays unsupported, issues no effect other than
    that return, and changes in nothing but the avatar handle stored by
    setGVRM. *)
Theorem baseline_container_is_required (env : Browser) :
  isTypeSupported env mime_webm = false ->
  let r := fst (constructor env) in
  isSupported r = false /\
  snd (constructor env) =
    [ConsoleWarn "MediaRecorder or video/webm is not supported on this browser."] /\
  toggleRecording r = (r, []) /\
  startRecording r = (r, []) /\
  stopRecording r = (r, []) /\
  (forall url w, rec w = r -> recordAnimation url w = (w, [ReturnResolved])) /\
  (forall evs,
     isSupported (rec (fst (run evs (boot env)))) = false /\
     rec (fst (run evs (boot env))) =
       set_gvrm (gvrm (rec (fst (run evs (boot env))))) r /\
     forall ev effs, In (ev, effs) (snd (run evs (boot env))) ->
                     effs = [] \/ effs = [ReturnResolved]).
Proof.
  intros Hwebm r.
  assert (constructor env =
          (unsupportedRecorder,
           [ConsoleWarn "MediaRecorder or video/webm is not supported on this browser."]))
    as Hc.
  { unfold constructor. rewrite Hwebm. now rewrite orb_true_r. }
  subst r. unfold boot. rewrite Hc. simpl fst. simpl snd.
  repeat (split; [reflexivity|]).
  split.
  { intros url w Hw. unfold recordAnimation. now rewrite Hw. }
  intros evs.
  set (w0 := {| rec := unsupportedRecorder; runs := []; rafQueue := [];
                awaiting := []; timers := 0; nextPromise := 0 |}).
  assert (inert w0) as Hin by (repeat split).
  assert (rec w0 = set_gvrm (gvrm (rec w0)) unsupportedRecorder) as Hrec
    by reflexivity.
  revert Hin Hrec. generalize w0. clear w0.
  induction evs as [|e evs IH]; intros w Hin Hrec; simpl.
  - split; [apply Hin|]. split; [exact Hrec|]. intros ev effs [].
  - destruct (step_inert e w Hin) as (Hin' & Heff & Hrec').
    assert (rec (fst (step e w)) =
            set_gvrm (gvrm (rec (fst (step e w)))) unsupportedRecorder) as Hrec2.
    { rewrite Hrec'. rewrite Hrec. reflexivity. }
    destruct (IH (fst (step e w)) Hin' Hrec2) as (H1 & H2 & H3).
    split; [exact H1|]. split; [exact H2|].
    intros ev effs [Heq | Hin2].
    + injection Heq as <- <-. exact Heff.
    + exact (H3 ev effs Hin2).
Qed.

Lemma baseline_container_is_required_witness :
  isTypeSupported mp4Only mime_webm = false /\
  isTypeSupported mp4Only mime_mp4 = true /\
  isSupported (fst (constructor mp4Only)) = false /\
  startRecording (fst (constructor mp4Only)) = (fst (constructor mp4Only), []).
Proof.
  split; [reflexivity|]. split; [reflexivity|].
  pose proof (baseline_container_is_required mp4Only eq_refl)
    as (H1 & _ & _ & H2 & _).
  split; [exact H1 | exact H2].
Defined.

(* ------------------------------------------------------------------ *)
(** ** Resolution of the completion promise *)

Ltac quiet_effects :=
  repeat first [ apply Forall_nil
               | apply Forall_cons; [exact I|]
               | apply Forall_app; split
               | assumption ].

Lemma hidePopup_quiet r : Forall quiet (snd (hidePopup r)).
Proof. method_cases r; quiet_effects. Qed.

Lemma startRecording_quiet r : Forall quiet (snd (startRecording r)).
Proof. method_cases r; quiet_effects. Qed.

Lemma stopRecording_quiet r : Forall quiet (snd (stopRecording r)).
Proof. method_cases r; quiet_effects. Qed.

Lemma toggleRecording_quiet r : Forall quiet (snd (toggleRecording r)).
Proof. method_cases r; quiet_effects. Qed.

Lemma frameCallback_quiet i t r v :
  Forall quiet (snd (frameCallback i t r v)).
Proof.
  unfold frameCallback, frameBody.
  pose proof (startRecording_quiet r) as Hstart.
  destruct (negb (recording1Started v)).
  - destruct (lookAhead t (animationDuration v)); simpl;
      destruct (negb (recordingFinished v)); simpl; quiet_effects.
  - destruct (recording1Started v && negb (recording2Started v)).
    + simpl. destruct (negb (recordingFinished v)); quiet_effects.
    + destruct (recording2Started v).
      * destruct (lookAhead t (animationDuration v) &&
                  Nat.ltb settleThreshold (frameCount2 (incr_frameCount2 v)));
          simpl; destruct (negb (recordingFinished v)); quiet_effects.
      * destruct (negb (recordingFinished v)); quiet_effects.
Qed.

Lemma stopCallback_quiet r v : Forall quiet (snd (stopCallback r v)).
Proof.
  unfold stopCallback; simpl. constructor; [exact I|].
  apply stopRecording_quiet.
Qed.

Lemma runCallbacks_quiet t q :
  forall r vs, Forall quiet (snd (runCallbacks t q r vs)).
Proof.
  induction q as [|[i cb] q IH]; intros r vs; simpl; [constructor|].
  destruct (nth_error vs i) as [v|]; [|apply IH].
  assert (Forall quiet
            (snd (match cb with
                  | FrameCallback => frameCallback i t r v
                  | StopCallback => stopCallback r v
                  end))) as Hcb.
  { destruct cb; [apply frameCallback_quiet | apply stopCallback_quiet]. }
  destruct (match cb with
            | FrameCallback => frameCallback i t r v
            | StopCallback => stopCallback r v
            end) as [[r1 v1] e1].
  specialize (IH r1 (updateRun vs i v1)).
  destruct (runCallbacks t q r1 (updateRun vs i v1)) as [[r2 vs2] e2].
  simpl in *. apply Forall_app. split; assumption.
Qed.

Lemma quiet_not_resolve effs p :
  Forall quiet effs -> ~ In (ResolvePromise p) effs.
Proof.
  intros H Hin. rewrite Forall_forall in H. exact (H _ Hin).
Qed.

Lemma quiet_not_download effs name parts ty :
  Forall quiet effs -> ~ In (Download name parts ty) effs.
Proof.
  intros H Hin. rewrite Forall_forall in H. exact (H _ Hin).
Qed.

(** Every event but the capture facility's stop is quiet. *)
Lemma step_quiet ev w : ev <> Stopped -> Forall quiet (snd (step ev w)).
Proof.
  intros Hev. destruct ev; simpl.
  - apply toggleRecording_quiet.
  - apply startRecording_quiet.
  - apply stopRecording_quiet.
  - constructor.
  - unfold recordAnimation.
    destruct (negb (isSupported (rec w)) || negb (attached (gvrm (rec w))));
      simpl; quiet_effects.
  - unfold whenSupported, onKeydown.
    destruct (isSupported (rec w)); [|constructor].
    destruct (isKeyR key && negb ctrl && negb alt && negb meta);
      [apply toggleRecording_quiet | constructor].
  - unfold avatarChanged. destruct (gvrm (rec w)); constructor.
  - unfold recordAnimation_resume.
    destruct (awaiting w); [|destruct (durationReadable (gvrm (rec w)))];
      simpl; quiet_effects.
  - unfold whenSupported, ondataavailable.
    destruct (isSupported (rec w)); [|constructor].
    destruct (Nat.ltb 0 (chunk_size c)); constructor.
  - congruence.
  - unfold timerFired. destruct (timers w); [constructor|].
    apply hidePopup_quiet.
  - unfold animationFrame.
    pose proof (runCallbacks_quiet t (rafQueue w) (rec w) (runs w)) as H.
    destruct (runCallbacks t (rafQueue w) (rec w) (runs w)) as [[r1 vs1] e1].
    exact H.
Qed.

(** The effects of the finalization handler. *)
Lemma step_stopped w :
  snd (step Stopped w) =
    if isSupported (rec w) then
      Download (generateFilename (gvrm (rec w)) ++ "." ++ fileExt (options (rec w)))
               (readArray (arrays (rec w)) (closureChunks (rec w)))
               (blobType (options (rec w)))
      :: match currentRecordingResolve (rec w) with
         | Some p => [ResolvePromise p]
         | None => []
         end
    else [].
Proof.
  destruct w as [r vs q aw tm np].
  destruct r as [sup recg pop opts cl th st slot av].
  destruct sup, slot; reflexivity.
Qed.

(** Only the finalization handler resolves, and it does so last. *)
Lemma step_resolves_in_onstop ev w p :
  In (ResolvePromise p) (snd (step ev w)) ->
  ev = Stopped /\
  isSupported (rec w) = true /\
  currentRecordingResolve (rec w) = Some p /\
  currentRecordingResolve (rec (fst (step ev w))) = None /\
  snd (step ev w) =
    [Download (generateFilename (gvrm (rec w)) ++ "." ++ fileExt (options (rec w)))
              (readArray (arrays (rec w)) (closureChunks (rec w)))
              (blobType (options (rec w)));
     ResolvePromise p].
Proof.
  intros Hin.
  assert (ev = Stopped) as ->.
  { destruct ev; try reflexivity;
      exfalso; revert Hin; apply quiet_not_resolve, step_quiet; discriminate. }
  split; [reflexivity|].
  destruct w as [r vs q aw tm np].
  destruct r as [sup recg pop opts cl th st slot av].
  destruct sup; [|destruct Hin].
  destruct slot as [p'|]; simpl in Hin.
  - destruct Hin as [H|[H|[]]]; [discriminate H|].
    injection H as ->. repeat split; reflexivity.
  - destruct Hin as [H|[]]. discriminate H.
Qed.

(** C2: the promise created by recordAnimation is stored in the pending
    slot when the frame loop is set up, without being resolved; in every
    event sequence a promise is resolved only by the finalization handler,
    never by a frame of the polling loop or by any other call, and the
    handler resolves the promise held by the slot as its last action, after
    the artifact has been assembled and downloaded, and empties the slot.
    The frame loop is set up when the clip duration can be read after the
    awaits; when it cannot, the call throws and leaves the controller and
    the frame scheduler as they are. *)
Theorem resolve_only_after_finalization
  (evs : list event) (w : World) (ev : event) (effs : list effect)
  (p : promise) :
  In (ev, effs) (snd (run evs w)) ->
  In (ResolvePromise p) effs ->
  (ev = Stopped /\
   exists name parts ty, effs = [Download name parts ty; ResolvePromise p]) /\
  (forall t w', ~ In (ResolvePromise p) (snd (step (AnimationFrame t) w'))) /\
  (forall w', In (ResolvePromise p) (snd (step Stopped w')) ->
     currentRecordingResolve (rec w') = Some p /\
     currentRecordingResolve (rec (fst (step Stopped w'))) = None) /\
  (forall D w', awaiting w' <> [] ->
     durationReadable (gvrm (rec w')) = true ->
     currentRecordingResolve (rec (fst (step (AvatarReady D) w')))
       = Some (nextPromise w') /\
     ~ In (ResolvePromise (nextPromise w')) (snd (step (AvatarReady D) w'))) /\
  (forall D w', durationReadable (gvrm (rec w')) = false ->
     rec (fst (step (AvatarReady D) w')) = rec w' /\
     rafQueue (fst (step (AvatarReady D) w')) = rafQueue w' /\
     runs (fst (step (AvatarReady D) w')) = runs w').
Proof.
  intros Htrace Hres.
  split; [|split; [|split; [|split]]].
  - revert w Htrace. induction evs as [|e evs IH]; intros w Htrace.
    + destruct Htrace.
    + simpl in Htrace. destruct Htrace as [Heq|Hin].
      * injection Heq as <- <-.
        destruct (step_resolves_in_onstop _ _ _ Hres) as (-> & _ & _ & _ & E).
        split; [reflexivity|]. rewrite E. eauto.
      * exact (IH _ Hin).
  - intros t w' Hin.
    destruct (step_resolves_in_onstop _ _ _ Hin) as (Habs & _). discriminate Habs.
  - intros w' Hin.
    destruct (step_resolves_in_onstop _ _ _ Hin) as (_ & _ & H1 & H2 & _).
    split; assumption.
  - intros D w' Haw Hread. simpl. unfold recordAnimation_resume.
    destruct (awaiting w') as [|u rest]; [congruence|].
    rewrite Hread. simpl. split; [reflexivity|]. intuition discriminate.
  - intros D w' Hread. simpl. unfold recordAnimation_resume.
    destruct (awaiting w') as [|u rest]; [repeat split|].
    rewrite Hread. repeat split.
Qed.

Lemma resolve_only_after_finalization_witness :
  In (Stopped,
      [Download "recording_sample1_Idle.mp4" ["frames"] "video/mp4";
       ResolvePromise 0])
     (snd (run loopSession (boot allSupported))) /\
  exists name parts ty,
    [Download "recording_sample1_Idle.mp4" ["frames"] "video/mp4";
     ResolvePromise 0] = [Download name parts ty; ResolvePromise 0].
Proof.
  assert (In (Stopped,
              [Download "recording_sample1_Idle.mp4" ["frames"] "video/mp4";
               ResolvePromise 0])
             (snd (run loopSession (boot allSupported)))) as Hin.
  { vm_compute. repeat (first [left; reflexivity | right]). }
  split; [exact Hin|].
  destruct (resolve_only_after_finalization loopSession (boot allSupported)
              Stopped _ 0 Hin (or_intror (or_introl eq_refl)))
    as [[_ H] _].
  exact H.
Defined.

(* ------------------------------------------------------------------ *)
(** ** The extension of the downloaded file *)

Lemma startRecording_options r : options (fst (startRecording r)) = options r.
Proof. method_cases r; reflexivity. Qed.

Lemma stopRecording_options r : options (fst (stopRecording r)) = options r.
Proof. method_cases r; reflexivity. Qed.

Lemma toggleRecording_options r : options (fst (toggleRecording r)) = options r.
Proof. method_cases r; reflexivity. Qed.

Lemma hidePopup_options r : options (fst (hidePopup r)) = options r.
Proof. method_cases r; reflexivity. Qed.

Lemma onstop_options r : options (fst (onstop r)) = options r.
Proof.
  destruct r as [sup recg pop opts cl th st slot av]. destruct slot; reflexivity.
Qed.

Lemma frameCallback_options i t r v :
  options (fst (fst (frameCallback i t r v))) = options r.
Proof.
  unfold frameCallback, frameBody.
  pose proof (startRecording_options r) as Hstart.
  repeat match goal with
         | |- context [if ?b then _ else _] => destruct b
         end; simpl; auto.
Qed.

Lemma runCallbacks_options t q :
  forall r vs, options (fst (fst (runCallbacks t q r vs))) = options r.
Proof.
  induction q as [|[i cb] q IH]; intros r vs; simpl; [reflexivity|].
  destruct (nth_error vs i) as [v|]; [|apply IH].
  assert (options (fst (fst (match cb with
                             | FrameCallback => frameCallback i t r v
                             | StopCallback => stopCallback r v
                             end))) = options r) as Hcb.
  { destruct cb; [apply frameCallback_options|].
    unfold stopCallback; simpl. apply stopRecording_options. }
  destruct (match cb with
            | FrameCallback => frameCallback i t r v
            | StopCallback => stopCallback r v
            end) as [[r1 v1] e1].
  specialize (IH r1 (updateRun vs i v1)).
  destruct (runCallbacks t q r1 (updateRun vs i v1)) as [[r2 vs2] e2].
  simpl in *. congruence.
Qed.

(** No event changes the negotiated type. *)
Lemma step_options ev w : options (rec (fst (step ev w))) = options (rec w).
Proof.
  destruct ev; simpl.
  - apply toggleRecording_options.
  - apply startRecording_options.
  - apply stopRecording_options.
  - reflexivity.
  - unfold recordAnimation.
    destruct (negb (isSupported (rec w)) || negb (attached (gvrm (rec w))));
      reflexivity.
  - unfold whenSupported, onKeydown.
    destruct (isSupported (rec w)); [|reflexivity].
    destruct (isKeyR key && negb ctrl && negb alt && negb meta);
      [apply toggleRecording_options | reflexivity].
  - unfold avatarChanged. destruct (gvrm (rec w)); reflexivity.
  - unfold recordAnimation_resume.
    destruct (awaiting w); [|destruct (durationReadable (gvrm (rec w)))];
      reflexivity.
  - unfold whenSupported, ondataavailable.
    destruct (isSupported (rec w)); [|reflexivity].
    destruct (Nat.ltb 0 (chunk_size c)); reflexivity.
  - unfold whenSupported.
    destruct (isSupported (rec w)); [apply onstop_options | reflexivity].
  - unfold timerFired. destruct (timers w); [reflexivity|].
    simpl. apply (hidePopup_options (rec w)).
  - unfold animationFrame.
    pose proof (runCallbacks_options t (rafQueue w) (rec w) (runs w)) as H.
    destruct (runCallbacks t (rafQueue w) (rec w) (runs w)) as [[r1 vs1] e1].
    exact H.
Qed.

(** Every download of a session carries the extension of the type the
    session started with. *)
Lemma trace_download evs :
  forall w ev effs name parts ty,
    In (ev, effs) (snd (run evs w)) ->
    In (Download name parts ty) effs ->
    exists base, name = (base ++ "." ++ fileExt (options (rec w)))%string.
Proof.
  induction evs as [|e evs IH]; intros w ev effs name parts ty Htrace Hd.
  - destruct Htrace.
  - simpl in Htrace. destruct Htrace as [Heq | Hin].
    + injection Heq as <- <-.
      assert (e = Stopped) as ->.
      { destruct e; try reflexivity;
          exfalso; revert Hd; apply quiet_not_download, step_quiet;
          discriminate. }
      rewrite step_stopped in Hd.
      destruct (isSupported (rec w)); [|destruct Hd].
      destruct Hd as [H | H].
      * injection H as <- _ _. eauto.
      * destruct (currentRecordingResolve (rec w)); [|destruct H].
        destruct H as [H | []]. discriminate H.
    + destruct (IH _ _ _ _ _ _ Hin Hd) as [base ->].
      rewrite step_options. eauto.
Qed.

(** C8: on a supported controller the negotiated type is one of the three
    probed ones; the extension computed by the finalization callback is mp4
    exactly when video/mp4 was negotiated and webm for both baseline
    negotiations (with or without the codec variant); and in every session
    of the controller every downloaded file is named with that extension. *)
Theorem extension_follows_negotiated_container (env : Browser) :
  isSupported (fst (constructor env)) = true ->
  let m := options (fst (constructor env)) in
  ((m = Some mime_mp4 /\ fileExt m = "mp4") \/
   ((m = Some mime_webm_h264 \/ m = Some mime_webm) /\ fileExt m = "webm")) /\
  (forall evs ev effs name parts ty,
     In (ev, effs) (snd (run evs (boot env))) ->
     In (Download name parts ty) effs ->
     exists base, name = (base ++ "." ++ fileExt m)%string).
Proof.
  intros Hsup m. subst m. split.
  - rewrite constructor_isSupported in Hsup.
    apply andb_true_iff in Hsup as [Hmr Hwebm].
    destruct (constructor_supported env Hmr Hwebm) as (m & Hneg & Hr).
    rewrite Hr. cbn [options].
    unfold negotiate in Hneg.
    destruct (isTypeSupported env mime_mp4).
    { injection Hneg as <-. left. split; reflexivity. }
    destruct (isTypeSupported env mime_webm_h264).
    { injection Hneg as <-. right. split; [left|]; reflexivity. }
    rewrite Hwebm in Hneg. injection Hneg as <-.
    right. split; [right|]; reflexivity.
  - intros evs ev effs name parts ty Htrace Hd.
    exact (trace_download evs (boot env) ev effs name parts ty Htrace Hd).
Qed.

Lemma extension_follows_negotiated_container_witness :
  isSupported (fst (constructor webmOnly)) = true /\
  options (fst (constructor webmOnly)) = Some mime_webm /\
  fileExt (options (fst (constructor webmOnly))) = "webm".
Proof.
  split; [reflexivity|].
  pose proof (extension_follows_negotiated_container webmOnly eq_refl)
    as [[[H _]|[_ H]] _].
  - vm_compute in H. discriminate H.
  - split; [reflexivity | exact H].
Defined.

(* ------------------------------------------------------------------ *)
(** ** The frame loop of recordAnimation *)

Lemma startRecording_plain r : Forall plain (snd (startRecording r)).
Proof.
  method_cases r;
    repeat first [apply Forall_nil | apply Forall_cons; [exact I|]].
Qed.

Lemma stopRecording_plain r : Forall plain (snd (stopRecording r)).
Proof.
  method_cases r;
    repeat first [apply Forall_nil | apply Forall_cons; [exact I|]].
Qed.

Lemma rafRequests_plain effs : Forall plain effs -> rafRequests effs = [].
Proof.
  induction 1 as [|e l He _ IH]; [reflexivity|].
  unfold rafRequests in *. simpl. rewrite IH.
  destruct e; simpl in *; try reflexivity; contradiction.
Qed.

Lemma rafRequests_app a b : rafRequests (a ++ b) = rafRequests a ++ rafRequests b.
Proof. unfold rafRequests. apply flat_map_app. Qed.

Lemma plain_not_invoke effs name : Forall plain effs -> ~ In (Invoke name) effs.
Proof.
  intros H Hin. rewrite Forall_forall in H. exact (H _ Hin).
Qed.

Lemma plain_not_raf effs i cb :
  Forall plain effs -> ~ In (RequestAnimationFrame i cb) effs.
Proof.
  intros H Hin. rewrite Forall_forall in H. exact (H _ Hin).
Qed.

(** One frame in each phase: the next world and the effects of the frame. *)

Ltac frame_simpl :=
  cbn [runCallbacks nth_error updateRun
       newRun armedRun countingRun doneRun incr_frameCount2
       set_recording1Started set_recording2Started set_recordingFinished
       recording1Started recording2Started recordingFinished frameCount2
       animationDuration negb andb fst snd rec runs rafQueue app].

Ltac frame_step Hr Hq :=
  unfold animationFrame; rewrite Hr, Hq;
  cbn [runCallbacks nth_error]; unfold frameCallback, frameBody, stopCallback;
  frame_simpl.

Lemma rafRequests_method_then (m : method) r name tail :
  Forall plain (snd (m r)) ->
  rafRequests (Invoke name :: snd (m r) ++ tail) = rafRequests tail.
Proof.
  intros H.
  change (rafRequests ([Invoke name] ++ snd (m r) ++ tail) = rafRequests tail).
  rewrite !rafRequests_app, (rafRequests_plain _ H). reflexivity.
Qed.

Lemma frame_awaiting t D w :
  runs w = [newRun D] -> rafQueue w = [(0, FrameCallback)] ->
  lookAhead t D = false ->
  rec (fst (animationFrame t w)) = rec w /\
  runs (fst (animationFrame t w)) = [newRun D] /\
  rafQueue (fst (animationFrame t w)) = [(0, FrameCallback)] /\
  snd (animationFrame t w) = [RequestAnimationFrame 0 FrameCallback].
Proof.
  intros Hr Hq Hc. frame_step Hr Hq. rewrite Hc. frame_simpl.
  repeat split; reflexivity.
Qed.

Lemma frame_start t D w :
  runs w = [newRun D] -> rafQueue w = [(0, FrameCallback)] ->
  lookAhead t D = true ->
  runs (fst (animationFrame t w)) = [armedRun D] /\
  rafQueue (fst (animationFrame t w)) = [(0, FrameCallback)] /\
  snd (animationFrame t w) =
    Invoke "startRecording" :: snd (startRecording (rec w)) ++
    [RequestAnimationFrame 0 FrameCallback].
Proof.
  intros Hr Hq Hc. frame_step Hr Hq. rewrite Hc. frame_simpl.
  rewrite app_nil_r.
  split; [reflexivity|]. split; [|reflexivity].
  now rewrite (rafRequests_method_then startRecording)
    by apply startRecording_plain.
Qed.

Lemma frame_armed t D w :
  runs w = [armedRun D] -> rafQueue w = [(0, FrameCallback)] ->
  runs (fst (animationFrame t w)) = [countingRun D 0] /\
  rafQueue (fst (animationFrame t w)) = [(0, FrameCallback)] /\
  snd (animationFrame t w) = [RequestAnimationFrame 0 FrameCallback].
Proof.
  intros Hr Hq. frame_step Hr Hq. repeat split; reflexivity.
Qed.

Lemma frame_counting t D k w :
  runs w = [countingRun D k] -> rafQueue w = [(0, FrameCallback)] ->
  let due := lookAhead t D && Nat.ltb settleThreshold (S k) in
  runs (fst (animationFrame t w)) = [countingRun D (S k)] /\
  rafQueue (fst (animationFrame t w)) =
    (if due then [(0, StopCallback); (0, FrameCallback)]
     else [(0, FrameCallback)]) /\
  snd (animationFrame t w) =
    (if due then [RequestAnimationFrame 0 StopCallback;
                  RequestAnimationFrame 0 FrameCallback]
     else [RequestAnimationFrame 0 FrameCallback]).
Proof.
  intros Hr Hq due. subst due. frame_step Hr Hq.
  destruct (lookAhead t D && Nat.ltb settleThreshold (S k));
    frame_simpl; repeat split; reflexivity.
Qed.

Lemma frame_stopping t D k w :
  runs w = [countingRun D k] ->
  rafQueue w = [(0, StopCallback); (0, FrameCallback)] ->
  let due := lookAhead t D && Nat.ltb settleThreshold (S k) in
  runs (fst (animationFrame t w)) = [doneRun D (S k)] /\
  rafQueue (fst (animationFrame t w)) =
    (if due then [(0, StopCallback)] else []) /\
  snd (animationFrame t w) =
    Invoke "stopRecording" :: snd (stopRecording (rec w)) ++
    (if due then [RequestAnimationFrame 0 StopCallback] else []).
Proof.
  intros Hr Hq due. subst due. frame_step Hr Hq.
  unfold frameCallback, frameBody. frame_simpl.
  destruct (lookAhead t D && Nat.ltb settleThreshold (S k));
    frame_simpl;
    (split; [reflexivity|]); (split; [|reflexivity]);
    now rewrite (rafRequests_method_then stopRecording)
      by apply stopRecording_plain.
Qed.

Lemma frame_done_stop t D k w :
  runs w = [doneRun D k] -> rafQueue w = [(0, StopCallback)] ->
  runs (fst (animationFrame t w)) = [doneRun D k] /\
  rafQueue (fst (animationFrame t w)) = [] /\
  snd (animationFrame t w) =
    Invoke "stopRecording" :: snd (stopRecording (rec w)).
Proof.
  intros Hr Hq. frame_step Hr Hq. rewrite ?app_nil_r.
  split; [reflexivity|]. split; [|reflexivity].
  rewrite <- (app_nil_r (snd (stopRecording (rec w)))).
  now rewrite (rafRequests_method_then stopRecording)
    by apply stopRecording_plain.
Qed.

Lemma frame_done_idle t D k w :
  runs w = [doneRun D k] -> rafQueue w = [] ->
  runs (fst (animationFrame t w)) = [doneRun D k] /\
  rafQueue (fst (animationFrame t w)) = [] /\
  snd (animationFrame t w) = [].
Proof.
  intros Hr Hq. frame_step Hr Hq. repeat split; assumption || reflexivity.
Qed.

Section FrameLoop.

Variable times : nat -> Q.
Variable D : Q.
Variable w0 : World.
Variable s : nat.
Hypothesis Hrun : runStarted D w0.
Hypothesis Hfirst : firstLookAhead times D s.

Lemma phase_step n w :
  phaseAt D (rec w0) s n w ->
  phaseAt D (rec w0) s (S n) (fst (animationFrame (times n) w)).
Proof.
  intros [Hn Hrec Hr Hq | Hn Hr Hq | k Hn Hr Hq | k Hn Hk Hr Hq | k Hn Hr Hq].
  - destruct (Nat.eq_dec n s) as [->|Hne].
    + destruct (frame_start (times s) D w Hr Hq (proj1 Hfirst)) as (H1 & H2 & _).
      now apply ArmedAfterStart.
    + assert (lookAhead (times n) D = false) as Hc
        by (apply (proj2 Hfirst); lia).
      destruct (frame_awaiting (times n) D w Hr Hq Hc) as (H0 & H1 & H2 & _).
      apply AwaitingLoopStart; [lia | congruence | assumption | assumption].
  - destruct (frame_armed (times n) D w Hr Hq) as (H1 & H2 & _).
    apply (CountingSettleFrames D (rec w0) s (S n) _ 0); [lia | assumption | assumption].
  - destruct (frame_counting (times n) D k w Hr Hq) as (H1 & H2 & _).
    destruct (lookAhead (times n) D && Nat.ltb settleThreshold (S k)) eqn:Hdue.
    + apply andb_true_iff in Hdue as [_ Hlt]. apply Nat.ltb_lt in Hlt.
      apply (StopScheduled D (rec w0) s (S n) _ (S k));
        [lia | assumption | assumption | assumption].
    + apply (CountingSettleFrames D (rec w0) s (S n) _ (S k));
        [lia | assumption | assumption].
  - destruct (frame_stopping (times n) D k w Hr Hq) as (H1 & H2 & _).
    apply (Done D (rec w0) s (S n) _ (S k)); [lia | assumption |].
    destruct (lookAhead (times n) D && Nat.ltb settleThreshold (S k));
      [left | right]; assumption.
  - destruct Hq as [Hq | Hq].
    + destruct (frame_done_stop (times n) D k w Hr Hq) as (H1 & H2 & _).
      apply (Done D (rec w0) s (S n) _ k); [lia | assumption | now right].
    + destruct (frame_done_idle (times n) D k w Hr Hq) as (H1 & H2 & _).
      apply (Done D (rec w0) s (S n) _ k); [lia | assumption | now right].
Qed.

Lemma phases n : phaseAt D (rec w0) s n (worldBefore times w0 n).
Proof.
  induction n as [|n IH].
  - destruct Hrun as [Hr Hq].
    apply AwaitingLoopStart; [lia | reflexivity | assumption | assumption].
  - simpl. now apply phase_step.
Qed.

(** What a frame can do, by phase. *)
Lemma phase_effects n w :
  phaseAt D (rec w0) s n w ->
  (In (Invoke "startRecording") (snd (animationFrame (times n) w)) -> n = s) /\
  (In (RequestAnimationFrame 0 StopCallback) (snd (animationFrame (times n) w)) ->
   s + (settleThreshold + 2) <= n /\ lookAhead (times n) D = true) /\
  (In (Invoke "stopRecording") (snd (animationFrame (times n) w)) ->
   In (0, StopCallback) (rafQueue w)).
Proof.
  intros [Hn Hrec Hr Hq | Hn Hr Hq | k Hn Hr Hq | k Hn Hk Hr Hq | k Hn Hr Hq].
  - destruct (lookAhead (times n) D) eqn:Hc.
    + destruct (frame_start (times n) D w Hr Hq Hc) as (_ & _ & ->).
      assert (n = s) as ->.
      { destruct (Nat.eq_dec n s) as [|Hne]; [assumption|].
        rewrite (proj2 Hfirst n) in Hc by lia. discriminate Hc. }
      pose proof (startRecording_plain (rec w)) as Hp.
      split; [reflexivity|]. split.
      * intros [H | H]; [discriminate H|].
        apply in_app_or in H as [H | [H | []]]; [|discriminate H].
        now apply plain_not_raf in H.
      * intros [H | H]; [discriminate H|].
        apply in_app_or in H as [H | [H | []]]; [|discriminate H].
        now apply plain_not_invoke in H.
    + destruct (frame_awaiting (times n) D w Hr Hq Hc) as (_ & _ & _ & ->).
      split; [|split]; intros [H | []]; discriminate H.
  - destruct (frame_armed (times n) D w Hr Hq) as (_ & _ & ->).
    split; [|split]; intros [H | []]; discriminate H.
  - destruct (frame_counting (times n) D k w Hr Hq) as (_ & _ & ->).
    destruct (lookAhead (times n) D && Nat.ltb settleThreshold (S k)) eqn:Hdue.
    + apply andb_true_iff in Hdue as [Hc Hlt]. apply Nat.ltb_lt in Hlt.
      unfold settleThreshold in *.
      split; [intros [H | [H | []]]; discriminate H|].
      split; [intros _; split; [lia | exact Hc]|].
      intros [H | [H | []]]; discriminate H.
    + split; [|split]; intros [H | []]; discriminate H.
  - destruct (frame_stopping (times n) D k w Hr Hq) as (_ & _ & ->).
    pose proof (stopRecording_plain (rec w)) as Hp.
    split; [|split].
    + intros [H | H]; [discriminate H|].
      apply in_app_or in H as [H | H]; [now apply plain_not_invoke in H|].
      destruct (lookAhead (times n) D && Nat.ltb settleThreshold (S k));
        [destruct H as [H | []]; discriminate H | destruct H].
    + intros [H | H]; [discriminate H|].
      apply in_app_or in H as [H | H]; [now apply plain_not_raf in H|].
      destruct (lookAhead (times n) D && Nat.ltb settleThreshold (S k)) eqn:Hdue;
        [|destruct H].
      apply andb_true_iff in Hdue as [Hc _].
      unfold settleThreshold in *. split; [lia | exact Hc].
    + intros _. rewrite Hq. now left.
  - destruct Hq as [Hq | Hq].
    + destruct (frame_done_stop (times n) D k w Hr Hq) as (_ & _ & ->).
      pose proof (stopRecording_plain (rec w)) as Hp.
      split; [|split].
      * intros [H | H]; [discriminate H | now apply plain_not_invoke in H].
      * intros [H | H]; [discriminate H | now apply plain_not_raf in H].
      * intros _. rewrite Hq. now left.
    + destruct (frame_done_idle (times n) D k w Hr Hq) as (_ & _ & ->).
      split; [|split]; intros [].
Qed.

Lemma before_start n :
  n <= s ->
  rec (worldBefore times w0 n) = rec w0 /\
  runs (worldBefore times w0 n) = [newRun D] /\
  rafQueue (worldBefore times w0 n) = [(0, FrameCallback)].
Proof.
  intros Hle.
  destruct (phases n) as [_ ? ? ? | Hn _ _ | k Hn _ _ | k Hn _ _ _ | k Hn _ _];
    [auto | lia ..].
Qed.

Lemma effects_at_start :
  effectsAt times w0 s =
    Invoke "startRecording" :: snd (startRecording (rec w0)) ++
    [RequestAnimationFrame 0 FrameCallback].
Proof.
  unfold effectsAt.
  destruct (before_start s (Nat.le_refl s)) as (Hrec & Hr & Hq).
  destruct (frame_start (times s) D _ Hr Hq (proj1 Hfirst)) as (_ & _ & ->).
  now rewrite Hrec.
Qed.

Lemma armed_after_start :
  runs (worldBefore times w0 (S s)) = [armedRun D] /\
  rafQueue (worldBefore times w0 (S s)) = [(0, FrameCallback)].
Proof.
  destruct (before_start s (Nat.le_refl s)) as (_ & Hr & Hq).
  destruct (frame_start (times s) D _ Hr Hq (proj1 Hfirst)) as (H1 & H2 & _).
  simpl. split; assumption.
Qed.

Section UntilStop.

Variable q : nat.
Hypothesis Hquiet :
  forall k, s + (settleThreshold + 2) <= k < q -> lookAhead (times k) D = false.

Lemma counting_until d :
  s + 2 + d <= q ->
  runs (worldBefore times w0 (s + 2 + d)) = [countingRun D d] /\
  rafQueue (worldBefore times w0 (s + 2 + d)) = [(0, FrameCallback)].
Proof.
  induction d as [|d IH]; intros Hle.
  - replace (s + 2 + 0) with (S (S s)) by lia.
    destruct armed_after_start as [Hr Hq].
    destruct (frame_armed (times (S s)) D _ Hr Hq) as (H1 & H2 & _).
    change (worldBefore times w0 (S (S s)))
      with (fst (animationFrame (times (S s)) (worldBefore times w0 (S s)))).
    split; assumption.
  - destruct IH as [Hr Hq]; [lia|].
    replace (s + 2 + S d) with (S (s + 2 + d)) by lia.
    change (worldBefore times w0 (S (s + 2 + d)))
      with (fst (animationFrame (times (s + 2 + d))
                   (worldBefore times w0 (s + 2 + d)))).
    destruct (frame_counting (times (s + 2 + d)) D d _ Hr Hq) as (H1 & H2 & _).
    assert (lookAhead (times (s + 2 + d)) D && Nat.ltb settleThreshold (S d)
            = false) as Hdue.
    { destruct (Nat.ltb settleThreshold (S d)) eqn:Hlt;
        [|apply andb_false_r].
      apply Nat.ltb_lt in Hlt. unfold settleThreshold in *.
      rewrite Hquiet; [reflexivity|].
      unfold settleThreshold. lia. }
    rewrite Hdue in H2. split; assumption.
Qed.

Lemma queue_until m :
  m <= q -> rafQueue (worldBefore times w0 m) = [(0, FrameCallback)].
Proof.
  intros Hle.
  destruct (Nat.le_gt_cases m s) as [H | H].
  - now destruct (before_start m H) as (_ & _ & ?).
  - destruct (Nat.eq_dec m (S s)) as [-> | Hne].
    + now destruct armed_after_start.
    + replace m with (s + 2 + (m - s - 2)) in * by lia.
      now destruct (counting_until (m - s - 2) Hle).
Qed.

End UntilStop.

End FrameLoop.

(* ------------------------------------------------------------------ *)
(** ** Start and stop frames of a run *)


Ltac first_frames k :=
  do 15 (destruct k as [|k]; [try lia; try reflexivity|]); lia.

Lemma loopWorld_started : runStarted loopDuration loopWorld.
Proof. split; reflexivity. Qed.

Lemma loopTimes_first : firstLookAhead loopTimes loopDuration 0.
Proof. split; [reflexivity | intros m Hm; lia]. Qed.


(** The clock of the fifteen-frame clip advances by 1/60 and wraps. *)
Lemma succ_mod_15 m :
  (m mod 15 = 14 /\ S m mod 15 = 0) \/
  (m mod 15 < 14 /\ S m mod 15 = S (m mod 15)).
Proof.
  pose proof (Nat.div_mod_eq m 15) as Hdm.
  pose proof (Nat.mod_upper_bound m 15 ltac:(lia)) as Hub.
  destruct (Nat.eq_dec (m mod 15) 14) as [E | E].
  - left. split; [exact E|].
    symmetry. apply (Nat.mod_unique (S m) 15 (S (m / 15)) 0); lia.
  - right. split; [lia|].
    symmetry. apply (Nat.mod_unique (S m) 15 (m / 15) (S (m mod 15))); lia.
Qed.

Lemma loopTimes_delta : frameDelta60 loopTimes loopDuration.
Proof.
  intros n. unfold loopTimes, loopDuration.
  change (S n + 14) with (S (n + 14)).
  destruct (succ_mod_15 (n + 14)) as [[E1 E2] | [_ E2]]; rewrite E2.
  - right. rewrite E1. reflexivity.
  - left. rewrite Nat2Z.inj_succ. unfold Z.succ. rewrite inject_Z_plus.
    ring.
Qed.


(* ================================================================== *)
(** * Further properties of the controller *)

(** ** Invariants along event sequences *)

Lemma runCallbacks_kept (P : Recorder -> Prop) :
  keptByControls P ->
  forall t q r vs, P r -> P (fst (fst (runCallbacks t q r vs))).
Proof.
  intros (Hstart & Hstop & _) t q.
  induction q as [|[i cb] q IH]; intros r vs HP; simpl; [exact HP|].
  destruct (nth_error vs i) as [v|]; [|now apply IH].
  assert (P (fst (fst (match cb with
                       | FrameCallback => frameCallback i t r v
                       | StopCallback => stopCallback r v
                       end)))) as Hcb.
  { destruct cb; [|unfold stopCallback; simpl; now apply Hstop].
    unfold frameCallback, frameBody.
    pose proof (Hstart r HP) as Hs.
    repeat match goal with
           | |- context [if ?b then _ else _] => destruct b
           end; simpl; assumption. }
  destruct (match cb with
            | FrameCallback => frameCallback i t r v
            | StopCallback => stopCallback r v
            end) as [[r1 v1] e1].
  specialize (IH r1 (updateRun vs i v1) Hcb).
  destruct (runCallbacks t q r1 (updateRun vs i v1)) as [[r2 vs2] e2].
  exact IH.
Qed.

(** Every event but the two MediaRecorder handlers and the set-up of a run
    keeps what the controls keep. *)
Lemma step_kept_controls (P : Recorder -> Prop) ev w :
  keptByControls P ->
  (forall c, ev <> DataAvailable c) -> ev <> Stopped ->
  (forall D, ev <> AvatarReady D) ->
  P (rec w) -> P (rec (fst (step ev w))).
Proof.
  intros Hk Hd Hs Hr HP.
  pose proof Hk as (Hstart & Hstop & Hhide & Hgvrm).
  assert (P (fst (toggleRecording (rec w)))) as Htoggle.
  { unfold toggleRecording. destruct (negb (isSupported (rec w))); [exact HP|].
    destruct (isRecording (rec w)); auto. }
  destruct ev; simpl.
  - exact Htoggle.
  - now apply Hstart.
  - now apply Hstop.
  - now apply Hgvrm.
  - unfold recordAnimation.
    destruct (negb (isSupported (rec w)) || negb (attached (gvrm (rec w))));
      exact HP.
  - unfold whenSupported, onKeydown.
    destruct (isSupported (rec w)); [|exact HP].
    destruct (isKeyR key && negb ctrl && negb alt && negb meta);
      [exact Htoggle | exact HP].
  - unfold avatarChanged. destruct (gvrm (rec w)); [now apply Hgvrm | exact HP].
  - now elim (Hr D).
  - now elim (Hd c).
  - now elim Hs.
  - unfold timerFired. destruct (timers w); [exact HP|].
    simpl. now apply Hhide.
  - unfold animationFrame.
    pose proof (runCallbacks_kept P Hk t (rafQueue w) (rec w) (runs w) HP) as H.
    destruct (runCallbacks t (rafQueue w) (rec w) (runs w)) as [[r1 vs1] e1].
    exact H.
Qed.

Lemma step_kept (P : Recorder -> Prop) ev w :
  keptByControls P -> keptByHandlers P ->
  P (rec w) -> P (rec (fst (step ev w))).
Proof.
  intros Hk (Hpush & Hstop & Hslot) HP.
  destruct ev;
    try (apply step_kept_controls;
         [assumption | discriminate | discriminate | discriminate | assumption]).
  - simpl. unfold recordAnimation_resume.
    destruct (awaiting w); [exact HP|].
    destruct (durationReadable (gvrm (rec w))); [now apply Hslot | exact HP].
  - simpl. unfold whenSupported, ondataavailable.
    destruct (isSupported (rec w)); [|exact HP].
    destruct (Nat.ltb 0 (chunk_size c)); [now apply Hpush | exact HP].
  - simpl. unfold whenSupported.
    destruct (isSupported (rec w)); [now apply Hstop | exact HP].
Qed.

Lemma run_kept (P : Recorder -> Prop) evs :
  keptByControls P -> keptByHandlers P ->
  forall w, P (rec w) -> P (rec (fst (run evs w))).
Proof.
  intros Hk Hh. induction evs as [|e evs IH]; intros w HP; simpl; [exact HP|].
  apply IH. now apply step_kept.
Qed.

Lemma recording_needs_support_kept (flag : bool) :
  let P := fun r => isSupported r = flag /\
                    (isRecording r = true -> isSupported r = true) in
  keptByControls P /\ keptByHandlers P.
Proof.
  split; [split; [|split; [|split]] | split; [|split]].
  - intros r [H1 H2]. revert H1 H2. method_cases r; simpl; auto.
  - intros r [H1 H2]. revert H1 H2. method_cases r; simpl; auto.
  - intros r [H1 H2]. revert H1 H2. method_cases r; simpl; auto.
  - intros g r H. exact H.
  - intros c r H. exact H.
  - intros r. destruct r as [s recg pop opts cl th st slot av].
    destruct slot; simpl; auto.
  - intros p r H. exact H.
Qed.

(** X1: along every event sequence from construction the capability flag
    keeps the value the constructor gave it, and the controller records only
    if it is supported. *)
Theorem recording_needs_support (env : Browser) (evs : list event) :
  let r := rec (fst (run evs (boot env))) in
  isSupported r = hasMediaRecorder env && isTypeSupported env mime_webm /\
  (isRecording r = true -> isSupported r = true).
Proof.
  intros r. subst r.
  destruct (recording_needs_support_kept
              (hasMediaRecorder env && isTypeSupported env mime_webm))
    as [Hk Hh].
  apply (run_kept _ evs Hk Hh). simpl.
  split; [apply constructor_isSupported|].
  destruct (hasMediaRecorder env) eqn:Hmr, (isTypeSupported env mime_webm) eqn:Hw;
    try (unfold constructor; rewrite Hmr, Hw; simpl; discriminate).
  destruct (constructor_supported env Hmr Hw) as (m & _ & ->). reflexivity.
Qed.

Lemma recording_needs_support_witness :
  isRecording (rec (fst (run [Call_toggleRecording] (boot allSupported)))) = true /\
  isSupported (rec (fst (run [Call_toggleRecording] (boot allSupported)))) = true.
Proof.
  split; [reflexivity|].
  exact (proj2 (recording_needs_support allSupported [Call_toggleRecording])
           eq_refl).
Defined.

(** ** Monitors along event sequences *)

Lemma monitor_app {S : Type} (delta : S -> effect -> option S) s a b :
  monitor delta s (a ++ b) =
  match monitor delta s a with
  | Some s' => monitor delta s' b
  | None => None
  end.
Proof.
  revert s. induction a as [|e a IH]; intros s; simpl; [reflexivity|].
  destruct (delta s e); [apply IH | reflexivity].
Qed.

Section Tracking.

Variable S : Type.
Variable delta : S -> effect -> option S.
Variable alpha : Recorder -> S.

Hypothesis Hstart : tracks delta alpha startRecording.
Hypothesis Hstop : tracks delta alpha stopRecording.
Hypothesis Hhide : tracks delta alpha hidePopup.
Hypothesis Honstop : tracks delta alpha onstop.
Hypothesis Hgvrm : forall g r, alpha (set_gvrm g r) = alpha r.
Hypothesis Hslot : forall p r, alpha (set_currentRecordingResolve p r) = alpha r.
Hypothesis Hpush : forall c r, alpha (push_closureChunks c r) = alpha r.
Hypothesis Hinvoke : forall s name, delta s (Invoke name) = Some s.
Hypothesis Hraf : forall s i cb, delta s (RequestAnimationFrame i cb) = Some s.
Hypothesis Hreturn : forall s, delta s ReturnResolved = Some s.
Hypothesis Hawait : forall s url, delta s (AwaitAvatar url) = Some s.
Hypothesis Hreject : forall s, delta s RejectTypeError = Some s.

Lemma toggleRecording_tracks : tracks delta alpha toggleRecording.
Proof.
  intros r. unfold toggleRecording.
  destruct (negb (isSupported r)); [reflexivity|].
  destruct (isRecording r); [apply Hstop | apply Hstart].
Qed.

Lemma frameCallback_tracks i t r v :
  monitor delta (alpha r) (snd (frameCallback i t r v)) =
  Some (alpha (fst (fst (frameCallback i t r v)))).
Proof.
  unfold frameCallback, frameBody.
  pose proof (Hstart r) as Hs.
  repeat match goal with
         | |- context [if ?b then _ else _] => destruct b
         end; simpl;
    rewrite ?Hinvoke, ?monitor_app, ?Hs; simpl; rewrite ?Hraf; auto.
Qed.

Lemma stopCallback_tracks r v :
  monitor delta (alpha r) (snd (stopCallback r v)) =
  Some (alpha (fst (fst (stopCallback r v)))).
Proof.
  unfold stopCallback. simpl. rewrite Hinvoke. apply Hstop.
Qed.

Lemma runCallbacks_tracks t q :
  forall r vs,
    monitor delta (alpha r) (snd (runCallbacks t q r vs)) =
    Some (alpha (fst (fst (runCallbacks t q r vs)))).
Proof.
  induction q as [|[i cb] q IH]; intros r vs; simpl; [reflexivity|].
  destruct (nth_error vs i) as [v|]; [|apply IH].
  assert (monitor delta (alpha r)
            (snd (match cb with
                  | FrameCallback => frameCallback i t r v
                  | StopCallback => stopCallback r v
                  end)) =
          Some (alpha (fst (fst (match cb with
                                 | FrameCallback => frameCallback i t r v
                                 | StopCallback => stopCallback r v
                                 end))))) as Hcb.
  { destruct cb; [apply frameCallback_tracks | apply stopCallback_tracks]. }
  destruct (match cb with
            | FrameCallback => frameCallback i t r v
            | StopCallback => stopCallback r v
            end) as [[r1 v1] e1].
  specialize (IH r1 (updateRun vs i v1)).
  destruct (runCallbacks t q r1 (updateRun vs i v1)) as [[r2 vs2] e2].
  simpl in *. rewrite monitor_app, Hcb. exact IH.
Qed.

Lemma step_tracks ev w :
  monitor delta (alpha (rec w)) (snd (step ev w)) =
  Some (alpha (rec (fst (step ev w)))).
Proof.
  destruct ev; simpl.
  - apply toggleRecording_tracks.
  - apply Hstart.
  - apply Hstop.
  - now rewrite Hgvrm.
  - unfold recordAnimation.
    destruct (negb (isSupported (rec w)) || negb (attached (gvrm (rec w))));
      simpl; [now rewrite Hreturn | now rewrite Hawait].
  - unfold whenSupported, onKeydown.
    destruct (isSupported (rec w)); [|reflexivity].
    destruct (isKeyR key && negb ctrl && negb alt && negb meta);
      [apply toggleRecording_tracks | reflexivity].
  - unfold avatarChanged. destruct (gvrm (rec w)); simpl;
      [now rewrite Hgvrm | reflexivity].
  - unfold recordAnimation_resume. destruct (awaiting w); simpl; [reflexivity|].
    destruct (durationReadable (gvrm (rec w))); simpl.
    + now rewrite !Hinvoke, Hraf, Hslot.
    + now rewrite Hreject.
  - unfold whenSupported, ondataavailable.
    destruct (isSupported (rec w)); [|reflexivity].
    destruct (Nat.ltb 0 (chunk_size c)); simpl; [now rewrite Hpush | reflexivity].
  - unfold whenSupported.
    destruct (isSupported (rec w)); [apply Honstop | reflexivity].
  - unfold timerFired. destruct (timers w); [reflexivity|]. simpl.
    apply (Hhide (rec w)).
  - unfold animationFrame.
    pose proof (runCallbacks_tracks t (rafQueue w) (rec w) (runs w)) as H.
    destruct (runCallbacks t (rafQueue w) (rec w) (runs w)) as [[r1 vs1] e1].
    exact H.
Qed.

Lemma run_tracks evs :
  forall w,
    monitor delta (alpha (rec w)) (allEffects (snd (run evs w))) =
    Some (alpha (rec (fst (run evs w)))).
Proof.
  induction evs as [|e evs IH]; intros w; [reflexivity|].
  simpl. unfold allEffects in *. simpl.
  rewrite monitor_app, step_tracks. apply IH.
Qed.

End Tracking.

(** X2: whatever the events, the commands sent to the MediaRecorder
    alternate: start() is only sent to an inactive recorder and stop() only
    to a recording one, and isRecording is the state the commands leave the
    recorder in. *)
Theorem capture_commands_alternate (evs : list event) (w : World) :
  monitor captureMonitor (isRecording (rec w))
          (allEffects (snd (run evs w))) =
  Some (isRecording (rec (fst (run evs w)))).
Proof.
  apply run_tracks; try reflexivity.
  - intros r. method_cases r; reflexivity.
  - intros r. method_cases r; reflexivity.
  - intros r. method_cases r; reflexivity.
  - intros r. destruct r as [s recg pop opts cl th st slot av].
    destruct slot; reflexivity.
Qed.

(** X3: whatever the events, the document holds at most one popup of the
    controller: a popup is appended only when none is attached, removed only
    when one is, and the popup property holds an element exactly when one is
    attached. *)
Theorem one_popup_at_most (evs : list event) (w : World) :
  monitor popupMonitor (popupShown (rec w))
          (allEffects (snd (run evs w))) =
  Some (popupShown (rec (fst (run evs w)))).
Proof.
  apply run_tracks; try reflexivity.
  - intros r. method_cases r; reflexivity.
  - intros r. method_cases r; reflexivity.
  - intros r. method_cases r; reflexivity.
  - intros r. destruct r as [s recg pop opts cl th st slot av].
    destruct slot; reflexivity.
Qed.

(** ** The store of chunk arrays *)

Lemma length_writeArray st l a : List.length (writeArray st l a) = List.length st.
Proof.
  revert l. induction st as [|x st IH]; intros l; [reflexivity|].
  destruct l; simpl; [reflexivity | now rewrite IH].
Qed.

Lemma readArray_writeArray_same st l a :
  l < List.length st -> readArray (writeArray st l a) l = a.
Proof.
  unfold readArray. revert l.
  induction st as [|x st IH]; intros l Hl; simpl in Hl; [lia|].
  destruct l; simpl; [reflexivity | apply IH; lia].
Qed.

Lemma readArray_writeArray_other st l l' a :
  l <> l' -> readArray (writeArray st l a) l' = readArray st l'.
Proof.
  unfold readArray. revert l l'.
  induction st as [|x st IH]; intros l l' Hne; [reflexivity|].
  destruct l, l'; simpl; try reflexivity; [congruence | apply IH; congruence].
Qed.

Lemma readArray_fresh st : readArray (st ++ [[]]) (List.length st) = [].
Proof.
  unfold readArray. rewrite app_nth2 by apply Nat.le_refl.
  now rewrite Nat.sub_diag.
Qed.

Lemma readArray_grown st l : readArray (st ++ [[]]) l = readArray st l.
Proof. exact (readArray_newArray st l). Qed.

(** What the two handlers do to the buffer. *)
Lemma push_bufferedChunks c r :
  validStore r ->
  bufferedChunks (push_closureChunks c r) = bufferedChunks r ++ [c] /\
  validStore (push_closureChunks c r).
Proof.
  intros [Hc Ht]. unfold bufferedChunks, validStore, push_closureChunks. simpl.
  rewrite length_writeArray.
  split; [now apply readArray_writeArray_same | split; assumption].
Qed.

Lemma onstop_bufferedChunks r :
  validStore r ->
  bufferedChunks (fst (onstop r)) = [] /\ validStore (fst (onstop r)).
Proof.
  intros [Hc Ht]. destruct r as [s recg pop opts cl th st slot av].
  unfold bufferedChunks, validStore in *. simpl in *.
  destruct slot; simpl; rewrite length_app; simpl;
    (split; [apply readArray_fresh | split; lia]).
Qed.

(** The controls leave the buffer, the validity of the store and the
    capability flag as they are. *)
Lemma buffer_kept_by_controls (b : list chunk) :
  keptByControls (fun r => isSupported r = true /\ validStore r /\
                           bufferedChunks r = b).
Proof.
  unfold validStore, bufferedChunks.
  split; [|split; [|split]].
  - intros r (Hs & [Hc Ht] & Hb).
    rewrite startRecording_keeps_closure_buffer.
    split; [|split; [|exact Hb]].
    + revert Hs. method_cases r; simpl; auto.
    + revert Hc Ht. method_cases r; simpl; rewrite ?length_app; simpl; lia.
  - intros r. method_cases r; simpl; auto.
  - intros r. method_cases r; simpl; auto.
  - intros g r H. exact H.
Qed.

Lemma downloads_cons ev effs tr :
  downloads ((ev, effs) :: tr) = downloads [(ev, effs)] ++ downloads tr.
Proof.
  unfold downloads, allEffects. simpl. rewrite app_nil_r.
  apply flat_map_app.
Qed.

Lemma downloads_quiet ev effs : Forall quiet effs -> downloads [(ev, effs)] = [].
Proof.
  unfold downloads, allEffects. simpl. rewrite app_nil_r.
  induction 1 as [|e l He _ IH]; [reflexivity|].
  simpl. rewrite IH. destruct e; simpl in *; try reflexivity; contradiction.
Qed.

Lemma downloads_refine evs :
  forall w,
    isSupported (rec w) = true -> validStore (rec w) ->
    downloads (snd (run evs w)) = assembled (bufferedChunks (rec w)) evs.
Proof.
  induction evs as [|e evs IH]; intros w Hs Hv; [reflexivity|].
  cbn [run snd]. rewrite downloads_cons.
  assert ((forall c, e <> DataAvailable c) -> e <> Stopped ->
          (forall D', e <> AvatarReady D') ->
          downloads [(e, snd (step e w))] ++ downloads (snd (run evs (fst (step e w))))
          = assembled (bufferedChunks (rec w)) evs) as Hother.
  { intros H1 H2 H3.
    rewrite downloads_quiet by (apply step_quiet; exact H2).
    destruct (step_kept_controls _ e w
                (buffer_kept_by_controls (bufferedChunks (rec w)))
                H1 H2 H3 (conj Hs (conj Hv eq_refl)))
      as (Hs' & Hv' & Hb').
    rewrite (IH _ Hs' Hv'), Hb'. reflexivity. }
  destruct e; try (simpl assembled; apply Hother; intros; congruence).
  - (* AvatarReady *)
    simpl assembled.
    rewrite downloads_quiet by (apply step_quiet; discriminate).
    assert (rec (fst (step (AvatarReady D) w)) = rec w \/
            exists p, rec (fst (step (AvatarReady D) w)) =
                      set_currentRecordingResolve (Some p) (rec w)) as Hrec.
    { simpl. unfold recordAnimation_resume.
      destruct (awaiting w); [|destruct (durationReadable (gvrm (rec w)))];
        simpl; eauto. }
    rewrite IH.
    + destruct Hrec as [-> | [p ->]]; reflexivity.
    + destruct Hrec as [-> | [p ->]]; exact Hs.
    + destruct Hrec as [-> | [p ->]]; exact Hv.
  - (* DataAvailable *)
    simpl assembled.
    rewrite downloads_quiet by (apply step_quiet; discriminate).
    assert (rec (fst (step (DataAvailable c) w)) =
            if Nat.ltb 0 (chunk_size c) then push_closureChunks c (rec w)
            else rec w) as Hrec.
    { simpl. unfold whenSupported, ondataavailable. rewrite Hs.
      destruct (Nat.ltb 0 (chunk_size c)); reflexivity. }
    destruct (push_bufferedChunks c (rec w) Hv) as [Hb Hv'].
    rewrite IH; rewrite Hrec.
    + destruct (Nat.ltb 0 (chunk_size c)); [now rewrite Hb | reflexivity].
    + destruct (Nat.ltb 0 (chunk_size c)); exact Hs.
    + destruct (Nat.ltb 0 (chunk_size c)); assumption.
  - (* Stopped *)
    simpl assembled.
    destruct (onstop_bufferedChunks (rec w) Hv) as [Hb Hv'].
    assert (isSupported (rec (fst (step Stopped w))) = true) as Hs'.
    { simpl. unfold whenSupported. rewrite Hs. simpl.
      destruct (rec w) as [s recg pop opts cl th st slot av].
      destruct slot; exact Hs. }
    assert (rec (fst (step Stopped w)) = fst (onstop (rec w))) as Hrec.
    { simpl. unfold whenSupported. now rewrite Hs. }
    rewrite IH; [|exact Hs' | now rewrite Hrec].
    rewrite Hrec, Hb.
    unfold downloads, allEffects. cbn [flat_map snd]. rewrite app_nil_r.
    rewrite step_stopped, Hs. fold (bufferedChunks (rec w)).
    destruct (currentRecordingResolve (rec w)); reflexivity.
Qed.

(** X4: on a supported controller every downloaded artifact holds exactly
    the non-empty chunks delivered since the previous finalization (or since
    construction), in delivery order; empty chunks are dropped, and no call
    of startRecording, stopRecording or toggleRecording in between changes
    that. *)
Theorem artifacts_hold_delivered_chunks (env : Browser) (evs : list event) :
  isSupported (fst (constructor env)) = true ->
  downloads (snd (run evs (boot env))) = assembled [] evs.
Proof.
  intros Hs.
  pose proof Hs as Hs'. rewrite constructor_isSupported in Hs'.
  apply andb_true_iff in Hs' as [Hmr Hw].
  destruct (constructor_supported env Hmr Hw) as (m & _ & Hr).
  rewrite (downloads_refine evs (boot env)).
  - unfold bufferedChunks, boot. simpl. rewrite Hr. reflexivity.
  - exact Hs.
  - unfold boot, validStore. simpl. rewrite Hr. simpl. lia.
Qed.

Lemma artifacts_hold_delivered_chunks_witness :
  isSupported (fst (constructor allSupported)) = true /\
  downloads (snd (run [DataAvailable "a"; DataAvailable EmptyString;
                       Call_startRecording; DataAvailable "b"; Stopped;
                       DataAvailable "c"; Stopped; Stopped]
                      (boot allSupported))) =
    [["a"; "b"]; ["c"]; []].
Proof.
  split; [reflexivity|].
  rewrite (artifacts_hold_delivered_chunks allSupported _ eq_refl).
  reflexivity.
Defined.

(** ** The property this.recordedChunks *)

Lemma startRecording_store r :
  closureChunks (fst (startRecording r)) = closureChunks r /\
  ((arrays (fst (startRecording r)) = arrays r /\
    thisChunks (fst (startRecording r)) = thisChunks r /\
    (isSupported r = false \/ isRecording r = true)) \/
   (arrays (fst (startRecording r)) = arrays r ++ [[]] /\
    thisChunks (fst (startRecording r)) = List.length (arrays r))).
Proof.
  method_cases r; simpl; (split; [reflexivity|]);
    first [ left; split; [reflexivity|]; split; [reflexivity|];
            first [left; reflexivity | right; reflexivity]
          | right; split; reflexivity ].
Qed.

Lemma stopRecording_store r :
  closureChunks (fst (stopRecording r)) = closureChunks r /\
  arrays (fst (stopRecording r)) = arrays r /\
  thisChunks (fst (stopRecording r)) = thisChunks r.
Proof. method_cases r; simpl; auto. Qed.

Lemma hidePopup_store r :
  closureChunks (fst (hidePopup r)) = closureChunks r /\
  arrays (fst (hidePopup r)) = arrays r /\
  thisChunks (fst (hidePopup r)) = thisChunks r.
Proof. method_cases r; simpl; auto. Qed.

Lemma onstop_store r :
  closureChunks (fst (onstop r)) = List.length (arrays r) /\
  arrays (fst (onstop r)) = arrays r ++ [[]] /\
  thisChunks (fst (onstop r)) = thisChunks r /\
  isSupported (fst (onstop r)) = isSupported r.
Proof.
  destruct r as [s recg pop opts cl th st slot av]. destruct slot; simpl; auto.
Qed.

Lemma supported_valid_kept :
  let P := fun r => isSupported r = true /\ validStore r in
  keptByControls P /\ keptByHandlers P.
Proof.
  unfold validStore.
  split; [split; [|split; [|split]] | split; [|split]].
  - intros r (Hs & Hc & Ht).
    destruct (startRecording_store r) as (E1 & [(E2 & E3 & _) | (E2 & E3)]);
      rewrite E1, E2, E3, ?length_app; simpl;
      (split; [revert Hs; method_cases r; simpl; auto | lia]).
  - intros r (Hs & Hc & Ht).
    destruct (stopRecording_store r) as (-> & -> & ->).
    split; [revert Hs; method_cases r; simpl; auto | auto].
  - intros r (Hs & Hc & Ht).
    destruct (hidePopup_store r) as (-> & -> & ->).
    split; [revert Hs; method_cases r; simpl; auto | auto].
  - intros g r H. exact H.
  - intros c r (Hs & Hv). split; [exact Hs|].
    exact (proj2 (push_bufferedChunks c r Hv)).
  - intros r (Hs & Hv).
    destruct (onstop_store r) as (_ & _ & _ & E).
    split; [now rewrite E | exact (proj2 (onstop_bufferedChunks r Hv))].
  - intros p r H. exact H.
Qed.

Lemma boot_supported_valid env :
  isSupported (fst (constructor env)) = true ->
  isSupported (rec (boot env)) = true /\ validStore (rec (boot env)) /\
  thisChunks (rec (boot env)) = closureChunks (rec (boot env)) /\
  bufferedChunks (rec (boot env)) = [].
Proof.
  intros Hs. pose proof Hs as Hs'. rewrite constructor_isSupported in Hs'.
  apply andb_true_iff in Hs' as [Hmr Hw].
  destruct (constructor_supported env Hmr Hw) as (m & _ & Hr).
  unfold boot, validStore, bufferedChunks. simpl. rewrite Hr. simpl.
  repeat split; lia.
Qed.

Lemma detached_property_kept :
  let P := fun r => validStore r /\ thisChunks r <> closureChunks r /\
                    propertyChunks r = [] in
  keptByControls P /\ keptByHandlers P.
Proof.
  unfold validStore, propertyChunks.
  split; [split; [|split; [|split]] | split; [|split]].
  - intros r ((Hc & Ht) & Hne & Hp).
    destruct (startRecording_store r) as (E1 & [(E2 & E3 & _) | (E2 & E3)]);
      rewrite E1, E2, E3, ?length_app; simpl.
    + auto.
    + split; [lia|]. split; [lia | apply readArray_fresh].
  - intros r H. now destruct (stopRecording_store r) as (-> & -> & ->).
  - intros r H. now destruct (hidePopup_store r) as (-> & -> & ->).
  - intros g r H. exact H.
  - intros c r ((Hc & Ht) & Hne & Hp). unfold push_closureChunks. simpl.
    rewrite length_writeArray.
    split; [auto|]. split; [exact Hne|].
    rewrite readArray_writeArray_other by congruence. exact Hp.
  - intros r ((Hc & Ht) & Hne & Hp).
    destruct (onstop_store r) as (-> & -> & -> & _).
    rewrite length_app. simpl.
    split; [lia|]. split; [lia|]. now rewrite readArray_grown.
  - intros p r H. exact H.
Qed.

Lemma run_app a :
  forall b w, fst (run (a ++ b) w) = fst (run b (fst (run a w))).
Proof.
  induction a as [|e a IH]; intros b w; [reflexivity|]. simpl. apply IH.
Qed.

Lemma deliveries_fill_both cs :
  forall w,
    isSupported (rec w) = true -> validStore (rec w) ->
    thisChunks (rec w) = closureChunks (rec w) ->
    propertyChunks (rec (fst (run (map DataAvailable cs) w))) =
    bufferedChunks (rec w) ++
    filter (fun c => Nat.ltb 0 (chunk_size c)) cs.
Proof.
  induction cs as [|c cs IH]; intros w Hs Hv Ha.
  - simpl. rewrite app_nil_r. unfold propertyChunks, bufferedChunks.
    now rewrite Ha.
  - cbn [map run fst].
    assert (rec (fst (step (DataAvailable c) w)) =
            if Nat.ltb 0 (chunk_size c) then push_closureChunks c (rec w)
            else rec w) as Hrec.
    { simpl. unfold whenSupported, ondataavailable. rewrite Hs.
      destruct (Nat.ltb 0 (chunk_size c)); reflexivity. }
    destruct (push_bufferedChunks c (rec w) Hv) as [Hb Hv'].
    rewrite IH; rewrite Hrec; cbn [filter];
      destruct (Nat.ltb 0 (chunk_size c)); try assumption.
    + rewrite Hb, <- app_assoc. reflexivity.
    + reflexivity.
Qed.

(** X5: the property this.recordedChunks is the very array the handlers
    fill only until the first effective startRecording: chunks delivered
    right after construction show through it, but once startRecording has
    taken effect the property reads empty and stays empty whatever happens
    afterwards: no chunk ever reaches it again. *)
Theorem recordedChunks_property_detached
  (env : Browser) (cs : list chunk) (pre post : list event) :
  isSupported (fst (constructor env)) = true ->
  propertyChunks (rec (fst (run (map DataAvailable cs) (boot env)))) =
    filter (fun c => Nat.ltb 0 (chunk_size c)) cs /\
  (isRecording (rec (fst (run pre (boot env)))) = false ->
   propertyChunks
     (rec (fst (run (pre ++ Call_startRecording :: post) (boot env)))) = []).
Proof.
  intros Hs.
  destruct (boot_supported_valid env Hs) as (Hs0 & Hv0 & Ha0 & Hb0).
  split.
  - rewrite (deliveries_fill_both cs (boot env) Hs0 Hv0 Ha0), Hb0. reflexivity.
  - intros Hidle.
    destruct supported_valid_kept as [Hk1 Hh1].
    destruct (run_kept _ pre Hk1 Hh1 (boot env) (conj Hs0 Hv0)) as [Hs1 Hv1].
    rewrite run_app. cbn [run fst].
    set (w1 := fst (run pre (boot env))) in *.
    destruct detached_property_kept as [Hk2 Hh2].
    refine (proj2 (proj2 (run_kept _ post Hk2 Hh2 _ _))).
    simpl. destruct Hv1 as [Hc Ht].
    destruct (startRecording_store (rec w1))
      as (E1 & [(_ & _ & [E | E]) | (E2 & E3)]); try congruence.
    unfold validStore, propertyChunks. rewrite E1, E2, E3, length_app. simpl.
    split; [lia|]. split; [lia | apply readArray_fresh].
Qed.

Lemma recordedChunks_property_detached_witness :
  isSupported (fst (constructor allSupported)) = true /\
  isRecording (rec (fst (run [DataAvailable "a"] (boot allSupported)))) = false /\
  propertyChunks
    (rec (fst (run ([DataAvailable "a"] ++ Call_startRecording ::
                    [DataAvailable "b"]) (boot allSupported)))) = [] /\
  bufferedChunks
    (rec (fst (run ([DataAvailable "a"] ++ Call_startRecording ::
                    [DataAvailable "b"]) (boot allSupported)))) = ["a"; "b"].
Proof.
  split; [reflexivity|]. split; [reflexivity|].
  split; [|reflexivity].
  exact (proj2 (recordedChunks_property_detached allSupported []
                  [DataAvailable "a"] [DataAvailable "b"] eq_refl) eq_refl).
Defined.

(** ** The hide timer of stopRecording *)

(** X6: the hide timer armed by stopRecording is not cancelled by a later
    startRecording: on a supported idle controller, start, stop, start and
    then the expiry of the timer leave the controller recording with no
    popup in the document, the recording indicator having been removed by
    the timer of the previous stop. *)
Theorem hide_timer_removes_recording_indicator (w : World) :
  isSupported (rec w) = true ->
  isRecording (rec w) = false ->
  let tr := run [Call_startRecording; Call_stopRecording;
                 Call_startRecording; TimerFired] w in
  isRecording (rec (fst tr)) = true /\
  popup (rec (fst tr)) = None /\
  nth 3 (snd tr) (TimerFired, []) = (TimerFired, [PopupRemove]).
Proof.
  intros Hs Hr.
  destruct w as [r vs q aw tm np].
  destruct r as [s recg pop opts cl th st slot av].
  simpl in Hs, Hr. subst s recg.
  destruct pop; cbn -[timerFired Nat.add];
    unfold timerFired; cbn [timers];
    replace (tm + 0 + 1 + 0) with (S tm) by lia;
    cbn; auto.
Qed.

Lemma hide_timer_removes_recording_indicator_witness :
  isSupported (rec (boot allSupported)) = true /\
  isRecording (rec (boot allSupported)) = false /\
  isRecording (rec (fst (run [Call_startRecording; Call_stopRecording;
                              Call_startRecording; TimerFired]
                             (boot allSupported)))) = true /\
  popup (rec (fst (run [Call_startRecording; Call_stopRecording;
                        Call_startRecording; TimerFired]
                       (boot allSupported)))) = None.
Proof.
  split; [reflexivity|]. split; [reflexivity|].
  destruct (hide_timer_removes_recording_indicator (boot allSupported)
              eq_refl eq_refl) as (H1 & H2 & _).
  split; assumption.
Defined.

(** ** startRecording on the sessions the MediaRecorder allows *)

Lemma step_buffer_kept ev w :
  (forall c, ev <> DataAvailable c) -> ev <> Stopped ->
  isSupported (rec w) = true -> validStore (rec w) ->
  isSupported (rec (fst (step ev w))) = true /\
  validStore (rec (fst (step ev w))) /\
  bufferedChunks (rec (fst (step ev w))) = bufferedChunks (rec w).
Proof.
  intros Hd Hst Hs Hv.
  destruct ev;
    try (apply (step_kept_controls _ _ w
                  (buffer_kept_by_controls (bufferedChunks (rec w))));
         [exact Hd | exact Hst | discriminate | auto]).
  - simpl. unfold recordAnimation_resume.
    destruct (awaiting w); [auto|].
    destruct (durationReadable (gvrm (rec w))); auto.
Qed.

Lemma step_delivery w c :
  isSupported (rec w) = true -> validStore (rec w) ->
  isSupported (rec (fst (step (DataAvailable c) w))) = true /\
  validStore (rec (fst (step (DataAvailable c) w))).
Proof.
  intros Hs Hv. simpl. unfold whenSupported, ondataavailable. rewrite Hs.
  destruct (Nat.ltb 0 (chunk_size c)); simpl; [|auto].
  split; [exact Hs | now apply push_bufferedChunks].
Qed.

Lemma step_finalization w :
  isSupported (rec w) = true -> validStore (rec w) ->
  isSupported (rec (fst (step Stopped w))) = true /\
  validStore (rec (fst (step Stopped w))) /\
  bufferedChunks (rec (fst (step Stopped w))) = [].
Proof.
  intros Hs Hv. simpl. unfold whenSupported. rewrite Hs.
  destruct (onstop_bufferedChunks (rec w) Hv) as [Hb Hv'].
  split; [|split; assumption].
  destruct (supported_valid_kept) as [_ (_ & Hstop & _)].
  now destruct (Hstop (rec w) (conj Hs Hv)).
Qed.

(** When the data is delivered on stop only, the buffer of the handlers is
    empty between the finalizations. *)
Lemma buffer_empty_between_finalizations evs :
  forall w,
    isSupported (rec w) = true -> validStore (rec w) ->
    deliveredOnStop evs = true ->
    (bufferedChunks (rec w) = [] \/ exists rest, evs = Stopped :: rest) ->
    isSupported (rec (fst (run evs w))) = true /\
    validStore (rec (fst (run evs w))) /\
    bufferedChunks (rec (fst (run evs w))) = [].
Proof.
  induction evs as [|e evs IH]; intros w Hs Hv Hd Hb.
  - destruct Hb as [Hb | [rest Habs]]; [auto | discriminate Habs].
  - cbn [run fst].
    assert ((forall c, e <> DataAvailable c) -> e <> Stopped ->
            deliveredOnStop evs = true ->
            isSupported (rec (fst (run evs (fst (step e w))))) = true /\
            validStore (rec (fst (run evs (fst (step e w))))) /\
            bufferedChunks (rec (fst (run evs (fst (step e w))))) = [])
      as Hother.
    { intros H1 H2 Hd'.
      destruct (step_buffer_kept e w H1 H2 Hs Hv) as (Hs' & Hv' & Hb').
      apply IH; [exact Hs' | exact Hv' | exact Hd' | left].
      rewrite Hb'. destruct Hb as [Hb | [rest Habs]]; [exact Hb|].
      injection Habs as -> _. now elim H2. }
    destruct e; try (apply Hother; [discriminate | discriminate | exact Hd]).
    + (* DataAvailable *)
      destruct (step_delivery w c Hs Hv) as [Hs' Hv'].
      cbn [deliveredOnStop] in Hd.
      destruct evs as [|[] evs']; try discriminate Hd.
      apply IH; [exact Hs' | exact Hv' | exact Hd | right; eauto].
    + (* Stopped *)
      destruct (step_finalization w Hs Hv) as (Hs' & Hv' & Hb').
      apply IH; [exact Hs' | exact Hv' | exact Hd | left; exact Hb'].
Qed.

Lemma assembled_until_finalization mid :
  forall buf,
    noFinalization mid = true ->
    assembled buf (mid ++ [Stopped]) = [buf ++ deliveredChunks mid].
Proof.
  induction mid as [|e mid IH]; intros buf Hn.
  - simpl. now rewrite app_nil_r.
  - cbn [noFinalization forallb] in Hn.
    apply andb_true_iff in Hn as [He Hn]. fold (noFinalization mid) in Hn.
    destruct e; try discriminate He;
      cbn [app assembled deliveredChunks flat_map];
      fold (deliveredChunks mid); rewrite (IH _ Hn); try reflexivity.
    destruct (Nat.ltb 0 (chunk_size c)); [|reflexivity].
    now rewrite <- app_assoc.
Qed.

(** C3, and where the code departs from it.  startRecording does nothing on
    an unsupported or recording controller.  Otherwise, in every session in
    which the MediaRecorder delivers its data on stop, it logs, starts the
    capture, sets isRecording, and shows the recording indicator without
    arming a hide timer; the buffered data is empty after it (the property
    this.recordedChunks by the assignment, the array of the handlers because
    the last finalization emptied it), and the next finalization assembles
    exactly the non-empty chunks delivered after the start.  The indicator
    is not persistent, though: when R is pressed three times and the hide
    timer of the stop notification then elapses, the timer removes the
    indicator of the second recording while that recording goes on. *)
Theorem startRecording_indicator_removed_by_stale_timer
  (env : Browser) (pre mid : list event) :
  isSupported (fst (constructor env)) = true ->
  deliveredOnStop pre = true ->
  isRecording (rec (fst (run pre (boot env)))) = false ->
  noFinalization mid = true ->
  let w := fst (run pre (boot env)) in
  let w' := fst (step Call_startRecording w) in
  (forall r, isSupported r = false \/ isRecording r = true ->
             startRecording r = (r, [])) /\
  snd (step Call_startRecording w) =
    ConsoleLog "start recording" :: MediaRecorderStart ::
    (match popup (rec w) with Some _ => [PopupRemove] | None => [] end) ++
    [PopupAppend recordingMessage true] /\
  isRecording (rec w') = true /\
  popup (rec w') =
    Some {| textContent := recordingMessage; recordingStyle := true |} /\
  timers w' = timers w /\
  bufferedChunks (rec w') = [] /\
  propertyChunks (rec w') = [] /\
  downloads (snd (run (mid ++ [Stopped]) w')) = [deliveredChunks mid] /\
  snd (run staleTimerSession (boot allSupported)) =
    [(Keydown "r" false false false,
      [ConsoleLog "start recording"; MediaRecorderStart;
       PopupAppend recordingMessage true]);
     (Keydown "r" false false false,
      [ConsoleLog "stop recording"; MediaRecorderStop; PopupRemove;
       PopupAppend "Recording stopped" false; SetTimeoutHide 2000]);
     (Keydown "r" false false false,
      [ConsoleLog "start recording"; MediaRecorderStart; PopupRemove;
       PopupAppend recordingMessage true]);
     (TimerFired, [PopupRemove])] /\
  isRecording (rec (fst (run staleTimerSession (boot allSupported)))) = true /\
  popup (rec (fst (run staleTimerSession (boot allSupported)))) = None.
Proof.
  intros Hsup Hpre Hidle Hmid w w'.
  destruct (boot_supported_valid env Hsup) as (Hs0 & Hv0 & _ & Hb0).
  destruct (buffer_empty_between_finalizations pre (boot env) Hs0 Hv0 Hpre
              (or_introl Hb0)) as (Hs & Hv & Hb).
  fold w in Hs, Hv, Hb, Hidle.
  destruct (startRecording_when_idle (rec w) Hs Hidle)
    as (Hrec & Hthis & Hclos & Hpop & Heff).
  destruct (step_buffer_kept Call_startRecording w) as (Hs' & Hv' & Hb');
    [discriminate | discriminate | exact Hs | exact Hv|].
  fold w' in Hs', Hv', Hb'.
  assert (rec w' = fst (startRecording (rec w))) as Hw' by reflexivity.
  split.
  { intros r Hguard. unfold startRecording.
    destruct Hguard as [-> | ->]; [reflexivity | now rewrite orb_true_r]. }
  split; [exact Heff|].
  split; [now rewrite Hw'|].
  split; [now rewrite Hw'|].
  split.
  { subst w'. cbn [step perform timers fst]. rewrite Heff.
    destruct (popup (rec w)); cbn; lia. }
  split; [now rewrite Hb', Hb|].
  split.
  { unfold propertyChunks. rewrite Hw', Hthis.
    destruct (startRecording_store (rec w))
      as (_ & [(_ & _ & [Habs | Habs]) | (Harr & _)]);
      [congruence | congruence |].
    rewrite Harr. apply readArray_fresh. }
  split.
  { rewrite (downloads_refine (mid ++ [Stopped]) w' Hs' Hv'), Hb', Hb.
    now rewrite (assembled_until_finalization mid [] Hmid). }
  vm_compute. repeat split.
Qed.

Lemma startRecording_indicator_removed_by_stale_timer_witness :
  isSupported (fst (constructor allSupported)) = true /\
  deliveredOnStop [Call_startRecording; Call_stopRecording;
                   DataAvailable "first"; Stopped] = true /\
  noFinalization [Call_stopRecording; DataAvailable "second"] = true /\
  downloads
    (snd (run ([Call_stopRecording; DataAvailable "second"] ++ [Stopped])
              (fst (step Call_startRecording
                      (fst (run [Call_startRecording; Call_stopRecording;
                                 DataAvailable "first"; Stopped]
                                (boot allSupported))))))) =
    [["second"]] /\
  isRecording (rec (fst (run staleTimerSession (boot allSupported)))) = true /\
  popup (rec (fst (run staleTimerSession (boot allSupported)))) = None.
Proof.
  split; [reflexivity|]. split; [reflexivity|]. split; [reflexivity|].
  pose proof (startRecording_indicator_removed_by_stale_timer allSupported
                [Call_startRecording; Call_stopRecording;
                 DataAvailable "first"; Stopped]
                [Call_stopRecording; DataAvailable "second"]
                eq_refl eq_refl eq_refl eq_refl)
    as (_ & _ & _ & _ & _ & _ & _ & Hnext & _ & Hrec & Hpop).
  split; [exact Hnext|]. split; [exact Hrec | exact Hpop].
Defined.

(** ** How often a promise is resolved *)

Lemma step_nextPromise ev w :
  (forall D, ev <> AvatarReady D) ->
  nextPromise (fst (step ev w)) = nextPromise w.
Proof.
  intros Hev. destruct ev; simpl; try reflexivity.
  - unfold recordAnimation.
    destruct (negb (isSupported (rec w)) || negb (attached (gvrm (rec w))));
      reflexivity.
  - now elim (Hev D).
  - unfold timerFired. destruct (timers w); reflexivity.
  - unfold animationFrame.
    destruct (runCallbacks t (rafQueue w) (rec w) (runs w)) as [[r1 vs1] e1].
    reflexivity.
Qed.

Lemma slot_kept_by_controls (c : option promise) :
  keptByControls (fun r => currentRecordingResolve r = c).
Proof.
  split; [|split; [|split]].
  - intros r. method_cases r; simpl; auto.
  - intros r. method_cases r; simpl; auto.
  - intros r. method_cases r; simpl; auto.
  - intros g r H. exact H.
Qed.

Lemma resolutions_cons p ev effs tr :
  resolutions p ((ev, effs) :: tr) =
  resolutions p [(ev, effs)] + resolutions p tr.
Proof.
  unfold resolutions, allEffects. simpl. rewrite app_nil_r.
  now rewrite filter_app, length_app.
Qed.

Lemma resolutions_quiet p ev effs :
  Forall quiet effs -> resolutions p [(ev, effs)] = 0.
Proof.
  unfold resolutions, allEffects. simpl. rewrite app_nil_r.
  induction 1 as [|e l He _ IH]; [reflexivity|].
  simpl. destruct e; simpl in *; try exact IH; contradiction.
Qed.

Ltac nat_tests :=
  repeat match goal with
         | |- context [Nat.eqb ?a ?b] => destruct (Nat.eqb_spec a b)
         | |- context [Nat.ltb ?a ?b] => destruct (Nat.ltb_spec a b)
         end.

(** An event uses up what it resolves. *)
Lemma step_pending p ev w :
  slotCreated w ->
  slotCreated (fst (step ev w)) /\
  resolutions p [(ev, snd (step ev w))] +
  pendingResolutions p (fst (step ev w)) <= pendingResolutions p w.
Proof.
  intros Hc.
  assert (forall e, (forall D, e <> AvatarReady D) -> e <> Stopped ->
          currentRecordingResolve (rec (fst (step e w))) =
          currentRecordingResolve (rec w) ->
          slotCreated (fst (step e w)) /\
          resolutions p [(e, snd (step e w))] +
          pendingResolutions p (fst (step e w)) <= pendingResolutions p w)
    as Hsame.
  { intros e H1 H2 Hslot.
    pose proof (step_nextPromise e w H1) as Hnp.
    rewrite resolutions_quiet by (apply step_quiet; exact H2).
    unfold slotCreated, pendingResolutions. rewrite Hslot, Hnp.
    split; [exact Hc | apply Nat.le_refl]. }
  destruct ev;
    try (apply Hsame; [discriminate | discriminate |];
         apply (step_kept_controls _ _ w (slot_kept_by_controls _));
         [discriminate | discriminate | discriminate | reflexivity]).
  - (* AvatarReady *)
    rewrite resolutions_quiet by (apply step_quiet; discriminate).
    simpl. unfold recordAnimation_resume.
    destruct (awaiting w) as [|u rest]; [split; [exact Hc | apply Nat.le_refl]|].
    destruct (durationReadable (gvrm (rec w)));
      [|split; [exact Hc | apply Nat.le_refl]].
    unfold slotCreated, pendingResolutions in *. simpl.
    split; [intros p' Hp'; injection Hp' as <-; lia|].
    destruct (currentRecordingResolve (rec w)) as [p'|].
    + specialize (Hc p' eq_refl). nat_tests; lia.
    + nat_tests; lia.
  - (* DataAvailable *)
    apply Hsame; [discriminate | discriminate |].
    simpl. unfold whenSupported, ondataavailable.
    destruct (isSupported (rec w)); [|reflexivity].
    destruct (Nat.ltb 0 (chunk_size c)); reflexivity.
  - (* Stopped *)
    unfold resolutions, allEffects. cbn [flat_map snd]. rewrite app_nil_r.
    rewrite step_stopped.
    unfold slotCreated, pendingResolutions in *.
    destruct w as [r vs q aw tm np].
    destruct r as [s recg pop opts cl th st slot av].
    simpl in *. destruct s; simpl.
    + destruct slot as [p'|]; simpl.
      * specialize (Hc p' eq_refl).
        split; [intros ? Habs; discriminate Habs|].
        nat_tests; simpl; lia.
      * split; [intros ? Habs; discriminate Habs | lia].
    + split; [exact Hc | lia].
Qed.

Lemma run_pending p evs :
  forall w,
    slotCreated w ->
    slotCreated (fst (run evs w)) /\
    resolutions p (snd (run evs w)) <= pendingResolutions p w.
Proof.
  induction evs as [|e evs IH]; intros w Hc.
  - split; [exact Hc | apply Nat.le_0_l].
  - cbn [run fst snd]. rewrite resolutions_cons.
    destruct (step_pending p e w Hc) as [Hc' Hle].
    destruct (IH _ Hc') as [Hc'' Hle'].
    split; [exact Hc'' | lia].
Qed.

Lemma boot_slotCreated env : slotCreated (boot env).
Proof.
  intros p Hp. unfold boot in Hp. simpl in Hp.
  unfold constructor in Hp.
  destruct (negb (hasMediaRecorder env) || negb (isTypeSupported env mime_webm));
    [discriminate Hp|].
  destruct (negotiate env); discriminate Hp.
Qed.

(** X7: along every event sequence from construction each promise created
    by recordAnimation is resolved at most once. *)
Theorem promise_resolved_at_most_once
  (env : Browser) (evs : list event) (p : promise) :
  resolutions p (snd (run evs (boot env))) <= 1.
Proof.
  destruct (run_pending p evs (boot env) (boot_slotCreated env)) as [_ H].
  etransitivity; [exact H|].
  unfold pendingResolutions.
  destruct (currentRecordingResolve (rec (boot env))); nat_tests; lia.
Qed.

Lemma run_inert evs : forall w, inert w -> inert (fst (run evs w)).
Proof.
  induction evs as [|e evs IH]; intros w Hin; [exact Hin|].
  simpl. apply IH. now destruct (step_inert e w Hin).
Qed.

(** A controller with a suspended recordAnimation call is supported. *)
Lemma awaiting_needs_support env evs :
  awaiting (fst (run evs (boot env))) <> [] ->
  isSupported (rec (fst (run evs (boot env)))) = true.
Proof.
  intros Haw.
  destruct (isSupported (fst (constructor env))) eqn:Hs.
  - destruct (recording_needs_support_kept true) as [Hk Hh].
    refine (proj1 (run_kept _ evs Hk Hh (boot env) _)).
    simpl. rewrite Hs. split; [reflexivity | auto].
  - exfalso. apply Haw.
    assert (inert (boot env)) as Hin.
    { unfold inert, boot. simpl. split; [exact Hs|].
      split; [|repeat split].
      revert Hs. unfold constructor.
      destruct (negb (hasMediaRecorder env) || negb (isTypeSupported env mime_webm));
        [reflexivity|].
      destruct (negotiate env); [discriminate | reflexivity]. }
    now destruct (run_inert evs _ Hin) as (_ & _ & _ & H & _).
Qed.

(** X8: when a second recordAnimation call resumes after its awaits while
    the promise of an earlier run is still pending, what becomes of the
    earlier promise depends on whether the clip duration can be read.  If it
    can, the second run is set up, the slot is overwritten and the earlier
    promise is never resolved, whatever happens afterwards.  If it cannot
    (the avatar was detached or has no character), the second call throws,
    the earlier promise stays in the slot and the next finalization
    resolves it. *)
Theorem overwritten_promise_never_resolves
  (env : Browser) (pre post : list event) (D : Q) (p : promise) :
  let w := fst (run pre (boot env)) in
  currentRecordingResolve (rec w) = Some p ->
  awaiting w <> [] ->
  (durationReadable (gvrm (rec w)) = true ->
   currentRecordingResolve (rec (fst (step (AvatarReady D) w))) =
     Some (nextPromise w) /\
   nextPromise w <> p /\
   resolutions p (snd (run post (fst (step (AvatarReady D) w)))) = 0) /\
  (durationReadable (gvrm (rec w)) = false ->
   snd (step (AvatarReady D) w) = [RejectTypeError] /\
   currentRecordingResolve (rec (fst (step (AvatarReady D) w))) = Some p /\
   In (ResolvePromise p)
      (snd (step Stopped (fst (step (AvatarReady D) w))))).
Proof.
  intros w Hslot Haw.
  pose proof (awaiting_needs_support env pre Haw) as Hsup. fold w in Hsup.
  destruct (run_pending p pre (boot env) (boot_slotCreated env)) as [Hc _].
  fold w in Hc.
  pose proof (Hc p Hslot) as Hlt.
  split; intros Hread.
  - destruct (step_pending p (AvatarReady D) w Hc) as [Hc' _].
    destruct (run_pending p post _ Hc') as [_ Hle].
    assert (currentRecordingResolve (rec (fst (step (AvatarReady D) w))) =
            Some (nextPromise w) /\
            nextPromise (fst (step (AvatarReady D) w)) = S (nextPromise w))
      as [E1 E2].
    { simpl. unfold recordAnimation_resume.
      destruct (awaiting w); [congruence|].
      rewrite Hread. split; reflexivity. }
    split; [exact E1|]. split; [lia|].
    unfold pendingResolutions in Hle. rewrite E1, E2 in Hle.
    revert Hle. nat_tests; lia.
  - assert (snd (step (AvatarReady D) w) = [RejectTypeError] /\
            rec (fst (step (AvatarReady D) w)) = rec w) as [E1 E2].
    { simpl. unfold recordAnimation_resume.
      destruct (awaiting w); [congruence|].
      rewrite Hread. split; reflexivity. }
    split; [exact E1|]. split; [now rewrite E2|].
    rewrite step_stopped, E2, Hsup, Hslot. right. now left.
Qed.

Lemma overwritten_promise_never_resolves_witness :
  currentRecordingResolve
    (rec (fst (run [Call_setGVRM (Some (sampleAvatar (Some idleAnimation)));
                    Call_recordAnimation "a"; Call_recordAnimation "b";
                    AvatarReady loopDuration] (boot allSupported)))) = Some 0 /\
  resolutions 0
    (snd (run [Call_toggleRecording; Call_toggleRecording; Stopped; Stopped]
              (fst (step (AvatarReady loopDuration)
                      (fst (run [Call_setGVRM
                                   (Some (sampleAvatar (Some idleAnimation)));
                                 Call_recordAnimation "a";
                                 Call_recordAnimation "b";
                                 AvatarReady loopDuration]
                                (boot allSupported))))))) = 0 /\
  In (ResolvePromise 0)
     (snd (step Stopped
             (fst (step (AvatarReady loopDuration)
                     (fst (run [Call_setGVRM
                                  (Some (sampleAvatar (Some idleAnimation)));
                                Call_recordAnimation "a";
                                Call_recordAnimation "b";
                                AvatarReady loopDuration;
                                AvatarChanged (sampleAvatar None)]
                               (boot allSupported))))))).
Proof.
  split; [reflexivity|]. split.
  - refine (proj2 (proj2 (proj1 (overwritten_promise_never_resolves allSupported
              [Call_setGVRM (Some (sampleAvatar (Some idleAnimation)));
               Call_recordAnimation "a"; Call_recordAnimation "b";
               AvatarReady loopDuration]
              [Call_toggleRecording; Call_toggleRecording; Stopped; Stopped]
              loopDuration 0 eq_refl _) eq_refl))).
    discriminate.
  - refine (proj2 (proj2 (proj2 (overwritten_promise_never_resolves allSupported
              [Call_setGVRM (Some (sampleAvatar (Some idleAnimation)));
               Call_recordAnimation "a"; Call_recordAnimation "b";
               AvatarReady loopDuration; AvatarChanged (sampleAvatar None)]
              [] loopDuration 0 eq_refl _) eq_refl))).
    discriminate.
Defined.

(* ------------------------------------------------------------------ *)
(** ** The whole trace of a run *)

Lemma frame_start_rec t D w :
  runs w = [newRun D] -> rafQueue w = [(0, FrameCallback)] ->
  lookAhead t D = true ->
  rec (fst (animationFrame t w)) = fst (startRecording (rec w)).
Proof. intros Hr Hq Hc. frame_step Hr Hq. rewrite Hc. reflexivity. Qed.

Lemma frame_armed_rec t D w :
  runs w = [armedRun D] -> rafQueue w = [(0, FrameCallback)] ->
  rec (fst (animationFrame t w)) = rec w.
Proof. intros Hr Hq. frame_step Hr Hq. reflexivity. Qed.

Lemma frame_counting_rec t D k w :
  runs w = [countingRun D k] -> rafQueue w = [(0, FrameCallback)] ->
  rec (fst (animationFrame t w)) = rec w.
Proof.
  intros Hr Hq. frame_step Hr Hq.
  destruct (lookAhead t D && Nat.ltb settleThreshold (S k)); reflexivity.
Qed.

Lemma frame_stopping_rec t D k w :
  runs w = [countingRun D k] ->
  rafQueue w = [(0, StopCallback); (0, FrameCallback)] ->
  rec (fst (animationFrame t w)) = fst (stopRecording (rec w)).
Proof.
  intros Hr Hq. frame_step Hr Hq. unfold frameCallback, frameBody. frame_simpl.
  destruct (lookAhead t D && Nat.ltb settleThreshold (S k)); reflexivity.
Qed.

Lemma frame_done_stop_rec t D k w :
  runs w = [doneRun D k] -> rafQueue w = [(0, StopCallback)] ->
  rec (fst (animationFrame t w)) = fst (stopRecording (rec w)).
Proof. intros Hr Hq. frame_step Hr Hq. reflexivity. Qed.

Lemma frame_done_idle_rec t D k w :
  runs w = [doneRun D k] -> rafQueue w = [] ->
  rec (fst (animationFrame t w)) = rec w.
Proof. intros Hr Hq. frame_step Hr Hq. reflexivity. Qed.

Lemma stopRecording_when_recording r :
  isSupported r = true -> isRecording r = true ->
  In MediaRecorderStop (snd (stopRecording r)) /\
  ~ In MediaRecorderStart (snd (stopRecording r)) /\
  isRecording (fst (stopRecording r)) = false /\
  isSupported (fst (stopRecording r)) = true.
Proof.
  intros Hs Hr. method_cases r; simpl in Hs, Hr; try discriminate;
    simpl; intuition discriminate.
Qed.

Lemma stopRecording_when_idle r :
  isRecording r = false -> stopRecording r = (r, []).
Proof.
  intros Hr. method_cases r; simpl in Hr; try discriminate; reflexivity.
Qed.

Lemma startRecording_when_idle_commands r :
  isSupported r = true -> isRecording r = false ->
  In MediaRecorderStart (snd (startRecording r)) /\
  ~ In MediaRecorderStop (snd (startRecording r)) /\
  isSupported (fst (startRecording r)) = true.
Proof.
  intros Hs Hr. method_cases r; simpl in Hs, Hr; try discriminate;
    simpl; intuition discriminate.
Qed.

Section WholeRun.

Variable times : nat -> Q.
Variable D : Q.
Variable w0 : World.
Variable s q : nat.
Hypothesis Hrun : runStarted D w0.
Hypothesis Hfirst : firstLookAhead times D s.
Hypothesis Hq : s + (settleThreshold + 2) <= q.
Hypothesis Hdue : lookAhead (times q) D = true.
Hypothesis Hquiet :
  forall k, s + (settleThreshold + 2) <= k < q -> lookAhead (times k) D = false.

Let r1 : Recorder := fst (startRecording (rec w0)).
Let r2 : Recorder := fst (stopRecording r1).

Lemma rec_after_start : rec (worldBefore times w0 (S s)) = r1.
Proof.
  destruct (before_start times D w0 s Hrun Hfirst s (Nat.le_refl s))
    as (Hrec & Hr & Hqu).
  simpl. rewrite (frame_start_rec _ D _ Hr Hqu (proj1 Hfirst)).
  now rewrite Hrec.
Qed.

Lemma rec_counting d :
  s + 2 + d <= q -> rec (worldBefore times w0 (s + 2 + d)) = r1.
Proof.
  induction d as [|d IH]; intros Hle.
  - replace (s + 2 + 0) with (S (S s)) by lia.
    destruct (armed_after_start times D w0 s Hrun Hfirst) as [Hr Hqu].
    change (worldBefore times w0 (S (S s)))
      with (fst (animationFrame (times (S s)) (worldBefore times w0 (S s)))).
    rewrite (frame_armed_rec _ D _ Hr Hqu). apply rec_after_start.
  - replace (s + 2 + S d) with (S (s + 2 + d)) by lia.
    change (worldBefore times w0 (S (s + 2 + d)))
      with (fst (animationFrame (times (s + 2 + d))
                   (worldBefore times w0 (s + 2 + d)))).
    destruct (counting_until times D w0 s Hrun Hfirst q Hquiet d)
      as [Hr Hqu]; [lia|].
    rewrite (frame_counting_rec _ D d _ Hr Hqu). apply IH. lia.
Qed.

Lemma quiet_frames n :
  n < q -> n <> s ->
  effectsAt times w0 n = [RequestAnimationFrame 0 FrameCallback].
Proof.
  intros Hlt Hne. unfold effectsAt.
  destruct (Nat.lt_trichotomy n s) as [H | [H | H]]; [| congruence |].
  - destruct (before_start times D w0 s Hrun Hfirst n) as (_ & Hr & Hqu);
      [lia|].
    now destruct (frame_awaiting (times n) D _ Hr Hqu
                    (proj2 Hfirst n H)) as (_ & _ & _ & ->).
  - destruct (Nat.eq_dec n (S s)) as [-> | Hne'].
    + destruct (armed_after_start times D w0 s Hrun Hfirst) as [Hr Hqu].
      now destruct (frame_armed (times (S s)) D _ Hr Hqu) as (_ & _ & ->).
    + destruct (counting_until times D w0 s Hrun Hfirst q Hquiet (n - s - 2))
        as [Hr Hqu]; [lia|].
      replace (s + 2 + (n - s - 2)) with n in Hr, Hqu by lia.
      destruct (frame_counting (times n) D _ _ Hr Hqu) as (_ & _ & ->).
      assert (lookAhead (times n) D && Nat.ltb settleThreshold (S (n - s - 2))
              = false) as ->; [|reflexivity].
      destruct (Nat.ltb_spec settleThreshold (S (n - s - 2))) as [Hl | Hl];
        [|apply andb_false_r].
      unfold settleThreshold in *. rewrite Hquiet; [reflexivity|].
      unfold settleThreshold. lia.
Qed.

Lemma world_at_stop :
  rec (worldBefore times w0 (S q)) = r1 /\
  runs (worldBefore times w0 (S q)) = [countingRun D (S (q - s - 2))] /\
  rafQueue (worldBefore times w0 (S q)) =
    [(0, StopCallback); (0, FrameCallback)] /\
  effectsAt times w0 q =
    [RequestAnimationFrame 0 StopCallback;
     RequestAnimationFrame 0 FrameCallback].
Proof.
  unfold settleThreshold in Hq.
  destruct (counting_until times D w0 s Hrun Hfirst q Hquiet (q - s - 2))
    as [Hr Hqu]; [lia|].
  pose proof (rec_counting (q - s - 2) ltac:(lia)) as Hrec.
  replace (s + 2 + (q - s - 2)) with q in Hr, Hqu, Hrec by lia.
  destruct (frame_counting (times q) D _ _ Hr Hqu) as (H1 & H2 & H3).
  assert (lookAhead (times q) D && Nat.ltb settleThreshold (S (q - s - 2)) = true)
    as E.
  { rewrite Hdue. apply Nat.ltb_lt. unfold settleThreshold. lia. }
  rewrite E in H2, H3.
  change (worldBefore times w0 (S q))
    with (fst (animationFrame (times q) (worldBefore times w0 q))).
  rewrite (frame_counting_rec _ D _ _ Hr Hqu).
  repeat split; assumption.
Qed.

Lemma world_after_stop :
  rec (worldBefore times w0 (S (S q))) = r2 /\
  runs (worldBefore times w0 (S (S q))) = [doneRun D (S (S (q - s - 2)))] /\
  rafQueue (worldBefore times w0 (S (S q))) =
    (if lookAhead (times (S q)) D then [(0, StopCallback)] else []) /\
  effectsAt times w0 (S q) =
    Invoke "stopRecording" :: snd (stopRecording r1) ++
    (if lookAhead (times (S q)) D
     then [RequestAnimationFrame 0 StopCallback] else []).
Proof.
  destruct world_at_stop as (Hrec & Hr & Hqu & _).
  destruct (frame_stopping (times (S q)) D _ _ Hr Hqu) as (H1 & H2 & H3).
  assert (Nat.ltb settleThreshold (S (S (q - s - 2))) = true) as E.
  { apply Nat.ltb_lt. unfold settleThreshold in *. lia. }
  rewrite E, andb_true_r in H2, H3.
  change (worldBefore times w0 (S (S q)))
    with (fst (animationFrame (times (S q)) (worldBefore times w0 (S q)))).
  rewrite (frame_stopping_rec _ D _ _ Hr Hqu), Hrec.
  unfold effectsAt. rewrite H3, Hrec.
  repeat split; assumption.
Qed.

Lemma world_done :
  runs (worldBefore times w0 (S (S (S q)))) = [doneRun D (S (S (q - s - 2)))] /\
  rafQueue (worldBefore times w0 (S (S (S q)))) = [] /\
  rec (worldBefore times w0 (S (S (S q)))) =
    (if lookAhead (times (S q)) D then fst (stopRecording r2) else r2) /\
  effectsAt times w0 (S (S q)) =
    (if lookAhead (times (S q)) D
     then Invoke "stopRecording" :: snd (stopRecording r2) else []).
Proof.
  destruct world_after_stop as (Hrec & Hr & Hqu & _).
  change (worldBefore times w0 (S (S (S q))))
    with (fst (animationFrame (times (S (S q)))
                 (worldBefore times w0 (S (S q))))).
  unfold effectsAt.
  destruct (lookAhead (times (S q)) D).
  - destruct (frame_done_stop (times (S (S q))) D _ _ Hr Hqu) as (H1 & H2 & H3).
    rewrite (frame_done_stop_rec _ D _ _ Hr Hqu), H3, Hrec.
    repeat split; assumption.
  - destruct (frame_done_idle (times (S (S q))) D _ _ Hr Hqu) as (H1 & H2 & H3).
    rewrite (frame_done_idle_rec _ D _ _ Hr Hqu), H3, Hrec.
    repeat split; assumption.
Qed.

Lemma world_idle d :
  runs (worldBefore times w0 (S (S (S q)) + d)) =
    [doneRun D (S (S (q - s - 2)))] /\
  rafQueue (worldBefore times w0 (S (S (S q)) + d)) = [] /\
  rec (worldBefore times w0 (S (S (S q)) + d)) =
    rec (worldBefore times w0 (S (S (S q)))) /\
  effectsAt times w0 (S (S (S q)) + d) = [].
Proof.
  induction d as [|d IH].
  - rewrite Nat.add_0_r.
    destruct world_done as (Hr & Hqu & _ & _).
    unfold effectsAt.
    destruct (frame_done_idle (times (S (S (S q)))) D _ _ Hr Hqu)
      as (_ & _ & ->).
    repeat split; assumption.
  - destruct IH as (Hr & Hqu & Hrec & _).
    replace (S (S (S q)) + S d) with (S (S (S (S q)) + d)) by lia.
    change (worldBefore times w0 (S (S (S (S q)) + d)))
      with (fst (animationFrame (times (S (S (S q)) + d))
                   (worldBefore times w0 (S (S (S q)) + d)))).
    destruct (frame_done_idle (times (S (S (S q)) + d)) D _ _ Hr Hqu)
      as (H1 & H2 & _).
    rewrite (frame_done_idle_rec _ D _ _ Hr Hqu).
    unfold effectsAt.
    change (worldBefore times w0 (S (S (S (S q)) + d)))
      with (fst (animationFrame (times (S (S (S q)) + d))
                   (worldBefore times w0 (S (S (S q)) + d)))).
    destruct (frame_done_idle (times (S (S (S (S q)) + d))) D _ _ H1 H2)
      as (_ & _ & ->).
    repeat split; assumption.
Qed.

End WholeRun.


Lemma loopTimes_quiet :
  forall k, 0 + (settleThreshold + 2) <= k < 15 ->
            lookAhead (loopTimes k) loopDuration = false.
Proof. intros k Hk. unfold settleThreshold in Hk. first_frames k. Qed.






(* ================================================================== *)
(** * Properties of the virtual controller *)

Section VirtualControllerFacts.

Variable sqrt : Q -> Q.

Lemma updateJoystickPosition_fields tx ty v :
  sameFrame v (VC.updateJoystickPosition sqrt tx ty v) /\
  VC.joystickTouch (VC.updateJoystickPosition sqrt tx ty v) = VC.joystickTouch v /\
  VC.active (VC.joystick (VC.updateJoystickPosition sqrt tx ty v)) =
    VC.active (VC.joystick v).
Proof. unfold sameFrame. repeat split. Qed.

Lemma moveTracked_fields id touches v :
  sameFrame v (VC.moveTracked sqrt id touches v) /\
  VC.joystickTouch (VC.moveTracked sqrt id touches v) = VC.joystickTouch v /\
  VC.active (VC.joystick (VC.moveTracked sqrt id touches v)) =
    VC.active (VC.joystick v).
Proof.
  induction touches as [|t rest IH]; simpl.
  - unfold sameFrame. repeat split.
  - destruct (Z.eqb (VC.identifier t) id);
      [apply updateJoystickPosition_fields | exact IH].
Qed.

Lemma endTracked_cases id touches v :
  VC.endTracked id touches v = v \/ VC.endTracked id touches v = VC.release v.
Proof.
  induction touches as [|t rest IH]; simpl; [now left|].
  destruct (Z.eqb (VC.identifier t) id); [now right | exact IH].
Qed.

Lemma step_sameFrame ev v :
  ev <> VC.Enable -> ev <> VC.Disable ->
  (forall name, ev <> VC.ButtonStart name) ->
  (forall name, ev <> VC.ButtonEnd name) ->
  ev <> VC.UpdatePreviousState ->
  sameFrame v (VC.step sqrt ev v).
Proof.
  intros H1 H2 H3 H4 H5.
  assert (sameFrame v v) as Hrefl by (unfold sameFrame; repeat split).
  destruct ev; try congruence; simpl; unfold VC.whenListening;
    destruct (VC.joystickKnob v); try exact Hrefl.
  - unfold VC.onJoystickStart.
    destruct (VC.joystickTouch v); [exact Hrefl|].
    destruct touches; [exact Hrefl|]. unfold sameFrame. repeat split.
  - unfold VC.onJoystickMove.
    destruct (VC.joystickTouch v); [apply moveTracked_fields | exact Hrefl].
  - unfold VC.onJoystickEnd.
    destruct (VC.joystickTouch v) as [id|]; [|exact Hrefl].
    destruct (endTracked_cases id touches v) as [-> | ->];
      [exact Hrefl | unfold sameFrame; repeat split].
Qed.

Lemma step_previousButtons ev v :
  VC.isUpdate ev = false ->
  VC.previousButtons (VC.step sqrt ev v) = VC.previousButtons v.
Proof.
  intros Hev.
  destruct ev; try discriminate Hev;
    try (apply step_sameFrame; discriminate).
  - simpl. unfold VC.enable. destruct (VC.enabled v); reflexivity.
  - simpl. unfold VC.disable. destruct (negb (VC.enabled v)); reflexivity.
  - simpl. unfold VC.whenListening. destruct (VC.joystickKnob v); reflexivity.
  - simpl. unfold VC.whenListening. destruct (VC.joystickKnob v); reflexivity.
Qed.

Lemma run_previousButtons evs :
  forall v,
    forallb (fun ev => negb (VC.isUpdate ev)) evs = true ->
    VC.previousButtons (VC.run sqrt evs v) = VC.previousButtons v.
Proof.
  induction evs as [|ev evs IH]; intros v Hall; [reflexivity|].
  simpl in Hall. apply andb_true_iff in Hall as [Hev Hrest].
  simpl. rewrite (IH _ Hrest). apply step_previousButtons.
  now apply negb_true_iff.
Qed.

(** X12: edge detection of the buttons.  After updatePreviousState and any
    touch events since, wasButtonJustPressed tells whether the button is
    down now and was up at the time of the update: it is false right after
    the update, it stays true for as long as a newly pressed button is held
    until the next update, and a button pressed and released between two
    updates is not reported. *)
Theorem just_pressed_is_relative_to_last_update
  (v : VC.State) (evs : list VC.event) (name : VC.ButtonName) :
  forallb (fun ev => negb (VC.isUpdate ev)) evs = true ->
  let v' := VC.run sqrt evs (VC.updatePreviousState v) in
  VC.wasButtonJustPressed name v' =
    VC.getButton (VC.buttons v') name && negb (VC.getButton (VC.buttons v) name) /\
  VC.wasButtonJustPressed name (VC.updatePreviousState v') = false.
Proof.
  intros Hall v'. split.
  - unfold VC.wasButtonJustPressed. subst v'.
    rewrite (run_previousButtons evs _ Hall).
    destruct name; reflexivity.
  - unfold VC.wasButtonJustPressed.
    destruct name; simpl; apply andb_negb_r.
Qed.

End VirtualControllerFacts.

Lemma just_pressed_is_relative_to_last_update_witness :
  forallb (fun ev => negb (VC.isUpdate ev))
          [VC.Enable; VC.ButtonStart VC.Cross] = true /\
  VC.wasButtonJustPressed VC.Cross
    (VC.run VC.integerSqrt [VC.Enable; VC.ButtonStart VC.Cross]
            (VC.updatePreviousState VC.constructor)) = true /\
  VC.wasButtonJustPressed VC.Cross
    (VC.run VC.integerSqrt
            [VC.Enable; VC.ButtonStart VC.Cross; VC.ButtonEnd VC.Cross]
            (VC.updatePreviousState VC.constructor)) = false.
Proof.
  split; [reflexivity|]. split.
  - rewrite (proj1 (just_pressed_is_relative_to_last_update VC.integerSqrt
                      VC.constructor [VC.Enable; VC.ButtonStart VC.Cross]
                      VC.Cross eq_refl)).
    reflexivity.
  - rewrite (proj1 (just_pressed_is_relative_to_last_update VC.integerSqrt
                      VC.constructor
                      [VC.Enable; VC.ButtonStart VC.Cross; VC.ButtonEnd VC.Cross]
                      VC.Cross eq_refl)).
    reflexivity.
Defined.

Section JoystickFacts.

Variable sqrt : Q -> Q.

Lemma clamp_range n : (-1 <= VC.clamp n <= 1)%Q.
Proof.
  unfold VC.clamp. split; [apply Q.le_max_l|].
  apply Q.max_lub; [discriminate | apply Q.le_min_l].
Qed.

Lemma updateJoystickPosition_inRange tx ty v :
  VC.inRange (VC.updateJoystickPosition sqrt tx ty v).
Proof.
  unfold VC.inRange, VC.updateJoystickPosition. simpl.
  set (nx := if negb _ then _ else _).
  set (ny := if negb _ then _ else _).
  pose proof (clamp_range nx) as [Hx1 Hx2].
  pose proof (clamp_range ny) as [Hy1 Hy2].
  repeat split; try assumption; try apply Q.le_min_l; lra.
Qed.

Lemma release_inRange v : VC.inRange (VC.release v).
Proof. unfold VC.inRange. simpl. repeat split; discriminate. Qed.

Lemma step_inRange ev v : VC.inRange v -> VC.inRange (VC.step sqrt ev v).
Proof.
  intros Hv.
  destruct ev; simpl; unfold VC.whenListening;
    try (destruct (VC.joystickKnob v) eqn:Hk; [|exact Hv]).
  - unfold VC.enable. destruct (VC.enabled v); [exact Hv|].
    destruct Hv as (H1 & H2 & H3 & _). unfold VC.inRange. simpl.
    repeat split; try tauto; discriminate.
  - unfold VC.disable. destruct (negb (VC.enabled v)); exact Hv.
  - unfold VC.onJoystickStart.
    destruct (VC.joystickTouch v); [exact Hv|].
    destruct touches as [|t rest]; [exact Hv|].
    match goal with
    | |- VC.inRange (VC.with_joystick _ ?u) =>
        pose proof (updateJoystickPosition_inRange
                      (VC.clientX t) (VC.clientY t)
                      {| VC.enabled := VC.enabled v; VC.container := VC.container v;
                         VC.mobileButtonDisplay := VC.mobileButtonDisplay v;
                         VC.joystick := VC.joystick v; VC.buttons := VC.buttons v;
                         VC.previousButtons := VC.previousButtons v;
                         VC.joystickTouch := Some (VC.identifier t);
                         VC.joystickCenter :=
                           (VC.rectLeft rect + VC.rectWidth rect / 2,
                            VC.rectTop rect + VC.rectHeight rect / 2)%Q;
                         VC.joystickRadius := VC.joystickRadius v;
                         VC.joystickKnob := VC.joystickKnob v |}) as H
    end.
    exact H.
  - unfold VC.onJoystickMove.
    destruct (VC.joystickTouch v) as [id|]; [|exact Hv].
    induction touches as [|t rest IH]; simpl; [exact Hv|].
    destruct (Z.eqb (VC.identifier t) id);
      [apply updateJoystickPosition_inRange | exact IH].
  - unfold VC.onJoystickEnd.
    destruct (VC.joystickTouch v) as [id|]; [|exact Hv].
    destruct (endTracked_cases id touches v) as [-> | ->];
      [exact Hv | apply release_inRange].
  - exact Hv.
  - exact Hv.
  - exact Hv.
Qed.

(** X13: whatever the touches, the joystick stays in range: x and y lie in
    [-1, 1], the magnitude is at most 1, and the knob stays within the base,
    between 0px and 140px in both directions. *)
Theorem joystick_stays_in_range (evs : list VC.event) :
  VC.inRange (VC.run sqrt evs VC.constructor).
Proof.
  assert (forall v, VC.inRange v -> VC.inRange (VC.run sqrt evs v)) as H.
  { induction evs as [|ev evs IH]; intros v Hv; [exact Hv|].
    simpl. apply IH. now apply step_inRange. }
  apply H. unfold VC.inRange. simpl. repeat split; discriminate.
Qed.

Lemma step_restsWhenUntracked ev v :
  VC.restsWhenUntracked v -> VC.restsWhenUntracked (VC.step sqrt ev v).
Proof.
  intros Hv.
  destruct ev; simpl; unfold VC.whenListening;
    try (destruct (VC.joystickKnob v) eqn:Hk; [|exact Hv]).
  - unfold VC.enable. destruct (VC.enabled v); [exact Hv|].
    destruct Hv as [H1 H2]. split; [exact H1|].
    intros Hn. simpl in *. split; [exact (proj1 (H2 Hn)) | now right].
  - unfold VC.disable. destruct (negb (VC.enabled v)); exact Hv.
  - unfold VC.onJoystickStart.
    destruct (VC.joystickTouch v); [exact Hv|].
    destruct touches as [|t rest]; [exact Hv|].
    split; simpl; [split; discriminate | discriminate].
  - unfold VC.onJoystickMove.
    destruct (VC.joystickTouch v) as [id|] eqn:Ht; [|exact Hv].
    destruct (moveTracked_fields sqrt id touches v) as (_ & E1 & E2).
    destruct Hv as [H1 H2]. unfold VC.restsWhenUntracked.
    rewrite E1, E2, Ht in *.
    split; [exact H1 | discriminate].
  - unfold VC.onJoystickEnd.
    destruct (VC.joystickTouch v) as [id|]; [|exact Hv].
    destruct (endTracked_cases id touches v) as [-> | ->]; [exact Hv|].
    split; simpl; [tauto | intros _; split; [reflexivity | now right]].
  - exact Hv.
  - exact Hv.
  - exact Hv.
Qed.

(** X14: whatever the events, no touch is tracked exactly when the joystick
    is inactive, and whenever no touch is tracked the joystick reads neutral
    (x = y = magnitude = 0) and the knob, once created, is centred at
    70px / 70px. *)
Theorem joystick_rests_when_untracked (evs : list VC.event) :
  VC.restsWhenUntracked (VC.run sqrt evs VC.constructor).
Proof.
  assert (forall v, VC.restsWhenUntracked v ->
                    VC.restsWhenUntracked (VC.run sqrt evs v)) as H.
  { induction evs as [|ev evs IH]; intros v Hv; [exact Hv|].
    simpl. apply IH. now apply step_restsWhenUntracked. }
  apply H. split; simpl; [tauto | intros _; split; [reflexivity | now left]].
Qed.

Lemma moveTracked_others id touches v :
  (forall t, In t touches -> VC.identifier t <> id) ->
  VC.moveTracked sqrt id touches v = v.
Proof.
  induction touches as [|t rest IH]; intros H; [reflexivity|].
  simpl. destruct (Z.eqb_spec (VC.identifier t) id) as [E | _].
  - elim (H t (or_introl eq_refl) E).
  - apply IH. intros t' Ht'. apply H. now right.
Qed.

Lemma endTracked_others id touches v :
  (forall t, In t touches -> VC.identifier t <> id) ->
  VC.endTracked id touches v = v.
Proof.
  induction touches as [|t rest IH]; intros H; [reflexivity|].
  simpl. destruct (Z.eqb_spec (VC.identifier t) id) as [E | _].
  - elim (H t (or_introl eq_refl) E).
  - apply IH. intros t' Ht'. apply H. now right.
Qed.

(** X15: while a touch is tracked, other fingers are ignored: a further
    touchstart on the joystick changes nothing, and touchmove, touchend and
    touchcancel events none of whose changed touches is the tracked one
    change nothing.  The tracking also survives disable() followed by
    enable(): the touch is still tracked and getInput() still returns the
    old deflection, although the knob has been re-created at the centre. *)
Theorem only_the_tracked_touch_moves_the_joystick (v : VC.State) (id : Z) :
  VC.joystickTouch v = Some id ->
  (forall touches rect, VC.onJoystickStart sqrt touches rect v = v) /\
  (forall touches,
     (forall t, In t touches -> VC.identifier t <> id) ->
     VC.onJoystickMove sqrt touches v = v /\ VC.onJoystickEnd touches v = v) /\
  VC.joystickTouch (VC.enable (VC.disable v)) = Some id /\
  VC.getInput (VC.enable (VC.disable v)) = VC.getInput v /\
  (VC.enabled v = true ->
   VC.joystickKnob (VC.enable (VC.disable v)) = Some (70, 70)%Q).
Proof.
  intros Ht. split; [|split; [|split; [|split]]].
  - intros touches rect. unfold VC.onJoystickStart. now rewrite Ht.
  - intros touches Hothers. unfold VC.onJoystickMove, VC.onJoystickEnd.
    rewrite Ht. split;
      [now apply moveTracked_others | now apply endTracked_others].
  - unfold VC.enable, VC.disable.
    destruct (VC.enabled v) eqn:He; simpl; rewrite ?He; simpl; exact Ht.
  - unfold VC.enable, VC.disable.
    destruct (VC.enabled v) eqn:He; simpl; rewrite ?He; reflexivity.
  - intros He. unfold VC.enable, VC.disable. rewrite He. reflexivity.
Qed.

(** X16: whatever the events, the controller is enabled exactly when its
    container is in the document, and exactly when the Mobile button is
    hidden; an enabled controller always has a knob. *)
Theorem enabled_iff_ui_present (evs : list VC.event) :
  let v := VC.run sqrt evs VC.constructor in
  VC.enabled v = VC.container v /\
  (VC.enabled v = true <-> VC.mobileButtonDisplay v = Some "none") /\
  (VC.enabled v = true -> VC.joystickKnob v <> None).
Proof.
  set (P := fun v : VC.State =>
              VC.enabled v = VC.container v /\
              (VC.enabled v = true <-> VC.mobileButtonDisplay v = Some "none") /\
              (VC.enabled v = true -> VC.joystickKnob v <> None)).
  assert (forall ev v, P v -> P (VC.step sqrt ev v)) as Hstep.
  { intros ev v (H1 & H2 & H3). unfold P.
    assert (forall v', sameFrame v v' ->
                       (VC.joystickKnob v <> None -> VC.joystickKnob v' <> None) ->
                       P v') as Hsame.
    { intros v' (E1 & E2 & E3 & _) Hk. unfold P. rewrite E1, E2, E3.
      split; [exact H1|]. split; [exact H2 | auto]. }
    destruct ev.
    - simpl. unfold VC.enable. destruct (VC.enabled v) eqn:He.
      + rewrite He. auto.
      + simpl. split; [reflexivity|]. split; [tauto | discriminate].
    - simpl. unfold VC.disable. destruct (VC.enabled v) eqn:He; simpl.
      + split; [reflexivity|]. split; [split; discriminate | discriminate].
      + rewrite He. auto.
    - apply Hsame; [apply step_sameFrame; discriminate|].
      simpl. unfold VC.whenListening.
      destruct (VC.joystickKnob v) eqn:Hk; [|congruence].
      intros _. unfold VC.onJoystickStart.
      destruct (VC.joystickTouch v); [congruence|].
      destruct touches; [congruence | discriminate].
    - apply Hsame; [apply step_sameFrame; discriminate|].
      simpl. unfold VC.whenListening.
      destruct (VC.joystickKnob v) eqn:Hk; [|congruence].
      intros _. unfold VC.onJoystickMove.
      destruct (VC.joystickTouch v) as [id|]; [|congruence].
      induction touches as [|t rest IH]; simpl; [congruence|].
      destruct (Z.eqb (VC.identifier t) id); [discriminate | exact IH].
    - apply Hsame; [apply step_sameFrame; discriminate|].
      simpl. unfold VC.whenListening.
      destruct (VC.joystickKnob v) eqn:Hk; [|congruence].
      intros _. unfold VC.onJoystickEnd.
      destruct (VC.joystickTouch v) as [id|]; [|congruence].
      destruct (endTracked_cases id touches v) as [-> | ->];
        [congruence | discriminate].
    - simpl. unfold VC.whenListening.
      destruct (VC.joystickKnob v) eqn:Hk; simpl; rewrite ?Hk;
        (split; [exact H1|]); (split; [exact H2|]);
        first [exact H3 | intros _; congruence].
    - simpl. unfold VC.whenListening.
      destruct (VC.joystickKnob v) eqn:Hk; simpl; rewrite ?Hk;
        (split; [exact H1|]); (split; [exact H2|]);
        first [exact H3 | intros _; congruence].
    - simpl. auto. }
  assert (forall v, P v -> P (VC.run sqrt evs v)) as Hrun.
  { induction evs as [|ev evs IH]; intros v Hv; [exact Hv|].
    simpl. apply IH. now apply Hstep. }
  apply Hrun. unfold P. simpl.
  split; [reflexivity|]. split; [split; discriminate | discriminate].
Qed.

End JoystickFacts.

Lemma only_the_tracked_touch_moves_the_joystick_witness :
  VC.joystickTouch VC.deflected = Some 7%Z /\
  VC.joystickTouch (VC.enable (VC.disable VC.deflected)) = Some 7%Z /\
  (VC.inputX (VC.getInput (VC.enable (VC.disable VC.deflected))) == 3 # 10)%Q /\
  (VC.inputY (VC.getInput (VC.enable (VC.disable VC.deflected))) == 4 # 10)%Q /\
  VC.joystickKnob (VC.enable (VC.disable VC.deflected)) = Some (70, 70)%Q.
Proof.
  destruct (only_the_tracked_touch_moves_the_joystick VC.integerSqrt
              VC.deflected 7%Z eq_refl) as (_ & _ & Ht & Hinput & Hknob).
  split; [reflexivity|]. split; [exact Ht|].
  rewrite Hinput.
  split; [reflexivity|]. split; [reflexivity|].
  exact (Hknob eq_refl).
Defined.

(* ================================================================== *)
(** * Properties of main.js and setupVR *)

(** ** Indices *)

Lemma toDouble_safe z :
  (Z.abs z < 2 ^ 53)%Z -> Viewer.toDouble z = z.
Proof.
  intros H. unfold Viewer.toDouble.
  destruct (Z.ltb_spec (Z.abs z) (2 ^ 53)); [reflexivity | lia].
Qed.

Lemma toDouble_nonneg z : (0 <= z)%Z -> (0 <= Viewer.toDouble z)%Z.
Proof.
  intros Hz. unfold Viewer.toDouble.
  destruct (Z.ltb_spec (Z.abs z) (2 ^ 53)) as [_ | Hbig]; [exact Hz|].
  set (ulp := (2 ^ (Z.log2 (Z.abs z) - 52))%Z).
  assert (0 < ulp)%Z as Hulp.
  { apply Z.pow_pos_nonneg; [lia|].
    assert (53 <= Z.log2 (Z.abs z))%Z
      by (apply Z.log2_le_pow2; lia).
    lia. }
  assert (0 <= Z.abs z / ulp)%Z as Hq by (apply Z.div_pos; lia).
  assert (0 <= Z.sgn z)%Z as Hsgn by (apply Z.sgn_nonneg; exact Hz).
  destruct (Z.ltb (Z.abs z mod ulp) (ulp / 2));
    [|destruct (Z.ltb (ulp / 2) (Z.abs z mod ulp));
      [|destruct (Z.even (Z.abs z / ulp))]];
    apply Z.mul_nonneg_nonneg; try exact Hsgn;
    apply Z.mul_nonneg_nonneg; lia.
Qed.

(** Beyond 2^53 the sum is rounded before the remainder is taken. *)
Lemma nextIndex_rounds_the_sum :
  Viewer.toDouble (-9007199254740996 + 1) = (-9007199254740996)%Z /\
  Viewer.nextIndex (Some (-9007199254740996)%Z) 9 = Some 0%Z /\
  Viewer.nextIndex (Some 9007199254740992%Z) 9 = Some 5%Z.
Proof. repeat split; vm_compute; reflexivity. Qed.

Lemma nextIndex_inBounds index len :
  Viewer.inBounds index len -> Viewer.inBounds (Viewer.nextIndex index len) len.
Proof.
  intros (i & -> & Hi). unfold Viewer.nextIndex.
  destruct (Nat.eqb_spec len 0) as [-> | Hne]; [simpl in Hi; lia|].
  exists (Z.rem (Viewer.toDouble (i + 1)) (Z.of_nat len)).
  split; [reflexivity|].
  apply Z.rem_bound_pos; [apply toDouble_nonneg|]; lia.
Qed.

Lemma at_inBounds files index :
  Viewer.inBounds index (List.length files) ->
  exists file, Viewer.at_ files index = Some file /\ In file files.
Proof.
  intros (i & -> & Hi). unfold Viewer.at_.
  destruct (Z.leb_spec 0 i) as [_ | H]; [|lia].
  destruct (nth_error files (Z.to_nat i)) as [file|] eqn:E.
  - exists file. split; [reflexivity | now apply nth_error_In in E].
  - apply nth_error_None in E. lia.
Qed.

Lemma activeItems_from ext index files c :
  Viewer.activeItems (Viewer.statusItemsFrom ext (Some c) index files) =
  if (Z.leb (Z.of_nat index) c && Z.ltb c (Z.of_nat (index + List.length files)))%bool
  then 1 else 0.
Proof.
  unfold Viewer.activeItems.
  revert index. induction files as [|file rest IH]; intros index.
  - simpl. rewrite Nat.add_0_r.
    destruct (Z.leb_spec (Z.of_nat index) c), (Z.ltb_spec c (Z.of_nat index));
      try reflexivity; lia.
  - cbn [Viewer.statusItemsFrom filter snd].
    destruct (Z.eqb_spec (Z.of_nat index) c) as [E | E]; cbn [List.length].
    + rewrite IH. subst c.
      replace (Z.leb (Z.of_nat (S index)) (Z.of_nat index)) with false
        by (symmetry; apply Z.leb_gt; lia).
      rewrite Z.leb_refl. simpl.
      replace (Z.ltb (Z.of_nat index) (Z.of_nat (index + S (List.length rest))))
        with true by (symmetry; apply Z.ltb_lt; lia).
      reflexivity.
    + rewrite IH.
      replace (index + S (List.length rest)) with (S index + List.length rest)
        by lia.
      destruct (Z.leb_spec (Z.of_nat (S index)) c),
               (Z.leb_spec (Z.of_nat index) c); try reflexivity; lia.
Qed.

Lemma activeItems_inBounds ext files index :
  Viewer.inBounds index (List.length files) ->
  Viewer.activeItems (Viewer.statusItems ext index files) = 1.
Proof.
  intros (i & -> & Hi). unfold Viewer.statusItems.
  rewrite activeItems_from. simpl.
  destruct (Z.leb_spec 0 i), (Z.ltb_spec i (Z.of_nat (List.length files)));
    try reflexivity; lia.
Qed.

Lemma findIndexFrom_range {A : Type} (p : A -> bool) l :
  forall i,
    Viewer.findIndexFrom p i l = (-1)%Z \/
    (i <= Viewer.findIndexFrom p i l < i + Z.of_nat (List.length l))%Z.
Proof.
  induction l as [|a l IH]; intros i; simpl; [now left|].
  destruct (p a); [right; lia|].
  destruct (IH (i + 1)%Z) as [-> | H]; [now left | right; lia].
Qed.

Lemma startup_inBounds gsPath gvrmPath gsFileName :
  Viewer.inBounds
    (Some (Viewer.initialGvrmIndex (Viewer.startup gsPath gvrmPath gsFileName)))
    (List.length Viewer.gvrmFiles).
Proof.
  assert (forall p : string -> bool,
          Viewer.inBounds
            (Some (if Z.eqb (Viewer.findIndex p Viewer.gvrmFiles) (-1) then 0%Z
                   else Viewer.findIndex p Viewer.gvrmFiles))
            (List.length Viewer.gvrmFiles)) as H.
  { intros p. eexists. split; [reflexivity|].
    unfold Viewer.findIndex.
    destruct (findIndexFrom_range p Viewer.gvrmFiles 0) as [-> | Hr];
      [simpl; lia|].
    destruct (Z.eqb_spec (Viewer.findIndexFrom p 0 Viewer.gvrmFiles) (-1));
      [simpl; lia | lia]. }
  assert (Viewer.inBounds (Some 0%Z) (List.length Viewer.gvrmFiles)) as H0.
  { exists 0%Z. split; [reflexivity | simpl; lia]. }
  unfold Viewer.startup.
  destruct gvrmPath as [[|c s]|]; try apply H;
    destruct gsPath as [[|c' s']|]; try apply H; exact H0.
Qed.

Lemma main_step_sound ev st :
  Viewer.inBounds (Viewer.currentGvrmIndex st) (List.length Viewer.gvrmFiles) ->
  Viewer.inBounds (Viewer.currentFbxIndex st) (List.length Viewer.fbxFiles) ->
  Viewer.inBounds (Viewer.currentGvrmIndex (fst (Viewer.step ev st)))
                  (List.length Viewer.gvrmFiles) /\
  Viewer.inBounds (Viewer.currentFbxIndex (fst (Viewer.step ev st)))
                  (List.length Viewer.fbxFiles) /\
  Forall (Viewer.sound Viewer.gvrmFiles Viewer.fbxFiles) (snd (Viewer.step ev st)).
Proof.
  intros Hg Hf.
  pose proof (nextIndex_inBounds _ _ Hg) as Hg'.
  pose proof (nextIndex_inBounds _ _ Hf) as Hf'.
  assert (forall g f, Viewer.inBounds g (List.length Viewer.gvrmFiles) ->
                      Viewer.inBounds f (List.length Viewer.fbxFiles) ->
                      Viewer.sound Viewer.gvrmFiles Viewer.fbxFiles
                        (Viewer.drawStatus g f)) as Hdraw.
  { intros g f H1 H2. split; now apply activeItems_inBounds. }
  assert (let p := Viewer.switchAvatar st in
          Viewer.inBounds (Viewer.currentGvrmIndex (fst p))
                          (List.length Viewer.gvrmFiles) /\
          Viewer.inBounds (Viewer.currentFbxIndex (fst p))
                          (List.length Viewer.fbxFiles) /\
          Forall (Viewer.sound Viewer.gvrmFiles Viewer.fbxFiles) (snd p))
    as Havatar.
  { unfold Viewer.switchAvatar. cbn [fst snd Viewer.currentGvrmIndex
                                      Viewer.currentFbxIndex].
    split; [exact Hg'|]. split; [exact Hf|].
    constructor; [now apply Hdraw|]. constructor; [exact I | constructor]. }
  assert (let p := Viewer.switchAnimation st in
          Viewer.inBounds (Viewer.currentGvrmIndex (fst p))
                          (List.length Viewer.gvrmFiles) /\
          Viewer.inBounds (Viewer.currentFbxIndex (fst p))
                          (List.length Viewer.fbxFiles) /\
          Forall (Viewer.sound Viewer.gvrmFiles Viewer.fbxFiles) (snd p))
    as Hanim.
  { unfold Viewer.switchAnimation. cbn [fst snd Viewer.currentGvrmIndex
                                         Viewer.currentFbxIndex].
    split; [exact Hg|]. split; [exact Hf'|].
    constructor; [now apply Hdraw|]. constructor; [|constructor].
    destruct (Viewer.gvrm st); [|exact I].
    now apply at_inBounds. }
  assert (Viewer.inBounds (Viewer.currentGvrmIndex st)
                          (List.length Viewer.gvrmFiles) /\
          Viewer.inBounds (Viewer.currentFbxIndex st)
                          (List.length Viewer.fbxFiles) /\
          Forall (Viewer.sound Viewer.gvrmFiles Viewer.fbxFiles) [])
    as Hsame by (repeat split; try assumption; constructor).
  destruct ev; simpl.
  - unfold Viewer.onKeyDown.
    destruct (String.eqb code "KeyG").
    + destruct (Viewer.gvrm st) as [a|]; [|exact Hsame].
      destruct (negb (Viewer.isReady a) || Viewer.isLoading a);
        [exact Hsame | exact Havatar].
    + destruct (String.eqb code "KeyA"); [exact Hanim | exact Hsame].
  - unfold Viewer.onMobileSwitchAvatar.
    destruct (Viewer.gvrm st) as [a|]; [|exact Hsame].
    destruct (negb (Viewer.isReady a)); [exact Hsame | exact Havatar].
  - unfold Viewer.onMobileSwitchAnimation.
    destruct (Viewer.gvrm st); [exact Hanim | exact Hsame].
  - unfold Viewer.settle.
    destruct (nth_error (Viewer.pending st) k) as [[|]|]; simpl;
      try exact Hsame;
      (split; [exact Hg|]; split; [exact Hf|]);
      constructor; try constructor; now apply at_inBounds.
  - exact Hsame.
Qed.

(** X17: whatever was passed at start-up and whatever keys, buttons and
    settlements follow, the two indices of main.js always point into their
    arrays; every file handed to gvrm.load and gvrm.changeFBX is an element
    of gvrmFiles, respectively fbxFiles (never undefined), and every status
    list drawn marks exactly one avatar and exactly one animation as
    active. *)
Theorem main_indices_stay_in_bounds
  (gsPath gvrmPath gsFileName : option string) (evs : list Viewer.event) :
  let res := Viewer.run evs
               (Viewer.initial (Viewer.startup gsPath gvrmPath gsFileName)) in
  Viewer.inBounds (Viewer.currentGvrmIndex (fst res))
                  (List.length Viewer.gvrmFiles) /\
  Viewer.inBounds (Viewer.currentFbxIndex (fst res))
                  (List.length Viewer.fbxFiles) /\
  Forall (Viewer.sound Viewer.gvrmFiles Viewer.fbxFiles) (snd res).
Proof.
  assert (forall st,
    Viewer.inBounds (Viewer.currentGvrmIndex st) (List.length Viewer.gvrmFiles) ->
    Viewer.inBounds (Viewer.currentFbxIndex st) (List.length Viewer.fbxFiles) ->
    Viewer.inBounds (Viewer.currentGvrmIndex (fst (Viewer.run evs st)))
                    (List.length Viewer.gvrmFiles) /\
    Viewer.inBounds (Viewer.currentFbxIndex (fst (Viewer.run evs st)))
                    (List.length Viewer.fbxFiles) /\
    Forall (Viewer.sound Viewer.gvrmFiles Viewer.fbxFiles)
           (snd (Viewer.run evs st))) as H.
  { induction evs as [|ev evs IH]; intros st Hg Hf.
    - simpl. repeat split; try assumption. constructor.
    - destruct (main_step_sound ev st Hg Hf) as (Hg' & Hf' & He).
      destruct (IH _ Hg' Hf') as (Hg'' & Hf'' & He').
      cbn [Viewer.run fst snd].
      split; [exact Hg''|]. split; [exact Hf''|].
      apply Forall_app. split; assumption. }
  intros res. subst res. apply H.
  - apply startup_inBounds.
  - exists 0%Z. split; [reflexivity | simpl; lia].
Qed.

Lemma nextIndex_mod i len :
  (0 <= i < Z.of_nat len)%Z -> (Z.of_nat len < 2 ^ 53)%Z ->
  Viewer.nextIndex (Some i) len = Some ((i + 1) mod Z.of_nat len)%Z.
Proof.
  intros Hi Hlen. unfold Viewer.nextIndex.
  destruct (Nat.eqb_spec len 0) as [-> | _]; [simpl in Hi; lia|].
  rewrite toDouble_safe by lia.
  now rewrite Z.rem_mod_nonneg by lia.
Qed.

Lemma keyA_step st :
  fst (Viewer.step (Viewer.KeyDown "KeyA") st) =
    {| Viewer.currentGvrmIndex := Viewer.currentGvrmIndex st;
       Viewer.currentFbxIndex :=
         Viewer.nextIndex (Viewer.currentFbxIndex st)
                          (List.length Viewer.fbxFiles);
       Viewer.gvrm := Viewer.gvrm st; Viewer.pending := Viewer.pending st |} /\
  (Viewer.gvrm st = None ->
   forall f, ~ In (Viewer.ChangeFBX f)
                  (snd (Viewer.step (Viewer.KeyDown "KeyA") st))).
Proof.
  split; [reflexivity|].
  intros Hg f. simpl. unfold Viewer.onKeyDown. simpl.
  unfold Viewer.switchAnimation. rewrite Hg. simpl.
  intros [H | [H | []]]; discriminate H.
Qed.

(** X18: the KeyA key cycles through the animations whether or not an
    avatar is loaded: from index i, k presses leave currentFbxIndex at
    (i + k) mod 12, so twelve presses come back to i, and the avatar index
    is untouched.  Without an avatar no press ever reaches changeFBX (each
    one fails after the index has advanced and the status list has been
    redrawn), whereas the mobile animation button then does nothing at
    all. *)
Theorem keyA_cycles_through_animations
  (st : Viewer.State) (k : nat) (i : Z) :
  Viewer.currentFbxIndex st = Some i ->
  (0 <= i < 12)%Z ->
  let res := Viewer.run (Viewer.pressKeyA k) st in
  Viewer.currentFbxIndex (fst res) = Some ((i + Z.of_nat k) mod 12)%Z /\
  Viewer.currentGvrmIndex (fst res) = Viewer.currentGvrmIndex st /\
  Viewer.currentFbxIndex (fst (Viewer.run (Viewer.pressKeyA 12) st)) = Some i /\
  (Viewer.gvrm st = None ->
   (forall f, ~ In (Viewer.ChangeFBX f) (snd res)) /\
   Viewer.onMobileSwitchAnimation st = (st, [])).
Proof.
  intros Hi Hr.
  assert (forall n st' j,
            Viewer.currentFbxIndex st' = Some j -> (0 <= j < 12)%Z ->
            Viewer.currentFbxIndex (fst (Viewer.run (Viewer.pressKeyA n) st')) =
              Some ((j + Z.of_nat n) mod 12)%Z /\
            Viewer.currentGvrmIndex (fst (Viewer.run (Viewer.pressKeyA n) st')) =
              Viewer.currentGvrmIndex st' /\
            (Viewer.gvrm st' = None ->
             forall f, ~ In (Viewer.ChangeFBX f)
                            (snd (Viewer.run (Viewer.pressKeyA n) st'))))
    as Hgen.
  { induction n as [|n IH]; intros st' j Hj Hjr.
    - simpl. rewrite Z.add_0_r, Z.mod_small by lia.
      split; [exact Hj|]. split; [reflexivity|]. intros _ f [].
    - unfold Viewer.pressKeyA. cbn [repeat Viewer.run fst snd].
      destruct (keyA_step st') as [E Hno].
      fold (Viewer.pressKeyA n).
      destruct (IH (fst (Viewer.step (Viewer.KeyDown "KeyA") st'))
                   ((j + 1) mod 12)%Z) as (H1 & H2 & H3).
      + rewrite E. cbn [Viewer.currentFbxIndex]. rewrite Hj.
        apply (nextIndex_mod j 12); [exact Hjr | reflexivity].
      + apply Z.mod_pos_bound. lia.
      + split; [|split].
        * rewrite H1. f_equal.
          rewrite Zplus_mod_idemp_l. f_equal. lia.
        * rewrite H2, E. reflexivity.
        * intros Hg f Hin. apply in_app_or in Hin as [Hin | Hin].
          -- exact (Hno Hg f Hin).
          -- refine (H3 _ f Hin). rewrite E. exact Hg. }
  intros res. subst res.
  destruct (Hgen k st i Hi Hr) as (H1 & H2 & H3).
  destruct (Hgen 12 st i Hi Hr) as (H4 & _ & _).
  split; [exact H1|]. split; [exact H2|]. split.
  - rewrite H4. f_equal.
    change (Z.of_nat 12) with (1 * 12)%Z.
    rewrite Z_mod_plus_full. apply Z.mod_small. exact Hr.
  - intros Hg. split; [exact (H3 Hg)|].
    unfold Viewer.onMobileSwitchAnimation. now rewrite Hg.
Qed.

Lemma keyA_cycles_through_animations_witness :
  Viewer.currentFbxIndex
    (Viewer.initial (Viewer.startup None None None)) = Some 0%Z /\
  (0 <= 0 < 12)%Z /\
  Viewer.currentFbxIndex
    (fst (Viewer.run (Viewer.pressKeyA 14)
            (Viewer.initial (Viewer.startup None None None)))) = Some 2%Z.
Proof.
  split; [reflexivity|]. split; [lia|].
  exact (proj1 (keyA_cycles_through_animations
                  (Viewer.initial (Viewer.startup None None None)) 14 0
                  eq_refl ltac:(lia))).
Defined.

(** X19: the three ways of switching the avatar are guarded differently.
    While the avatar is ready but its character is still loading, the KeyG
    key and the VR panel do nothing, but the mobile button switches: it
    advances the index, redraws the status list and asks the avatar to
    remove itself. *)
Theorem switching_while_loading
  (st : Viewer.State) (a : Viewer.Avatar)
  (vst : Viewer.VRState) (gvrmFs fbxFs : list string) :
  Viewer.gvrm st = Some a ->
  Viewer.isReady a = true ->
  Viewer.isLoading a = true ->
  Viewer.onKeyDown "KeyG" st = (st, []) /\
  Viewer.onSelectStart (Some a) gvrmFs fbxFs (Some Viewer.LeftPanel) vst =
    (vst, []) /\
  Viewer.onMobileSwitchAvatar st = Viewer.switchAvatar st /\
  Viewer.currentGvrmIndex (fst (Viewer.onMobileSwitchAvatar st)) =
    Viewer.nextIndex (Viewer.currentGvrmIndex st) 9 /\
  In Viewer.Remove (snd (Viewer.onMobileSwitchAvatar st)).
Proof.
  intros Hg Hr Hl.
  unfold Viewer.onKeyDown, Viewer.onSelectStart, Viewer.onMobileSwitchAvatar.
  simpl. rewrite Hg, Hr, Hl. simpl.
  repeat split. right. now left.
Qed.

Lemma switching_while_loading_witness :
  Viewer.onKeyDown "KeyG"
    (Viewer.mkState (Some 0%Z) (Some 0%Z) (Some (Viewer.mkAvatar true true)) []) =
    (Viewer.mkState (Some 0%Z) (Some 0%Z) (Some (Viewer.mkAvatar true true)) [],
     []) /\
  Viewer.currentGvrmIndex
    (fst (Viewer.onMobileSwitchAvatar
            (Viewer.mkState (Some 0%Z) (Some 0%Z)
                            (Some (Viewer.mkAvatar true true)) []))) = Some 1%Z.
Proof.
  destruct (switching_while_loading
              (Viewer.mkState (Some 0%Z) (Some 0%Z)
                              (Some (Viewer.mkAvatar true true)) [])
              (Viewer.mkAvatar true true) Viewer.setupVR [] []
              eq_refl eq_refl eq_refl) as (H1 & _ & _ & H2 & _).
  split; [exact H1 | exact H2].
Defined.

(** ** The indices of the VR panels *)

Lemma vr_step_sound gvrmFs fbxFs ev st :
  Viewer.inBounds (Viewer.vrGvrmIndex st) (List.length gvrmFs) ->
  Viewer.inBounds (Viewer.vrFbxIndex st) (List.length fbxFs) ->
  Viewer.inBounds (Viewer.vrGvrmIndex (fst (Viewer.vrStep gvrmFs fbxFs ev st)))
                  (List.length gvrmFs) /\
  Viewer.inBounds (Viewer.vrFbxIndex (fst (Viewer.vrStep gvrmFs fbxFs ev st)))
                  (List.length fbxFs) /\
  Forall (Viewer.sound gvrmFs fbxFs) (snd (Viewer.vrStep gvrmFs fbxFs ev st)).
Proof.
  intros Hg Hf.
  pose proof (nextIndex_inBounds _ _ Hg) as Hg'.
  pose proof (nextIndex_inBounds _ _ Hf) as Hf'.
  assert (Viewer.inBounds (Viewer.vrGvrmIndex st) (List.length gvrmFs) /\
          Viewer.inBounds (Viewer.vrFbxIndex st) (List.length fbxFs) /\
          Forall (Viewer.sound gvrmFs fbxFs) [])
    as Hsame by (repeat split; try assumption; constructor).
  destruct ev as [avatar hit | k]; simpl.
  - unfold Viewer.onSelectStart.
    destruct hit as [[|]|]; [| |exact Hsame].
    + destruct avatar as [a|]; [|exact Hsame].
      destruct (negb (Viewer.isReady a) || Viewer.isLoading a);
        [exact Hsame|].
      simpl. split; [exact Hg'|]. split; [exact Hf|].
      constructor; [exact I | constructor].
    + destruct avatar as [a|]; [|exact Hsame].
      simpl. split; [exact Hg|]. split; [exact Hf'|].
      constructor; [now apply at_inBounds | constructor].
  - unfold Viewer.vrSettle.
    destruct (nth_error (Viewer.vrPending st) k) as [[|]|]; simpl;
      try exact Hsame;
      (split; [exact Hg|]; split; [exact Hf|]);
      constructor; try constructor; now apply at_inBounds.
Qed.

(** X20: with non-empty file lists, whatever panels are selected and
    whatever settles, the indices kept by setupVR always point into the
    lists, and every file handed to gvrm.load and gvrm.changeFBX is an
    element of the corresponding list. *)
Theorem vr_indices_stay_in_bounds
  (gvrmFs fbxFs : list string) (evs : list Viewer.vrEvent) :
  gvrmFs <> [] -> fbxFs <> [] ->
  let res := Viewer.vrRun gvrmFs fbxFs evs Viewer.setupVR in
  Viewer.inBounds (Viewer.vrGvrmIndex (fst res)) (List.length gvrmFs) /\
  Viewer.inBounds (Viewer.vrFbxIndex (fst res)) (List.length fbxFs) /\
  Forall (Viewer.sound gvrmFs fbxFs) (snd res).
Proof.
  intros Hne1 Hne2.
  assert (forall st,
    Viewer.inBounds (Viewer.vrGvrmIndex st) (List.length gvrmFs) ->
    Viewer.inBounds (Viewer.vrFbxIndex st) (List.length fbxFs) ->
    Viewer.inBounds (Viewer.vrGvrmIndex (fst (Viewer.vrRun gvrmFs fbxFs evs st)))
                    (List.length gvrmFs) /\
    Viewer.inBounds (Viewer.vrFbxIndex (fst (Viewer.vrRun gvrmFs fbxFs evs st)))
                    (List.length fbxFs) /\
    Forall (Viewer.sound gvrmFs fbxFs)
           (snd (Viewer.vrRun gvrmFs fbxFs evs st))) as H.
  { induction evs as [|ev evs IH]; intros st Hg Hf.
    - simpl. repeat split; try assumption. constructor.
    - destruct (vr_step_sound gvrmFs fbxFs ev st Hg Hf) as (Hg' & Hf' & He).
      destruct (IH _ Hg' Hf') as (Hg'' & Hf'' & He').
      cbn [Viewer.vrRun fst snd].
      split; [exact Hg''|]. split; [exact Hf''|].
      apply Forall_app. split; assumption. }
  intros res. subst res. apply H.
  - exists 0%Z. split; [reflexivity|]. destruct gvrmFs; [congruence | simpl; lia].
  - exists 0%Z. split; [reflexivity|]. destruct fbxFs; [congruence | simpl; lia].
Qed.

Lemma vr_indices_stay_in_bounds_witness :
  Viewer.gvrmFiles <> [] /\ Viewer.fbxFiles <> [] /\
  Viewer.inBounds
    (Viewer.vrGvrmIndex
       (fst (Viewer.vrRun Viewer.gvrmFiles Viewer.fbxFiles
               [Viewer.SelectStart (Some (Viewer.mkAvatar true false))
                                   (Some Viewer.LeftPanel);
                Viewer.VRSettle 0]
               Viewer.setupVR)))
    (List.length Viewer.gvrmFiles).
Proof.
  split; [discriminate|]. split; [discriminate|].
  refine (proj1 (vr_indices_stay_in_bounds Viewer.gvrmFiles Viewer.fbxFiles
                   _ _ _)); discriminate.
Defined.

(** X21: setCurrentGvrmIndex takes any number, and the remainder of
    JavaScript keeps the sign of the dividend: after a safe integer below -1
    (not below -2^53, so that adding 1 is exact) whose successor is not a
    multiple of the (non-zero) list length, the next avatar switch leaves a
    negative index and, once the removal has settled, asks gvrm.load for an
    undefined file. *)
Theorem vr_negative_index_loads_undefined
  (gvrmFs fbxFs : list string) (a : Viewer.Avatar) (st : Viewer.VRState)
  (i : Z) :
  gvrmFs <> [] ->
  (- 2 ^ 53 <= i < -1)%Z ->
  Z.rem (i + 1) (Z.of_nat (List.length gvrmFs)) <> 0%Z ->
  Viewer.isReady a = true -> Viewer.isLoading a = false ->
  Viewer.vrPending st = [] ->
  let res := Viewer.vrRun gvrmFs fbxFs
               [Viewer.SelectStart (Some a) (Some Viewer.LeftPanel);
                Viewer.VRSettle 0]
               (Viewer.setCurrentGvrmIndex (Some i) st) in
  (exists j, Viewer.vrGvrmIndex (fst res) = Some j /\ (j < 0)%Z) /\
  snd res = [Viewer.Remove; Viewer.Load None].
Proof.
  intros Hne Hi Hrem Hr Hl Hp res. subst res.
  assert (List.length gvrmFs <> 0) as Hlen
    by (destruct gvrmFs; [congruence | discriminate]).
  assert (Z.rem (i + 1) (Z.of_nat (List.length gvrmFs)) < 0)%Z as Hneg.
  { pose proof (Z.rem_nonpos (i + 1) (Z.of_nat (List.length gvrmFs))
                  ltac:(lia) ltac:(lia)). lia. }
  destruct st as [g f p]. cbn [Viewer.vrPending] in Hp. subst p.
  unfold Viewer.setCurrentGvrmIndex.
  cbn [Viewer.vrRun Viewer.vrStep fst snd Viewer.vrFbxIndex Viewer.vrPending].
  unfold Viewer.onSelectStart. rewrite Hr, Hl.
  cbn [negb orb fst snd Viewer.vrGvrmIndex Viewer.vrPending
       Viewer.vrFbxIndex app].
  unfold Viewer.vrSettle.
  cbn [Viewer.vrPending nth_error fst snd Viewer.vrGvrmIndex app].
  unfold Viewer.nextIndex.
  destruct (Nat.eqb_spec (List.length gvrmFs) 0) as [E | _]; [congruence|].
  rewrite toDouble_safe by lia.
  split.
  - eexists. split; [reflexivity | exact Hneg].
  - unfold Viewer.at_.
    destruct (Z.leb_spec 0 (Z.rem (i + 1) (Z.of_nat (List.length gvrmFs))));
      [lia | reflexivity].
Qed.

Lemma vr_negative_index_loads_undefined_witness :
  Viewer.gvrmFiles <> [] /\ (- 2 ^ 53 <= -5 < -1)%Z /\
  snd (Viewer.vrRun Viewer.gvrmFiles Viewer.fbxFiles
         [Viewer.SelectStart (Some (Viewer.mkAvatar true false))
                             (Some Viewer.LeftPanel);
          Viewer.VRSettle 0]
         (Viewer.setCurrentGvrmIndex (Some (-5)%Z) Viewer.setupVR)) =
    [Viewer.Remove; Viewer.Load None].
Proof.
  split; [discriminate|]. split; [lia|].
  refine (proj2 (vr_negative_index_loads_undefined Viewer.gvrmFiles
                   Viewer.fbxFiles (Viewer.mkAvatar true false) Viewer.setupVR
                   (-5)%Z _ _ _ eq_refl eq_refl eq_refl)).
  - discriminate.
  - lia.
  - discriminate.
Defined.

(** ** File names *)

Lemma split_app_sep sep d t :
  JsString.split sep (d ++ String sep t) =
    JsString.split sep d ++ JsString.split sep t.
Proof.
  induction d as [|c d IH]; cbn [append JsString.split].
  - now rewrite Ascii.eqb_refl.
  - destruct (Ascii.eqb c sep); [now rewrite IH|].
    rewrite IH.
    destruct (JsString.split sep d) as [|seg segs] eqn:E; [|reflexivity].
    now destruct (split_nonempty sep d).
Qed.

Lemma pop_app l l' : l' <> [] -> JsString.pop (l ++ l') = JsString.pop l'.
Proof.
  intros Hne. unfold JsString.pop. rewrite rev_app_distr.
  destruct (rev l') as [|x xs] eqn:E; [|reflexivity].
  apply (f_equal (@rev string)) in E. rewrite rev_involutive in E.
  now destruct Hne.
Qed.

Lemma split_slash_app s t :
  Viewer.plainName s = true ->
  JsString.split "/" t = [t] ->
  JsString.split "/" (s ++ t) = [(s ++ t)%string].
Proof.
  intros Hs Ht. induction s as [|c s IH]; cbn [append]; [exact Ht|].
  cbn [Viewer.plainName] in Hs.
  apply andb_true_iff in Hs as [Hc Hs].
  apply andb_true_iff in Hc as [_ Hc].
  apply negb_true_iff in Hc.
  cbn [JsString.split]. rewrite Hc, (IH Hs). reflexivity.
Qed.

Lemma split_dot_plain s :
  Viewer.plainName s = true -> JsString.split "." s = [s].
Proof.
  induction s as [|c s IH]; intros Hs; [reflexivity|].
  cbn [Viewer.plainName] in Hs.
  apply andb_true_iff in Hs as [Hc Hs].
  apply andb_true_iff in Hc as [Hc _].
  apply negb_true_iff in Hc.
  cbn [JsString.split]. rewrite Hc, (IH Hs). reflexivity.
Qed.

Lemma split_slash_file s e :
  Viewer.plainName s = true -> Viewer.plainName e = true ->
  JsString.split "/" (s ++ String "." e) = [(s ++ String "." e)%string].
Proof.
  intros Hs He. apply split_slash_app; [exact Hs|].
  cbn [JsString.split]. change (Ascii.eqb "." "/") with false. cbv iota.
  pose proof (split_slash_app e EmptyString He eq_refl) as H.
  assert (forall x : string, (x ++ EmptyString)%string = x) as Hnil
    by (induction x as [|? ? IHx]; [reflexivity | simpl; now rewrite IHx]).
  rewrite Hnil in H. now rewrite H.
Qed.

Lemma basename_dir d t : Viewer.basename (d ++ String "/" t) = Viewer.basename t.
Proof.
  unfold Viewer.basename. rewrite split_app_sep, pop_app; [reflexivity|].
  apply split_nonempty.
Qed.

Lemma basename_file s e :
  Viewer.plainName s = true -> Viewer.plainName e = true ->
  Viewer.basename (s ++ String "." e) = (s ++ String "." e)%string.
Proof.
  intros Hs He. unfold Viewer.basename.
  now rewrite split_slash_file.
Qed.

Lemma stripPath_file s e :
  Viewer.plainName s = true -> Viewer.plainName e = true ->
  stripPath (s ++ String "." e) = Some s.
Proof.
  intros Hs He. unfold stripPath.
  rewrite split_slash_file by assumption. cbn [JsString.pop rev app].
  rewrite split_app_sep, split_dot_plain by exact Hs. reflexivity.
Qed.

Lemma stripPath_dir d s e :
  Viewer.plainName s = true -> Viewer.plainName e = true ->
  stripPath (d ++ String "/" (s ++ String "." e)) = Some s.
Proof.
  intros Hs He. unfold stripPath.
  rewrite split_app_sep, pop_app by apply split_nonempty.
  exact (stripPath_file s e Hs He).
Qed.

(** X22: the download name is built from the stems of the two paths: for an
    avatar file dir/stem.ext and an animation dir'/stem'.ext' (stems and
    extensions without dot and slash, any directories) the base name is
    recording_stem_stem', and recording_stem without animation; a bare file
    name stem.ext gives the same. *)
Theorem generateFilename_uses_the_stems
  (d s e d' s' e' : string) :
  Viewer.plainName s = true -> Viewer.plainName e = true ->
  Viewer.plainName s' = true -> Viewer.plainName e' = true ->
  let avatar := (d ++ "/" ++ s ++ "." ++ e)%string in
  let anim := (d' ++ "/" ++ s' ++ "." ++ e')%string in
  generateFilename
    (Some (mkGVRM (Some avatar) (Some (mkCharacter (Some anim))))) =
    ("recording_" ++ s ++ "_" ++ s')%string /\
  generateFilename (Some (mkGVRM (Some avatar) (Some (mkCharacter None)))) =
    ("recording_" ++ s)%string /\
  generateFilename (Some (mkGVRM (Some avatar) None)) =
    ("recording_" ++ s)%string /\
  generateFilename (Some (mkGVRM (Some (s ++ "." ++ e)%string) None)) =
    ("recording_" ++ s)%string.
Proof.
  intros Hs He Hs' He' avatar anim.
  assert (stripPath avatar = Some s) as Ha by now apply stripPath_dir.
  assert (stripPath anim = Some s') as Hb by now apply stripPath_dir.
  assert (exists c r, avatar = String c r) as (c & r & Eav).
  { subst avatar. destruct d; simpl; eauto. }
  assert (exists c r, anim = String c r) as (c' & r' & Ean).
  { subst anim. destruct d'; simpl; eauto. }
  unfold generateFilename. cbn [fileName character animationUrl].
  rewrite Eav, Ean, <- Eav, <- Ean, Ha, Hb. cbn [spliced].
  repeat split.
  assert (stripPath (s ++ "." ++ e) = Some s) as Hc
    by exact (stripPath_file s e Hs He).
  assert (exists c0 r0, (s ++ "." ++ e)%string = String c0 r0)
    as (c0 & r0 & Ebare) by (destruct s; simpl; eauto).
  rewrite Ebare, <- Ebare, Hc. reflexivity.
Qed.

Lemma generateFilename_uses_the_stems_witness :
  Viewer.plainName "sample2" = true /\
  generateFilename
    (Some (mkGVRM (Some "./assets/sample2.gvrm")
                  (Some (mkCharacter (Some "./assets/Warrior.fbx"))))) =
    "recording_sample2_Warrior".
Proof.
  split; [reflexivity|].
  exact (proj1 (generateFilename_uses_the_stems
                  "./assets" "sample2" "gvrm" "./assets" "Warrior" "fbx"
                  eq_refl eq_refl eq_refl eq_refl)).
Defined.

Lemma replace_ply_plain s :
  Viewer.plainName s = true ->
  Viewer.replace ".ply" ".gvrm" (s ++ ".ply") = (s ++ ".gvrm")%string.
Proof.
  induction s as [|c s IH]; intros Hs; [reflexivity|].
  cbn [Viewer.plainName] in Hs.
  apply andb_true_iff in Hs as [Hc Hs].
  apply andb_true_iff in Hc as [Hc _].
  apply negb_true_iff in Hc.
  cbn [append Viewer.replace String.prefix].
  destruct (ascii_dec "." c) as [E | _].
  - subst c. discriminate Hc.
  - now rewrite (IH Hs).
Qed.

Lemma drop_app x y : Viewer.drop (String.length x) (x ++ y) = y.
Proof. induction x as [|c x IH]; [now destruct y | exact IH]. Qed.

Lemma length_append x y :
  String.length (x ++ y) = String.length x + String.length y.
Proof. induction x as [|c x IH]; [reflexivity | simpl; now rewrite IH]. Qed.

Lemma endsWith_app x suffix : Viewer.endsWith suffix (x ++ suffix) = true.
Proof.
  unfold Viewer.endsWith. rewrite length_append.
  replace (String.length x + String.length suffix - String.length suffix)
    with (String.length x) by lia.
  rewrite drop_app, String.eqb_refl, andb_true_r.
  apply Nat.leb_le. lia.
Qed.

Lemma append_assoc x y z : ((x ++ y) ++ z)%string = (x ++ (y ++ z))%string.
Proof. induction x as [|c x IH]; [reflexivity | simpl; now rewrite IH]. Qed.

(** X23: the name given to the avatar at start-up.  For a sample name
    without dot and slash, the View Sample Avatars button loads
    ./assets/name.gvrm under that very path as file name; the select-sample
    button (when no avatar path is set) preprocesses ./assets/name.ply under
    the file name name.gvrm; and a gs parameter dir/name.ply, without the
    dialog, gives name.gvrm as well.  An avatar that carries any of these
    file names is recorded as recording_name. *)
Theorem startup_names_the_avatar (name : string) (p : Viewer.Paths) :
  Viewer.plainName name = true ->
  name <> EmptyString ->
  let viewed := Viewer.startupFrom
                  (Viewer.onViewSampleAvatars (Some name) p) in
  let sampled := Viewer.startupFrom (Viewer.onSelectSample (Some name) p) in
  Viewer.launch viewed =
    Viewer.LoadGVRM ("./assets/" ++ name ++ ".gvrm")
                    ("./assets/" ++ name ++ ".gvrm") /\
  Viewer.fileName viewed = Some ("./assets/" ++ name ++ ".gvrm")%string /\
  (JsString.truthy (Viewer.gvrmPath p) = false ->
   Viewer.launch sampled =
     Viewer.Preprocess ("./assets/" ++ name ++ ".ply") (name ++ ".gvrm") /\
   Viewer.fileName sampled = Some (name ++ ".gvrm")%string) /\
  (forall dir,
     Viewer.fileName
       (Viewer.startup (Some (dir ++ "/" ++ name ++ ".ply")%string) None None) =
       Some (name ++ ".gvrm")%string) /\
  (forall av dir,
     In (fileName av)
        [Viewer.fileName viewed; Some (name ++ ".gvrm")%string;
         Some (dir ++ "/" ++ name ++ ".gvrm")%string] ->
     character av = None ->
     generateFilename (Some av) = ("recording_" ++ name)%string).
Proof.
  intros Hplain Hne viewed sampled.
  destruct name as [|c0 n0] eqn:En; [congruence|]. rewrite <- En in *.
  assert (Viewer.basename (name ++ ".ply") = (name ++ ".ply")%string) as Hb
    by exact (basename_file name "ply" Hplain eq_refl).
  assert (Viewer.launch viewed =
            Viewer.LoadGVRM ("./assets/" ++ name ++ ".gvrm")
                            ("./assets/" ++ name ++ ".gvrm") /\
          Viewer.fileName viewed = Some ("./assets/" ++ name ++ ".gvrm")%string)
    as [Hv1 Hv2].
  { subst viewed. unfold Viewer.startupFrom, Viewer.onViewSampleAvatars.
    rewrite En at 1. rewrite <- En.
    cbn [Viewer.gsPath Viewer.gvrmPath Viewer.gsFileName].
    unfold Viewer.startup. cbn [append]. split; reflexivity. }
  split; [exact Hv1|]. split; [exact Hv2|]. split; [|split].
  - intros Hfalsy. subst sampled.
    unfold Viewer.startupFrom, Viewer.onSelectSample.
    rewrite En at 1. rewrite <- En.
    cbn [Viewer.gsPath Viewer.gvrmPath Viewer.gsFileName].
    assert (exists c r, (name ++ ".ply")%string = String c r) as (c & r & E)
      by (rewrite En; simpl; eauto).
    unfold Viewer.startup.
    destruct (Viewer.gvrmPath p) as [[|? ?]|]; try discriminate Hfalsy;
      cbn [append]; rewrite E, <- E, Hb, (replace_ply_plain name Hplain);
      split; reflexivity.
  - intros dir.
    assert (exists c r, (dir ++ "/" ++ name ++ ".ply")%string = String c r)
      as (c & r & E) by (destruct dir; simpl; eauto).
    unfold Viewer.startup. rewrite E, <- E. cbn [Viewer.fileName].
    replace (dir ++ "/" ++ name ++ ".ply")%string
      with ((dir ++ "/" ++ name) ++ ".ply")%string
      by now rewrite !append_assoc.
    rewrite endsWith_app.
    replace ((dir ++ "/" ++ name) ++ ".ply")%string
      with (dir ++ String "/" (name ++ ".ply"))%string
      by now rewrite !append_assoc.
    now rewrite basename_dir, Hb, (replace_ply_plain name Hplain).
  - intros av dir Hin Hch.
    assert (exists path c r,
              fileName av = Some path /\ path = String c r /\
              stripPath path = Some name) as (path & c & r & Hf & E & Hs).
    { destruct Hin as [H | [H | [H | []]]]; rewrite <- H.
      - rewrite Hv2. do 3 eexists. split; [reflexivity|]. split.
        + cbn [append]. reflexivity.
        + exact (stripPath_dir "./assets" name "gvrm" Hplain eq_refl).
      - exists (name ++ ".gvrm")%string.
        assert (exists c r, (name ++ ".gvrm")%string = String c r)
          as (c & r & E) by (rewrite En; simpl; eauto).
        exists c, r. split; [reflexivity|]. split; [exact E|].
        exact (stripPath_file name "gvrm" Hplain eq_refl).
      - exists (dir ++ "/" ++ name ++ ".gvrm")%string.
        assert (exists c r, (dir ++ "/" ++ name ++ ".gvrm")%string = String c r)
          as (c & r & E) by (destruct dir; simpl; eauto).
        exists c, r. split; [reflexivity|]. split; [exact E|].
        exact (stripPath_dir dir name "gvrm" Hplain eq_refl). }
    unfold generateFilename. rewrite Hf, Hch, E, <- E, Hs. reflexivity.
Qed.

Lemma startup_names_the_avatar_witness :
  Viewer.plainName "sample3" = true /\
  "sample3"%string <> EmptyString /\
  Viewer.launch
    (Viewer.startupFrom
       (Viewer.onViewSampleAvatars (Some "sample3"%string)
                                   (Viewer.mkPaths None None None))) =
    Viewer.LoadGVRM "./assets/sample3.gvrm" "./assets/sample3.gvrm".
Proof.
  split; [reflexivity|]. split; [discriminate|].
  refine (proj1 (startup_names_the_avatar "sample3"
                   (Viewer.mkPaths None None None) eq_refl _)).
  discriminate.
Defined.

(** X24: start-up finds every sample avatar at its own position: given the
    path of the i-th entry of gvrmFiles as gvrm path, or the .ply file of
    the same name as gs path, the initial avatar index is i. *)
Theorem startup_selects_the_loaded_sample (i : nat) (file : string) :
  nth_error Viewer.gvrmFiles i = Some file ->
  Viewer.initialGvrmIndex (Viewer.startup None (Some file) None) = Z.of_nat i /\
  Viewer.initialGvrmIndex
    (Viewer.startup (Some (Viewer.replace ".gvrm" ".ply" file)) None None) =
    Z.of_nat i.
Proof.
  intros H.
  do 9 (destruct i as [|i];
        [injection H as <-; split; vm_compute; reflexivity|]).
  destruct i; discriminate H.
Qed.

Lemma startup_selects_the_loaded_sample_witness :
  nth_error Viewer.gvrmFiles 4 = Some "./assets/sample5.gvrm"%string /\
  Viewer.initialGvrmIndex
    (Viewer.startup (Some "./assets/sample5.ply"%string) None None) = 4%Z.
Proof.
  split; [reflexivity|].
  exact (proj2 (startup_selects_the_loaded_sample 4 "./assets/sample5.gvrm"
                  eq_refl)).
Defined.
